(** * Delimited text parser: the SSE scan loop of
      be/src/exec/delimited-text-parser.inline.h

    A shallow embedding of [ProcessEscapeMask], [DelimitedTextParser::AddColumn]
    and [DelimitedTextParser::ParseSse], and the properties of the
    specification that can be stated over them.

    Conventions of the embedding.
    - A [char*] is the offset of the byte in the input buffer, a [Z]; the
      buffer itself is a [list Z] of byte values and is never written.
    - [uint16_t] values are [Z] in [0, 2^16); every assignment to a
      [uint16_t] variable goes through [uint16], the truncation to 16 bits.
    - [int] and [int64_t] quantities are [Z].  C++ gives no meaning to signed
      overflow, so the embedding describes the executions without it.  The
      conversion of a 64-bit pointer difference to the [int] parameter of
      [AddColumn] is no overflow but a narrowing, [int32].
    - The functions mutate the parser object and the objects behind their
      pointer arguments; here they pass a record [State] along.  An access
      outside an array or the buffer, and a failed DCHECK of line 38 or line
      111, end the run with [Fault].  The checks of lines 124 and 125 hold
      for every delimiter mask ([ffs_window_position]); the check of line 72
      is about the processor and is taken to hold. *)

From Stdlib Require Import String Ascii.
From Stdlib Require Import ZArith List Bool Lia.
From stdpp Require Import base list.

Local Open Scope Z_scope.
Local Open Scope bool_scope.

(** ** Machine integers and bit masks *)

Definition uint16 (z : Z) : Z := Z.land z 65535.

(** The conversion of a 64-bit integer to [int]: the value modulo [2^32] in
    [-2^31, 2^31). *)
Definition int32 (z : Z) : Z := (z + 2147483648) mod 4294967296 - 2147483648.

(** [SSEUtil::CHARS_PER_128_BIT_REGISTER] *)
Definition CHARS_PER_128_BIT_REGISTER : Z := 16.

(** Modelled from the spec: [SSEUtil::SSE_BITMASK] is declared in
    util/sse-util.h, not in delimited-text-parser.inline.h.  The code uses
    entry [i] as the mask of window position [i] (section 4.1 of the
    specification speaks of clearing and testing "position" [i]), that is
    [1 << i]. *)
Definition SSE_BITMASK (i : Z) : Z := Z.shiftl 1 i.

(** Conversion of an integer to [bool], as in [bool b = x & m]. *)
Definition to_bool (z : Z) : bool := negb (z =? 0).

(** [for (int i = from; i < from + count; ++i) body], on a loop state. *)
Fixpoint for_loop {T : Type} (count : nat) (i : Z) (body : Z -> T -> T) (s : T) : T :=
  match count with
  | O => s
  | S count' => for_loop count' (i + 1) body (body i s)
  end.

(** ** ProcessEscapeMask *)

(** One iteration of the loop of lines 15-20, on the pair
    [(escape_mask, escape_next)]. *)
Definition escape_loop_body (i : Z) (s : Z * bool) : Z * bool :=
  let '(escape_mask, escape_next) := s in
  let escape_mask :=
    if escape_next
    then uint16 (Z.land escape_mask (Z.lnot (SSE_BITMASK i)))
    else escape_mask in
  (escape_mask, to_bool (Z.land escape_mask (SSE_BITMASK i))).

(** The escape mask after the loop: the escapes that are themselves escaped
    are cleared. *)
Definition correct_escape_mask (escape_mask : Z) (last_char_is_escape : bool) : Z :=
  let first_char_is_escape := last_char_is_escape in
  let escape_next := first_char_is_escape in
  fst (for_loop 16 0 escape_loop_body (escape_mask, escape_next)).

(** [ProcessEscapeMask escape_mask last delim] returns the new values of
    [*last_char_is_escape] and [*delim_mask]. *)
Definition ProcessEscapeMask (escape_mask : Z) (last_char_is_escape : bool)
    (delim_mask : Z) : bool * Z :=
  let first_char_is_escape := last_char_is_escape in
  let escape_mask := correct_escape_mask escape_mask last_char_is_escape in
  let last_char_is_escape' :=
    to_bool (Z.land escape_mask (SSE_BITMASK (CHARS_PER_128_BIT_REGISTER - 1))) in
  let escape_mask :=
    uint16 (Z.lor (Z.shiftl escape_mask 1) (if first_char_is_escape then 1 else 0)) in
  (last_char_is_escape', uint16 (Z.land delim_mask (Z.lnot escape_mask))).

(** *** The specification's reading of the correction

    "Scanning positions 0..15 in increasing order, a position is an active
    escape only if the immediately preceding position was not itself" an
    active escape; the position before the window is described by the
    incoming carry. *)
Fixpoint active_escape (escape_mask : Z) (carry : bool) (i : nat) : bool :=
  match i with
  | O => Z.testbit escape_mask 0 && negb carry
  | S j =>
      Z.testbit escape_mask (Z.of_nat i) && negb (active_escape escape_mask carry j)
  end.

(** Whether the byte at window position [i] is escaped by the byte before it. *)
Definition escaped_at (escape_mask : Z) (carry : bool) (i : nat) : bool :=
  match i with
  | O => carry
  | S j => active_escape escape_mask carry j
  end.

(** ** Data model *)

(** [FieldLocation]: where a field starts and how long it is; a negative
    length marks a field that still contains escape characters. *)
Record FieldLocation : Type := { start : Z; len : Z }.

(** What a run writes, in the order it writes it.  [history] below is a
    ghost field: the code never reads it. *)
Inductive Event : Type :=
| FieldWritten (column : Z) (loc : FieldLocation)
| TupleEnd (ptr : Z).

(** The constants of a parser instance.  [return_column], [low_mask_],
    [high_mask_] and the two search registers are set up outside
    delimited-text-parser.inline.h and are taken as they come: [return_column c] is the
    answer of [ReturnCurrentColumn()] while [column_idx_] is [c]; the two
    tables are the members [low_mask_] and [high_mask_], filled by the
    constructor; [xmm_delim_search_] and [xmm_escape_search_] are the 16
    bytes of the two registers of lines 87-89, loaded by the constructor. *)
Record Config : Type := {
  tuple_delim_ : Z;
  field_delim_ : Z;
  collection_item_delim_ : Z;
  escape_char_ : Z;
  num_partition_keys : Z;
  return_column : Z -> bool;
  low_mask_ : Z -> Z;
  high_mask_ : Z -> Z;
  xmm_delim_search_ : list Z;
  xmm_escape_search_ : list Z
}.

#[local] Set Primitive Projections.

(** The mutable members of the parser and the objects behind the pointer
    arguments of [ParseSse]. *)
Record State : Type := {
  column_idx_ : Z;
  current_column_has_escape_ : bool;
  last_char_is_escape_ : bool;
  remaining_len : Z;
  byte_buffer_ptr : Z;
  row_end_locations : list Z;
  field_locations : list FieldLocation;
  num_tuples : Z;
  num_fields : Z;
  next_column_start : Z;
  history : list Event
}.

#[local] Unset Primitive Projections.

Definition set_column_idx_ (v : Z) (st : State) : State :=
  {| column_idx_ := v;
     current_column_has_escape_ := current_column_has_escape_ st;
     last_char_is_escape_ := last_char_is_escape_ st;
     remaining_len := remaining_len st;
     byte_buffer_ptr := byte_buffer_ptr st;
     row_end_locations := row_end_locations st;
     field_locations := field_locations st;
     num_tuples := num_tuples st;
     num_fields := num_fields st;
     next_column_start := next_column_start st;
     history := history st |}.

Definition set_current_column_has_escape_ (v : bool) (st : State) : State :=
  {| column_idx_ := column_idx_ st;
     current_column_has_escape_ := v;
     last_char_is_escape_ := last_char_is_escape_ st;
     remaining_len := remaining_len st;
     byte_buffer_ptr := byte_buffer_ptr st;
     row_end_locations := row_end_locations st;
     field_locations := field_locations st;
     num_tuples := num_tuples st;
     num_fields := num_fields st;
     next_column_start := next_column_start st;
     history := history st |}.

Definition set_last_char_is_escape_ (v : bool) (st : State) : State :=
  {| column_idx_ := column_idx_ st;
     current_column_has_escape_ := current_column_has_escape_ st;
     last_char_is_escape_ := v;
     remaining_len := remaining_len st;
     byte_buffer_ptr := byte_buffer_ptr st;
     row_end_locations := row_end_locations st;
     field_locations := field_locations st;
     num_tuples := num_tuples st;
     num_fields := num_fields st;
     next_column_start := next_column_start st;
     history := history st |}.

Definition set_remaining_len (v : Z) (st : State) : State :=
  {| column_idx_ := column_idx_ st;
     current_column_has_escape_ := current_column_has_escape_ st;
     last_char_is_escape_ := last_char_is_escape_ st;
     remaining_len := v;
     byte_buffer_ptr := byte_buffer_ptr st;
     row_end_locations := row_end_locations st;
     field_locations := field_locations st;
     num_tuples := num_tuples st;
     num_fields := num_fields st;
     next_column_start := next_column_start st;
     history := history st |}.

Definition set_byte_buffer_ptr (v : Z) (st : State) : State :=
  {| column_idx_ := column_idx_ st;
     current_column_has_escape_ := current_column_has_escape_ st;
     last_char_is_escape_ := last_char_is_escape_ st;
     remaining_len := remaining_len st;
     byte_buffer_ptr := v;
     row_end_locations := row_end_locations st;
     field_locations := field_locations st;
     num_tuples := num_tuples st;
     num_fields := num_fields st;
     next_column_start := next_column_start st;
     history := history st |}.

Definition set_row_end_locations (v : list Z) (st : State) : State :=
  {| column_idx_ := column_idx_ st;
     current_column_has_escape_ := current_column_has_escape_ st;
     last_char_is_escape_ := last_char_is_escape_ st;
     remaining_len := remaining_len st;
     byte_buffer_ptr := byte_buffer_ptr st;
     row_end_locations := v;
     field_locations := field_locations st;
     num_tuples := num_tuples st;
     num_fields := num_fields st;
     next_column_start := next_column_start st;
     history := history st |}.

Definition set_field_locations (v : list FieldLocation) (st : State) : State :=
  {| column_idx_ := column_idx_ st;
     current_column_has_escape_ := current_column_has_escape_ st;
     last_char_is_escape_ := last_char_is_escape_ st;
     remaining_len := remaining_len st;
     byte_buffer_ptr := byte_buffer_ptr st;
     row_end_locations := row_end_locations st;
     field_locations := v;
     num_tuples := num_tuples st;
     num_fields := num_fields st;
     next_column_start := next_column_start st;
     history := history st |}.

Definition set_num_tuples (v : Z) (st : State) : State :=
  {| column_idx_ := column_idx_ st;
     current_column_has_escape_ := current_column_has_escape_ st;
     last_char_is_escape_ := last_char_is_escape_ st;
     remaining_len := remaining_len st;
     byte_buffer_ptr := byte_buffer_ptr st;
     row_end_locations := row_end_locations st;
     field_locations := field_locations st;
     num_tuples := v;
     num_fields := num_fields st;
     next_column_start := next_column_start st;
     history := history st |}.

Definition set_num_fields (v : Z) (st : State) : State :=
  {| column_idx_ := column_idx_ st;
     current_column_has_escape_ := current_column_has_escape_ st;
     last_char_is_escape_ := last_char_is_escape_ st;
     remaining_len := remaining_len st;
     byte_buffer_ptr := byte_buffer_ptr st;
     row_end_locations := row_end_locations st;
     field_locations := field_locations st;
     num_tuples := num_tuples st;
     num_fields := v;
     next_column_start := next_column_start st;
     history := history st |}.

Definition set_next_column_start (v : Z) (st : State) : State :=
  {| column_idx_ := column_idx_ st;
     current_column_has_escape_ := current_column_has_escape_ st;
     last_char_is_escape_ := last_char_is_escape_ st;
     remaining_len := remaining_len st;
     byte_buffer_ptr := byte_buffer_ptr st;
     row_end_locations := row_end_locations st;
     field_locations := field_locations st;
     num_tuples := num_tuples st;
     num_fields := num_fields st;
     next_column_start := v;
     history := history st |}.

Definition set_history (v : list Event) (st : State) : State :=
  {| column_idx_ := column_idx_ st;
     current_column_has_escape_ := current_column_has_escape_ st;
     last_char_is_escape_ := last_char_is_escape_ st;
     remaining_len := remaining_len st;
     byte_buffer_ptr := byte_buffer_ptr st;
     row_end_locations := row_end_locations st;
     field_locations := field_locations st;
     num_tuples := num_tuples st;
     num_fields := num_fields st;
     next_column_start := next_column_start st;
     history := v |}.

(** ** Runs that can fail *)

Inductive error : Type :=
| OutOfBounds        (* an access outside the buffer or an output array *)
| CapacityExceeded   (* DCHECK_LT(num_fields, field_locations->size()) *)
| CheckFailed        (* DCHECK(escape_char_ != 0) *)
| OutOfFuel.         (* the bound on loop iterations of the embedding *)

Inductive result (A : Type) : Type :=
| Ok (a : A)
| Fault (e : error).

Arguments Ok {A} a.
Arguments Fault {A} e.

Definition bind {A B : Type} (r : result A) (f : A -> result B) : result B :=
  match r with
  | Ok a => f a
  | Fault e => Fault e
  end.

Notation "x <- r ;; k" := (bind r (fun x => k))
  (at level 90, r at next level, right associativity).

(** How an iteration of the walk over the delimiter mask ends: the loop goes
    on, or [ParseSse] returns. *)
Inductive flow : Type :=
| Next (st : State) (last_col_idx : Z)
| Return (st : State).

(** [ffs] of libc: the 1-based index of the lowest set bit, 0 for 0. *)
Fixpoint ffs_from (count : nat) (i : Z) (x : Z) : Z :=
  match count with
  | O => 0
  | S count' => if Z.testbit x i then i + 1 else ffs_from count' (i + 1) x
  end.

Definition ffs (x : Z) : Z := ffs_from 32 0 x.

(** The string that a 16-byte register holds for [_mm_cmpistrm], the compare
    of strings of implicit length: the bytes before its first NUL byte. *)
Fixpoint implicit_string (register : list Z) : list Z :=
  match register with
  | [] => []
  | b :: rest => if b =? 0 then [] else b :: implicit_string rest
  end.

(** Whether [b] is a character of the string of the 16-byte register
    [needle]. *)
Definition in_needle (needle : list Z) (b : Z) : bool :=
  existsb (Z.eqb b) (implicit_string (take 16 needle)).

(** Modelled from the spec: [_mm_cmpistrm(needle, window,
    SSEUtil::STRCHR_MODE)], lines 104-105 and 112-113.
    [SSEUtil::STRCHR_MODE] is defined in util/sse-util.h, not in
    delimited-text-parser.inline.h; section 4.3, steps 2 and 3, and lines 57-65 of the code
    describe the mode: the result has a bit for each character of the
    haystack that is one of the characters of the needle.  The instruction
    takes both registers as strings of implicit length, so the window counts
    up to its first NUL byte only.  [searched] is [in_needle] of the search
    register; position 0 is the lowest bit. *)
Fixpoint match_mask (searched : Z -> bool) (window : list Z) : Z :=
  match window with
  | [] => 0
  | b :: rest =>
      if b =? 0 then 0 else Z.b2z (searched b) + 2 * match_mask searched rest
  end.

Section Parser.

(** The template argument of [AddColumn] and [ParseSse]. *)
Variable process_escapes : bool.
Variable cfg : Config.
(** The input buffer. *)
Variable buf : list Z.

(** The field, tuple and collection-item delimiter, and the escape
    character, as section 4.3 of the specification names the characters
    searched for. *)
Definition is_delim (b : Z) : bool :=
  (b =? field_delim_ cfg) || (b =? tuple_delim_ cfg) || (b =? collection_item_delim_ cfg).

Definition is_escape (b : Z) : bool := b =? escape_char_ cfg.

(** Modelled from the spec: [ReturnCurrentColumn] is declared in
    delimited-text-parser.h and defined outside this file.  Section 4.2: "query
    the externally supplied column-projection decision for the current
    [column_idx_]". *)
Definition ReturnCurrentColumn (st : State) : bool :=
  return_column cfg (column_idx_ st).

(** ** AddColumn *)

Definition AddColumn (len : Z) (st : State) : result State :=
  st <- (if ReturnCurrentColumn st then
           if (0 <=? num_fields st)
              && (num_fields st <? Z.of_nat (length (field_locations st)))
           then
             let loc :=
               {| start := next_column_start st;
                  len := if process_escapes && current_column_has_escape_ st
                         then - len else len |} in
             Ok (set_num_fields (num_fields st + 1)
                  (set_history (history st ++ [FieldWritten (column_idx_ st) loc])
                    (set_field_locations
                       (<[Z.to_nat (num_fields st) := loc]> (field_locations st)) st)))
           else Fault CapacityExceeded
         else Ok st) ;;
  let st := if process_escapes then set_current_column_has_escape_ false st else st in
  let st := set_next_column_start (next_column_start st + (len + 1)) st in
  Ok (set_column_idx_ (column_idx_ st + 1) st).

(** ** ParseSse *)

Definition read_byte (p : Z) : result Z :=
  if (0 <=? p) && (p <? Z.of_nat (length buf))
  then Ok (nth (Z.to_nat p) buf 0)
  else Fault OutOfBounds.

(** [_mm_loadu_si128]: the 16 bytes at [p]. *)
Definition load_window (p : Z) : result (list Z) :=
  if (0 <=? p) && (p + CHARS_PER_128_BIT_REGISTER <=? Z.of_nat (length buf))
  then Ok (take 16 (drop (Z.to_nat p) buf))
  else Fault OutOfBounds.

(** Line 111: [DCHECK(escape_char_ != '\0')], reached when escape
    processing is active. *)
Definition check_escape_char : result unit :=
  if process_escapes && (escape_char_ cfg =? 0) then Fault CheckFailed else Ok tt.

(** Lines 104-116: the escape mask of the window, its corrected delimiter
    mask and the new value of [last_char_is_escape_].  The DCHECK of line
    111 is [check_escape_char], which [scan_window] runs before the masks
    are computed. *)
Definition window_masks (window : list Z) (last_char_is_escape : bool)
    : Z * Z * bool :=
  let delim_mask :=
    uint16 (match_mask (in_needle (xmm_delim_search_ cfg)) window) in
  let escape_mask := 0 in
  if process_escapes then
    let escape_mask :=
      uint16 (match_mask (in_needle (xmm_escape_search_ cfg)) window) in
    let '(last_char_is_escape, delim_mask) :=
      ProcessEscapeMask escape_mask last_char_is_escape delim_mask in
    (escape_mask, delim_mask, last_char_is_escape)
  else (escape_mask, delim_mask, last_char_is_escape).

(** Lines 131-132. *)
Definition mark_escaped (escape_mask last_col_idx n : Z) (st : State) : State :=
  let escaped :=
    negb (Z.land (Z.land escape_mask (low_mask_ cfg last_col_idx)) (high_mask_ cfg n) =? 0) in
  set_current_column_has_escape_ (current_column_has_escape_ st || escaped) st.

(** Lines 156-157. *)
Definition fold_tail (escape_mask last_col_idx : Z) (st : State) : State :=
  let unprocessed_escape :=
    to_bool (Z.land (Z.land escape_mask (low_mask_ cfg last_col_idx)) (high_mask_ cfg 15)) in
  set_current_column_has_escape_ (current_column_has_escape_ st || unprocessed_escape) st.

(** The tuple boundary that both the code and a byte-at-a-time scan see:
    [column_idx_] starts again at the partition-key count. *)
Definition end_tuple (delim_ptr : Z) (st : State) : State :=
  set_column_idx_ (num_partition_keys cfg)
    (set_history (history st ++ [TupleEnd delim_ptr]) st).

(** Lines 142-144. *)
Definition record_tuple_end (delim_ptr : Z) (st : State) : result State :=
  let st := end_tuple delim_ptr st in
  if (0 <=? num_tuples st) && (num_tuples st <? Z.of_nat (length (row_end_locations st)))
  then Ok (set_num_tuples (num_tuples st + 1)
            (set_row_end_locations
               (<[Z.to_nat (num_tuples st) := delim_ptr]> (row_end_locations st)) st))
  else Fault OutOfBounds.

(** Lines 146-148. *)
Definition early_exit (n : Z) (st : State) : State :=
  let st := set_byte_buffer_ptr (byte_buffer_ptr st + (n + 1)) st in
  let st := if process_escapes then set_last_char_is_escape_ false st else st in
  set_remaining_len (remaining_len st + (n + 1)) st.

(** Lines 129-151: the body of the inner loop for the set bit [n].  The
    pointer difference of line 138 is narrowed to the [int] that [AddColumn]
    takes. *)
Definition delim_step (max_tuples escape_mask n last_col_idx : Z) (st : State)
    : result flow :=
  let '(st, last_col_idx) :=
    if process_escapes
    then (mark_escaped escape_mask last_col_idx n st, n)
    else (st, last_col_idx) in
  let delim_ptr := byte_buffer_ptr st + n in
  st <- AddColumn (int32 (delim_ptr - next_column_start st)) st ;;
  b <- read_byte (byte_buffer_ptr st + n) ;;
  if b =? tuple_delim_ cfg then
    st <- record_tuple_end delim_ptr st ;;
    if num_tuples st =? max_tuples
    then Ok (Return (early_exit n st))
    else Ok (Next st last_col_idx)
  else Ok (Next st last_col_idx).

(** Lines 136-151 on their own, the part of the body of the inner loop that
    follows the escape test: [delim_step] is the test of lines 129-134 and
    then this ([delim_step_emit]). *)
Definition emit_delim (max_tuples n last_col_idx : Z) (st : State) : result flow :=
  let delim_ptr := byte_buffer_ptr st + n in
  st <- AddColumn (int32 (delim_ptr - next_column_start st)) st ;;
  b <- read_byte (byte_buffer_ptr st + n) ;;
  if b =? tuple_delim_ cfg then
    st <- record_tuple_end delim_ptr st ;;
    if num_tuples st =? max_tuples
    then Ok (Return (early_exit n st))
    else Ok (Next st last_col_idx)
  else Ok (Next st last_col_idx).

(** Lines 121-152: [while (delim_mask != 0)]. *)
Fixpoint walk (fuel : nat) (max_tuples escape_mask delim_mask last_col_idx : Z)
    (st : State) : result flow :=
  if delim_mask =? 0 then Ok (Next st last_col_idx) else
  match fuel with
  | O => Fault OutOfFuel
  | S fuel' =>
      let n := ffs delim_mask - 1 in
      let delim_mask := uint16 (Z.land delim_mask (Z.lnot (SSE_BITMASK n))) in
      r <- delim_step max_tuples escape_mask n last_col_idx st ;;
      match r with
      | Return st => Ok (Return st)
      | Next st last_col_idx =>
          walk fuel' max_tuples escape_mask delim_mask last_col_idx st
      end
  end.

(** Lines 160-161. *)
Definition advance_window (st : State) : State :=
  set_byte_buffer_ptr (byte_buffer_ptr st + CHARS_PER_128_BIT_REGISTER)
    (set_remaining_len (remaining_len st - CHARS_PER_128_BIT_REGISTER) st).

(** Lines 95-161: one iteration of the outer loop. *)
Definition scan_window (max_tuples : Z) (st : State) : result flow :=
  window <- load_window (byte_buffer_ptr st) ;;
  _ <- check_escape_char ;;
  let '(escape_mask, delim_mask, last_char_is_escape) :=
    window_masks window (last_char_is_escape_ st) in
  let st := if process_escapes
            then set_last_char_is_escape_ last_char_is_escape st else st in
  let last_col_idx := 0 in
  r <- walk 16 max_tuples escape_mask delim_mask last_col_idx st ;;
  match r with
  | Return st => Ok (Return st)
  | Next st last_col_idx =>
      let st := if process_escapes then fold_tail escape_mask last_col_idx st else st in
      Ok (Next (advance_window st) last_col_idx)
  end.

(** Lines 94-162: the loop over the full windows that remain. *)
Fixpoint ParseSse_loop (fuel : nat) (max_tuples : Z) (st : State) : result State :=
  if remaining_len st >=? CHARS_PER_128_BIT_REGISTER then
    match fuel with
    | O => Fault OutOfFuel
    | S fuel' =>
        r <- scan_window max_tuples st ;;
        match r with
        | Return st => Ok st
        | Next st _ => ParseSse_loop fuel' max_tuples st
        end
    end
  else Ok st.

(** Every full iteration takes 16 from [remaining_len], so this many
    iterations are enough ([ParseSse_never_out_of_fuel]). *)
Definition ParseSse (max_tuples : Z) (st : State) : result State :=
  ParseSse_loop (Z.to_nat (remaining_len st / CHARS_PER_128_BIT_REGISTER)) max_tuples st.

(** ** Repeated calls

    What the caller chooses for a call: the bound, the length it announces
    and the array and counter for the tuple ends.  Everything else is handed
    from one call to the next as the previous call left it. *)
Record Call : Type := {
  call_max_tuples : Z;
  call_remaining_len : Z;
  call_num_tuples : Z;
  call_row_end_locations : list Z
}.

Definition prepare_call (c : Call) (st : State) : State :=
  set_remaining_len (call_remaining_len c)
    (set_num_tuples (call_num_tuples c)
       (set_row_end_locations (call_row_end_locations c) st)).

Fixpoint ParseSse_calls (calls : list Call) (st : State) : result State :=
  match calls with
  | [] => Ok st
  | c :: rest =>
      st <- ParseSse (call_max_tuples c) (prepare_call c st) ;;
      ParseSse_calls rest st
  end.

(** The next call as the specification's chunking equivalence has it: the
    cursor and all state as the previous call left them, a fresh tuple
    counter. *)
Definition resume (max_tuples : Z) (st : State) : result State :=
  ParseSse max_tuples (set_num_tuples 0 st).

(** ** A scan one byte at a time

    The glossary's reading of the input, with no windows: a field ends at a
    delimiter that is not escaped, a byte is escaped when the byte before it
    is an escape character that is not itself escaped, and a field that
    contains an escape character is flagged.  The column is emitted by
    [AddColumn], its length an [int] as in the code; the cursor moves by one
    byte. *)
Definition scan_byte (b : Z) (st : State) : result State :=
  let p := byte_buffer_ptr st in
  let escaped := process_escapes && last_char_is_escape_ st in
  let is_esc := process_escapes && is_escape b in
  let st :=
    if process_escapes then
      set_last_char_is_escape_ (is_esc && negb escaped)
        (set_current_column_has_escape_ (current_column_has_escape_ st || is_esc) st)
    else st in
  st <- (if is_delim b && negb escaped then
           st <- AddColumn (int32 (p - next_column_start st)) st ;;
           Ok (if b =? tuple_delim_ cfg then end_tuple p st else st)
         else Ok st) ;;
  Ok (set_byte_buffer_ptr (p + 1) st).

Fixpoint scan_bytes (count : nat) (st : State) : result State :=
  match count with
  | O => Ok st
  | S count' =>
      b <- read_byte (byte_buffer_ptr st) ;;
      st <- scan_byte b st ;;
      scan_bytes count' st
  end.

(** ** Consecutive windows of a stream

    The masks of the full windows of [stream], the carry handed from each
    window to the next as the outer loop does through
    [last_char_is_escape_]. *)
Fixpoint stream_masks (windows : nat) (stream : list Z) (last_char_is_escape : bool)
    : list (Z * Z) :=
  match windows with
  | O => []
  | S windows' =>
      let '(escape_mask, delim_mask, last_char_is_escape) :=
        window_masks (take 16 stream) last_char_is_escape in
      (escape_mask, delim_mask) :: stream_masks windows' (drop 16 stream) last_char_is_escape
  end.

End Parser.

(** What a call leaves for the next one and for the reader of its output,
    apart from the cursor length and the tuple array and counter, which the
    caller sets up anew. *)
Definition forget (st : State) : State :=
  set_remaining_len 0 (set_num_tuples 0 (set_row_end_locations [] st)).

(** The two lookup tables as the comments of lines 130 and 155 use them:
    [low_mask_[i]] keeps the positions from [i] on, [high_mask_[i]] the
    positions up to [i], so that their intersection is the range "between
    [last_col_idx, n]". *)
Definition tables_ok (cfg : Config) : Prop :=
  forall i j, 0 <= i < 16 -> 0 <= j < 16 ->
    Z.testbit (low_mask_ cfg i) j = (i <=? j)
    /\ Z.testbit (high_mask_ cfg i) j = (j <=? i).

(** The escape character is none of the delimiters. *)
Definition escape_is_no_delim (cfg : Config) : Prop :=
  is_delim cfg (escape_char_ cfg) = false.

(** The search registers as the comments of lines 87-89 describe them: the
    string of the delimiter register holds the delimiters that are not NUL,
    and, when escape processing is active, the string of the escape register
    holds the escape character. *)
Definition registers_ok (process_escapes : bool) (cfg : Config) : Prop :=
  (forall b, b <> 0 -> in_needle (xmm_delim_search_ cfg) b = is_delim cfg b)
  /\ (process_escapes = true ->
      forall b, b <> 0 -> in_needle (xmm_escape_search_ cfg) b = is_escape cfg b).

(** No character of the delimiter register is a character of the escape
    register. *)
Definition registers_disjoint (cfg : Config) : Prop :=
  forall b, in_needle (xmm_delim_search_ cfg) b = true ->
            in_needle (xmm_escape_search_ cfg) b = false.

(** The buffer holds no NUL byte. *)
Definition no_nul (bytes : list Z) : Prop := Forall (fun b => b <> 0) bytes.

(** A search register: the given characters, NUL in the rest of its 16
    bytes. *)
Definition search_register (chars : list Z) : list Z :=
  take 16 (chars ++ repeat 0 16).

(** Tables that satisfy [tables_ok], for the examples. *)
Definition low_table (i : Z) : Z := uint16 (Z.shiftl 65535 i).
Definition high_table (i : Z) : Z := Z.shiftr 65535 (15 - i).

(** The bytes of a string. *)
Definition bytes_of (s : String.string) : list Z :=
  map (fun a => Z.of_N (Ascii.N_of_ascii a)) (String.list_ascii_of_string s).

(** ** Notions used to state and prove the properties *)

(** The state of a flow, whichever way the iteration ended. *)
Definition flow_state (r : flow) : State :=
  match r with
  | Next st _ => st
  | Return st => st
  end.

(** Byte [i] of a window. *)
Definition window_byte (w : list Z) (i : Z) : Z := nth (Z.to_nat i) w 0.

(** Whether [escape_mask] has a bit at a position [i] with [lo <= i < hi]. *)
Definition has_escape_in (escape_mask lo hi : Z) : bool :=
  existsb (fun i => Z.testbit escape_mask i) (seqZ lo (hi - lo)).

(** ** The marking of escaped columns, in the words of the specification

    Section 4.3, step 4: "for each set bit in the corrected delimiter mask,
    in increasing position order", step 4a: "test whether any escape match
    occurred strictly between the previous processed position and n; if so,
    mark the current column escaped", then the column is emitted and the
    tuple boundary handled; step 5: "after exhausting all set bits without
    early exit, fold any escape match in the tail after the last processed
    position through the window's end into the next column's escape
    flag".  [prev] is the previous processed position, [-1] while no
    position of the window has been processed. *)

(** The positions of the set bits of a 16-bit mask, in increasing order. *)
Fixpoint set_positions_from (count : nat) (i : Z) (mask : Z) : list Z :=
  match count with
  | O => []
  | S count' =>
      (if Z.testbit mask i then [i] else []) ++ set_positions_from count' (i + 1) mask
  end.

Definition set_positions (mask : Z) : list Z := set_positions_from 16 0 mask.

(** Whether an escape match lies strictly between [prev] and [n]. *)
Definition escape_strictly_between (escape_mask prev n : Z) : bool :=
  has_escape_in escape_mask (prev + 1) n.

Fixpoint walk_marking (cfg : Config) (buf : list Z) (max_tuples escape_mask : Z)
    (positions : list Z) (prev : Z) (st : State) : result flow :=
  match positions with
  | [] =>
      Ok (Next (set_current_column_has_escape_
                  (current_column_has_escape_ st
                   || escape_strictly_between escape_mask prev 16) st)
            (Z.max prev 0))
  | n :: rest =>
      let st :=
        set_current_column_has_escape_
          (current_column_has_escape_ st
           || escape_strictly_between escape_mask prev n) st in
      r <- emit_delim true cfg buf max_tuples n n st ;;
      match r with
      | Return st => Ok (Return st)
      | Next st _ => walk_marking cfg buf max_tuples escape_mask rest n st
      end
  end.

(** One window of the scan loop with escape processing, the walk over the
    delimiter mask and the tail as the specification words them. *)
Definition scan_window_marking (cfg : Config) (buf : list Z) (max_tuples : Z)
    (st : State) : result flow :=
  window <- load_window buf (byte_buffer_ptr st) ;;
  _ <- check_escape_char true cfg ;;
  let '(escape_mask, delim_mask, last_char_is_escape) :=
    window_masks true cfg window (last_char_is_escape_ st) in
  r <- walk_marking cfg buf max_tuples escape_mask (set_positions delim_mask) (-1)
         (set_last_char_is_escape_ last_char_is_escape st) ;;
  match r with
  | Return st => Ok (Return st)
  | Next st last_col_idx => Ok (Next (advance_window st) last_col_idx)
  end.

(** The state a scan one byte at a time has reached at position [j] of the
    window that starts at [P], seen from the state [s] of the walk over that
    window: the cursor is at [P + j], the carry tells whether byte [j] is
    escaped, and the column is flagged if it was flagged when the walk left
    [last] or an escape match lies in between.  [em] is the escape mask of
    the window and [c] the carry that came in. *)
Definition window_view (process_escapes : bool) (em : Z) (c : bool)
    (P j last : Z) (s : State) : State :=
  forget
    (set_byte_buffer_ptr (P + j)
       (if process_escapes
        then set_last_char_is_escape_ (escaped_at em c (Z.to_nat j))
               (set_current_column_has_escape_
                  (current_column_has_escape_ s || has_escape_in em last j) s)
        else s)).

(** Every field location written so far, after a run from [st0], is one
    that was there in [st0] or has a length that is not negative. *)
Definition lengths_nonneg (st0 st : State) : Prop :=
  (forall column loc,
     In (FieldWritten column loc) (history st) ->
     In (FieldWritten column loc) (history st0) \/ 0 <= len loc)
  /\ (forall (i : nat) loc,
        field_locations st !! i = Some loc ->
        field_locations st0 !! i = Some loc \/ 0 <= len loc).

(** The number of tuple ends among the events written. *)
Fixpoint tuple_ends (events : list Event) : Z :=
  match events with
  | [] => 0
  | TupleEnd _ :: rest => 1 + tuple_ends rest
  | FieldWritten _ _ :: rest => tuple_ends rest
  end.

(** [carry_after carry bytes]: whether the last of [bytes] is an escape
    character that is not itself escaped, when [carry] says so of the byte
    before them; the byte that follows [bytes] is escaped exactly then. *)
Definition carry_after (cfg : Config) (carry : bool) (bytes : list Z) : bool :=
  fold_left (fun c b => is_escape cfg b && negb c) bytes carry.

(** ** Concrete parsers and inputs, for the examples *)

(** Field delimiter [,], tuple delimiter newline, no escape character, no
    partition keys, every column materialized. *)
Definition plain_config : Config :=
  {| tuple_delim_ := 10; field_delim_ := 44; collection_item_delim_ := 0;
     escape_char_ := 0; num_partition_keys := 0; return_column := fun _ => true;
     low_mask_ := low_table; high_mask_ := high_table;
     xmm_delim_search_ := search_register [10; 44];
     xmm_escape_search_ := search_register [] |}.

(** The same with the escape character backslash. *)
Definition escape_config : Config :=
  {| tuple_delim_ := 10; field_delim_ := 44; collection_item_delim_ := 0;
     escape_char_ := 92; num_partition_keys := 0; return_column := fun _ => true;
     low_mask_ := low_table; high_mask_ := high_table;
     xmm_delim_search_ := search_register [10; 44];
     xmm_escape_search_ := search_register [92] |}.

(** One partition key; the columns from 1 on are materialized. *)
Definition keyed_config : Config :=
  {| tuple_delim_ := 10; field_delim_ := 44; collection_item_delim_ := 0;
     escape_char_ := 0; num_partition_keys := 1; return_column := fun c => 1 <=? c;
     low_mask_ := low_table; high_mask_ := high_table;
     xmm_delim_search_ := search_register [10; 44];
     xmm_escape_search_ := search_register [] |}.

(** The escape character is the field delimiter [,]. *)
Definition clashing_config : Config :=
  {| tuple_delim_ := 10; field_delim_ := 44; collection_item_delim_ := 0;
     escape_char_ := 44; num_partition_keys := 0; return_column := fun _ => true;
     low_mask_ := low_table; high_mask_ := high_table;
     xmm_delim_search_ := search_register [10; 44];
     xmm_escape_search_ := search_register [44] |}.

(** One partition key, every column materialized that is reached. *)
Definition keyed_all_config : Config :=
  {| tuple_delim_ := 10; field_delim_ := 44; collection_item_delim_ := 0;
     escape_char_ := 0; num_partition_keys := 1; return_column := fun _ => true;
     low_mask_ := low_table; high_mask_ := high_table;
     xmm_delim_search_ := search_register [10; 44];
     xmm_escape_search_ := search_register [] |}.

(** A parser at the start of a buffer of [remaining] bytes, with room for 4
    tuple ends and 10 fields. *)
Definition initial_state (column : Z) (remaining : Z) : State :=
  {| column_idx_ := column;
     current_column_has_escape_ := false;
     last_char_is_escape_ := false;
     remaining_len := remaining;
     byte_buffer_ptr := 0;
     row_end_locations := repeat 0 4;
     field_locations := repeat {| start := 0; len := 0 |} 10;
     num_tuples := 0;
     num_fields := 0;
     next_column_start := 0;
     history := [] |}.

(** The tuple delimiter of the examples. *)
Definition newline : list Z := [10].

(** Scenario A of the specification, padded to one window. *)
Definition scenario_A : list Z :=
  bytes_of "a,b,c"%string ++ newline ++ bytes_of "d,e,f"%string ++ newline
  ++ bytes_of "xxxx"%string.

(** Scenario B of the specification, padded to one window. *)
Definition scenario_B : list Z :=
  bytes_of "a\,b,c"%string ++ newline ++ bytes_of "xxxxxxxxx"%string.

(** A tuple end in the first byte and a field delimiter in byte 16. *)
Definition seventeen_bytes : list Z :=
  newline ++ bytes_of "aaaaaaaaaaaaaaa,"%string.

(** A tuple end in the first byte of 32. *)
Definition thirty_two_bytes : list Z :=
  newline ++ bytes_of "aaaaaaaaaaaaaaaaaaaaaaaaaaaaaaa"%string.

(** Two tuples, the first with an escaped field delimiter, in 32 bytes. *)
Definition two_tuples : list Z :=
  bytes_of "a\,b,c"%string ++ newline ++ bytes_of "d,e"%string ++ newline
  ++ bytes_of "xxxxxxxxxxxxxxxxxxxxx"%string.

(** Fourteen letters, three escape characters across the window boundary,
    a field delimiter, fourteen letters. *)
Definition straddling_run : list Z :=
  bytes_of "aaaaaaaaaaaaaa\\\,bbbbbbbbbbbbbb"%string.

(** A call with the bound [max_tuples] on [remaining] bytes, with a fresh
    array of 4 tuple ends. *)
Definition bounded_call (max_tuples remaining : Z) : Call :=
  {| call_max_tuples := max_tuples;
     call_remaining_len := remaining;
     call_num_tuples := 0;
     call_row_end_locations := repeat 0 4 |}.

(** ** Notions for the further properties of the three functions *)

(** The field locations and the tuple ends among the events written, in
    the order of writing. *)
Fixpoint fields_of (events : list Event) : list FieldLocation :=
  match events with
  | [] => []
  | FieldWritten _ loc :: rest => loc :: fields_of rest
  | TupleEnd _ :: rest => fields_of rest
  end.

Fixpoint tuple_ptrs_of (events : list Event) : list Z :=
  match events with
  | [] => []
  | TupleEnd p :: rest => p :: tuple_ptrs_of rest
  | FieldWritten _ _ :: rest => tuple_ptrs_of rest
  end.

(** The bytes of the buffer from offset [from] up to, not including, [to]. *)
Definition bytes_between (buf : list Z) (from to : Z) : list Z :=
  take (Z.to_nat (to - from)) (drop (Z.to_nat from) buf).

(** How many of [bytes] are the byte [b]. *)
Fixpoint occurrences (b : Z) (bytes : list Z) : Z :=
  match bytes with
  | [] => 0
  | x :: rest => (if x =? b then 1 else 0) + occurrences b rest
  end.

(** Whether one of the bytes of the buffer at the offsets from [lo] up to,
    not including, [hi] is the escape character. *)
Definition has_escape_between (cfg : Config) (buf : list Z) (lo hi : Z) : Prop :=
  exists q, lo <= q < hi /\ read_byte buf q = Ok (escape_char_ cfg).

(** What a call with the bound [max_tuples] needs to stay inside the buffer
    and the two output arrays, when the positions below [done] of the
    window at the cursor are behind it: the announced bytes are bytes of the
    buffer, there is a field slot for each byte still to come, and the tuple
    counter is below a bound that the tuple-end array can hold. *)
Definition in_bounds (buf : list Z) (max_tuples done : Z) (st : State) : Prop :=
  0 <= byte_buffer_ptr st
  /\ byte_buffer_ptr st + remaining_len st <= Z.of_nat (length buf)
  /\ 0 <= num_fields st
  /\ num_fields st + (remaining_len st - done)
     <= Z.of_nat (length (field_locations st))
  /\ 0 <= num_tuples st < max_tuples
  /\ max_tuples <= Z.of_nat (length (row_end_locations st)).

(** The state of the examples with 16 field slots. *)
Definition roomy_state (column remaining : Z) : State :=
  set_field_locations (repeat {| start := 0; len := 0 |} 16)
    (initial_state column remaining).

(** Field locations that follow one another in the buffer without
    overlapping, none starting before [from]: each starts at or after the
    byte behind the delimiter that ends the one before.  [fields_end] is the
    offset behind the delimiter of the last one. *)
Fixpoint fields_in_order (from : Z) (locs : list FieldLocation) : Prop :=
  match locs with
  | [] => True
  | loc :: rest =>
      from <= start loc
      /\ fields_in_order (start loc + Z.abs (len loc) + 1) rest
  end.

Fixpoint fields_end (from : Z) (locs : list FieldLocation) : Z :=
  match locs with
  | [] => from
  | loc :: rest => fields_end (start loc + Z.abs (len loc) + 1) rest
  end.

(** ** Proof steps *)

(** Splits a run [x <- r ;; k] that ended well into the two runs. *)
Ltac inv_bind H :=
  match type of H with
  | bind ?r _ = Ok _ =>
      let E := fresh "E" in
      destruct r eqn:E; [cbn [bind] in H | discriminate H]
  end.

(** Reduces the projections of states built with the setters. *)
Ltac st_norm :=
  cbn [forget set_column_idx_ set_current_column_has_escape_ set_last_char_is_escape_
       set_remaining_len set_byte_buffer_ptr set_row_end_locations set_field_locations
       set_num_tuples set_num_fields set_next_column_start set_history
       column_idx_ current_column_has_escape_ last_char_is_escape_ remaining_len
       byte_buffer_ptr row_end_locations field_locations num_tuples num_fields
       next_column_start history].

Ltac st_norm_in H :=
  cbn [forget set_column_idx_ set_current_column_has_escape_ set_last_char_is_escape_
       set_remaining_len set_byte_buffer_ptr set_row_end_locations set_field_locations
       set_num_tuples set_num_fields set_next_column_start set_history
       column_idx_ current_column_has_escape_ last_char_is_escape_ remaining_len
       byte_buffer_ptr row_end_locations field_locations num_tuples num_fields
       next_column_start history] in H.

(** ** Bit-level facts *)

Lemma uint16_testbit z i :
  0 <= i -> Z.testbit (uint16 z) i = Z.testbit z i && (i <? 16).
Proof.
  intros Hi. unfold uint16. rewrite Z.land_spec.
  change 65535 with (Z.ones 16).
  rewrite Z.testbit_ones_nonneg by lia. reflexivity.
Qed.

Lemma uint16_range z : 0 <= uint16 z < 65536.
Proof.
  unfold uint16. change 65535 with (Z.ones 16).
  rewrite Z.land_ones by lia. apply Z.mod_pos_bound. lia.
Qed.

Lemma uint16_small z : 0 <= z < 65536 -> uint16 z = z.
Proof.
  intros Hz. unfold uint16. change 65535 with (Z.ones 16).
  rewrite Z.land_ones by lia. apply Z.mod_small. exact Hz.
Qed.

Lemma SSE_BITMASK_testbit i j :
  0 <= i -> Z.testbit (SSE_BITMASK i) j = (i =? j).
Proof.
  intros Hi. unfold SSE_BITMASK. rewrite Z.shiftl_1_l.
  apply Z.pow2_bits_eqb. exact Hi.
Qed.

Lemma to_bool_land_bit z i :
  0 <= i -> to_bool (Z.land z (SSE_BITMASK i)) = Z.testbit z i.
Proof.
  intros Hi. unfold to_bool.
  destruct (Z.testbit z i) eqn:Hb.
  - apply negb_true_iff, Z.eqb_neq. intros H0.
    assert (Hc : Z.testbit (Z.land z (SSE_BITMASK i)) i = true).
    { rewrite Z.land_spec, SSE_BITMASK_testbit, Hb, Z.eqb_refl by lia. reflexivity. }
    rewrite H0, Z.bits_0 in Hc. discriminate.
  - apply negb_false_iff, Z.eqb_eq. apply Z.bits_inj'. intros j Hj.
    rewrite Z.land_spec, SSE_BITMASK_testbit, Z.bits_0 by lia.
    destruct (Z.eqb_spec i j) as [->|]; [rewrite Hb | rewrite andb_false_r]; reflexivity.
Qed.

Lemma clear_bit_testbit z i j :
  0 <= i -> 0 <= j ->
  Z.testbit (uint16 (Z.land z (Z.lnot (SSE_BITMASK i)))) j
  = Z.testbit z j && negb (i =? j) && (j <? 16).
Proof.
  intros Hi Hj.
  rewrite uint16_testbit, Z.land_spec, Z.lnot_spec, SSE_BITMASK_testbit by lia.
  reflexivity.
Qed.

Lemma testbit_high_small z i : 0 <= z < 65536 -> 16 <= i -> Z.testbit z i = false.
Proof.
  intros Hz Hi. rewrite <- (uint16_small z Hz), uint16_testbit by lia.
  replace (i <? 16) with false by (symmetry; apply Z.ltb_ge; lia).
  apply andb_false_r.
Qed.

Lemma for_loop_snoc {T : Type} (count : nat) (i : Z) (body : Z -> T -> T) (s : T) :
  for_loop (S count) i body s
  = body (i + Z.of_nat count) (for_loop count i body s).
Proof.
  revert i s. induction count as [|c IH]; intros i s.
  - simpl. f_equal. lia.
  - change (for_loop (S (S c)) i body s)
      with (for_loop (S c) (i + 1) body (body i s)).
    rewrite IH. simpl for_loop. f_equal. lia.
Qed.

(** ** The loop of ProcessEscapeMask computes the active escapes *)

Lemma escape_loop_inv (e : Z) (c : bool) (k : nat) :
  0 <= e < 65536 -> (k <= 16)%nat ->
  let r := for_loop k 0 escape_loop_body (e, c) in
  0 <= fst r < 65536
  /\ (forall j : nat, (j < k)%nat -> Z.testbit (fst r) (Z.of_nat j) = active_escape e c j)
  /\ (forall j : Z, Z.of_nat k <= j -> Z.testbit (fst r) j = Z.testbit e j)
  /\ snd r = escaped_at e c k.
Proof.
  intros He. induction k as [|k IH]; intros Hk.
  - simpl. repeat split; intros; lia.
  - rewrite for_loop_snoc. cbv zeta in IH.
    destruct (for_loop k 0 escape_loop_body (e, c)) as [ek nk].
    destruct IH as (Hr & Hlow & Hhigh & Hn); [lia|]. simpl in Hr, Hlow, Hhigh, Hn.
    cbv zeta. rewrite Z.add_0_l. unfold escape_loop_body.
    set (ek' := if nk then uint16 (Z.land ek (Z.lnot (SSE_BITMASK (Z.of_nat k)))) else ek).
    assert (Hbits : forall j, 0 <= j ->
              Z.testbit ek' j = Z.testbit ek j && negb (nk && (Z.of_nat k =? j))).
    { intros j Hj. unfold ek'. destruct nk.
      - rewrite clear_bit_testbit by lia. simpl.
        destruct (Z.testbit ek j) eqn:Hb; simpl; [|reflexivity].
        destruct (Z.ltb_spec j 16) as [|Hge]; [apply andb_true_r|].
        rewrite testbit_high_small in Hb by lia. discriminate.
      - simpl. rewrite andb_true_r. reflexivity. }
    simpl fst. simpl snd.
    repeat split.
    + unfold ek'. destruct nk; [apply uint16_range | lia].
    + unfold ek'. destruct nk; [apply uint16_range | lia].
    + intros j Hj. rewrite Hbits by lia.
      destruct (Nat.eq_dec j k) as [->|Hne].
      * rewrite Z.eqb_refl, andb_true_r, Hhigh, Hn by lia.
        destruct k; reflexivity.
      * replace (Z.of_nat k =? Z.of_nat j) with false by (symmetry; apply Z.eqb_neq; lia).
        rewrite andb_false_r, andb_true_r. apply Hlow. lia.
    + intros j Hj. rewrite Hbits by lia.
      replace (Z.of_nat k =? j) with false by (symmetry; apply Z.eqb_neq; lia).
      rewrite andb_false_r, andb_true_r. apply Hhigh. lia.
    + rewrite to_bool_land_bit, Hbits by lia.
      rewrite Z.eqb_refl, andb_true_r, Hhigh, Hn by lia.
      destruct k; reflexivity.
Qed.

Lemma correct_escape_mask_testbit (e : Z) (c : bool) (j : nat) :
  0 <= e < 65536 -> (j < 16)%nat ->
  Z.testbit (correct_escape_mask e c) (Z.of_nat j) = active_escape e c j.
Proof.
  intros He Hj. unfold correct_escape_mask.
  destruct (escape_loop_inv e c 16 He (Nat.le_refl _)) as (_ & Hlow & _).
  apply Hlow. exact Hj.
Qed.

Lemma correct_escape_mask_range (e : Z) (c : bool) :
  0 <= e < 65536 -> 0 <= correct_escape_mask e c < 65536.
Proof.
  intros He. unfold correct_escape_mask.
  destruct (escape_loop_inv e c 16 He (Nat.le_refl _)) as (Hr & _). exact Hr.
Qed.

(** ** ProcessEscapeMask: carry, shifted mask and delimiter mask *)

Lemma ProcessEscapeMask_carry (e : Z) (c : bool) (d : Z) :
  fst (ProcessEscapeMask e c d) = Z.testbit (correct_escape_mask e c) 15.
Proof.
  unfold ProcessEscapeMask. cbn [fst].
  change (CHARS_PER_128_BIT_REGISTER - 1) with 15.
  apply to_bool_land_bit. lia.
Qed.

Lemma shifted_mask_testbit (m : Z) (c : bool) (i : Z) :
  0 <= i < 16 ->
  Z.testbit (uint16 (Z.lor (Z.shiftl m 1) (if c then 1 else 0))) i
  = if i =? 0 then c else Z.testbit m (i - 1).
Proof.
  intros Hi. rewrite uint16_testbit, Z.lor_spec, Z.shiftl_spec by lia.
  replace (i <? 16) with true by (symmetry; apply Z.ltb_lt; lia).
  rewrite andb_true_r.
  destruct (Z.eqb_spec i 0) as [->|Hne].
  - rewrite Z.testbit_neg_r by lia. destruct c; reflexivity.
  - replace (Z.testbit (if c then 1 else 0) i) with false; [apply orb_false_r|].
    destruct c; [|symmetry; apply Z.bits_0].
    symmetry. change 1 with (2 ^ 0). apply Z.pow2_bits_false. lia.
Qed.

Lemma ProcessEscapeMask_delim_testbit (e : Z) (c : bool) (d : Z) (i : nat) :
  0 <= e < 65536 -> (i < 16)%nat ->
  Z.testbit (snd (ProcessEscapeMask e c d)) (Z.of_nat i)
  = Z.testbit d (Z.of_nat i) && negb (escaped_at e c i).
Proof.
  intros He Hi. unfold ProcessEscapeMask. cbn [snd].
  rewrite uint16_testbit, Z.land_spec, Z.lnot_spec, shifted_mask_testbit by lia.
  replace (Z.of_nat i <? 16) with true by (symmetry; apply Z.ltb_lt; lia).
  rewrite andb_true_r. f_equal. f_equal.
  destruct i as [|j]; [reflexivity|].
  replace (Z.of_nat (S j) =? 0) with false by (symmetry; apply Z.eqb_neq; lia).
  replace (Z.of_nat (S j) - 1) with (Z.of_nat j) by lia.
  apply correct_escape_mask_testbit; [exact He | lia].
Qed.

(** C4.  For a 16-bit escape mask [e], a carry [c] and a delimiter mask [d]:
    the outgoing carry is bit 15 of the escape mask after the parity
    correction, the corrected mask holds exactly the active escapes, and bit
    [i] of the new delimiter mask is bit [i] of [d] unless the byte at [i] is
    escaped, that is, unless [i = 0] and the carry came in, or the corrected
    escape mask (shifted up by one) has bit [i - 1]. *)
Theorem ProcessEscapeMask_spec (e : Z) (c : bool) (d : Z) :
  0 <= e < 65536 ->
  let corrected := correct_escape_mask e c in
  let shifted := uint16 (Z.lor (Z.shiftl corrected 1) (if c then 1 else 0)) in
  fst (ProcessEscapeMask e c d) = Z.testbit corrected 15
  /\ (forall i : nat, (i < 16)%nat ->
        Z.testbit corrected (Z.of_nat i) = active_escape e c i)
  /\ Z.testbit shifted 0 = c
  /\ (forall i : Z, 1 <= i < 16 -> Z.testbit shifted i = Z.testbit corrected (i - 1))
  /\ snd (ProcessEscapeMask e c d) = uint16 (Z.land d (Z.lnot shifted))
  /\ (forall i : Z, 0 <= i < 16 ->
        Z.testbit (snd (ProcessEscapeMask e c d)) i
        = Z.testbit d i && negb (Z.testbit shifted i)).
Proof.
  intros He corrected shifted. repeat split.
  - apply ProcessEscapeMask_carry.
  - intros i Hi. apply correct_escape_mask_testbit; assumption.
  - unfold shifted. rewrite shifted_mask_testbit by lia. reflexivity.
  - intros i Hi. unfold shifted. rewrite shifted_mask_testbit by lia.
    replace (i =? 0) with false by (symmetry; apply Z.eqb_neq; lia). reflexivity.
  - intros i Hi. unfold ProcessEscapeMask. cbn [snd]. fold corrected. fold shifted.
    rewrite uint16_testbit, Z.land_spec, Z.lnot_spec by lia.
    replace (i <? 16) with true by (symmetry; apply Z.ltb_lt; lia).
    apply andb_true_r.
Qed.

Lemma ProcessEscapeMask_spec_witness :
  fst (ProcessEscapeMask 6 false 9) = Z.testbit (correct_escape_mask 6 false) 15
  /\ snd (ProcessEscapeMask 6 false 9) = 9.
Proof.
  assert (He : 0 <= 6 < 65536) by lia.
  destruct (ProcessEscapeMask_spec 6 false 9 He) as (Hc & _ & _ & _ & Hd & _).
  split; [exact Hc | rewrite Hd; reflexivity].
Defined.

(** C9.  The corrected delimiter mask is a bitwise subset of the delimiter
    mask that came in: the correction only clears bits. *)
Theorem ProcessEscapeMask_subset (e : Z) (c : bool) (d : Z) :
  Z.land (snd (ProcessEscapeMask e c d)) d = snd (ProcessEscapeMask e c d).
Proof.
  unfold ProcessEscapeMask. cbn [snd]. apply Z.bits_inj'. intros i Hi.
  rewrite Z.land_spec, uint16_testbit, Z.land_spec by lia.
  destruct (Z.testbit d i); [rewrite andb_true_r | rewrite !andb_false_l]; reflexivity.
Qed.

(** C10.  Two calls that agree on the escape mask and on the incoming
    carry leave the same carry, whatever their delimiter masks are. *)
Theorem ProcessEscapeMask_carry_independent (e : Z) (c : bool) (d1 d2 : Z) :
  fst (ProcessEscapeMask e c d1) = fst (ProcessEscapeMask e c d2).
Proof.
  rewrite !ProcessEscapeMask_carry. reflexivity.
Qed.

(** ** AddColumn *)

(** C7, as the code has it.  If the column is materialized and a slot is
    left, the pair (next-column-start, length) is written into slot
    [num_fields], the length negated exactly when escape processing is active
    and the column was flagged, and the field counter grows by one; if the
    column is skipped the output is left alone.  Either way next-column-start
    advances by [len + 1] and [column_idx_] by one.  The per-column escape
    flag is reset when escape processing is active and left as it is
    otherwise. *)
Theorem AddColumn_spec (process_escapes : bool) (cfg : Config) (len : Z) (st : State) :
  (ReturnCurrentColumn cfg st = true ->
   0 <= num_fields st < Z.of_nat (length (field_locations st))) ->
  exists st',
    AddColumn process_escapes cfg len st = Ok st'
    /\ (if ReturnCurrentColumn cfg st
        then field_locations st'
             = <[Z.to_nat (num_fields st) :=
                   {| start := next_column_start st;
                      len := if process_escapes && current_column_has_escape_ st
                             then - len else len |}]> (field_locations st)
             /\ num_fields st' = num_fields st + 1
        else field_locations st' = field_locations st
             /\ num_fields st' = num_fields st)
    /\ current_column_has_escape_ st'
       = (if process_escapes then false else current_column_has_escape_ st)
    /\ next_column_start st' = next_column_start st + (len + 1)
    /\ column_idx_ st' = column_idx_ st + 1.
Proof.
  intros Hcap. unfold AddColumn.
  destruct (ReturnCurrentColumn cfg st) eqn:Hret.
  - specialize (Hcap eq_refl).
    replace (0 <=? num_fields st) with true by (symmetry; apply Z.leb_le; lia).
    replace (num_fields st <? Z.of_nat (length (field_locations st))) with true
      by (symmetry; apply Z.ltb_lt; lia).
    cbn [andb bind]. eexists. split; [reflexivity|].
    destruct process_escapes; cbn; repeat split; reflexivity.
  - cbn [bind]. eexists. split; [reflexivity|].
    destruct process_escapes; cbn; repeat split; reflexivity.
Qed.

Lemma AddColumn_spec_witness :
  exists st',
    AddColumn true escape_config 4
      (set_current_column_has_escape_ true (initial_state 0 16)) = Ok st'
    /\ field_locations st' !! 0%nat = Some {| start := 0; len := -4 |}
    /\ num_fields st' = 1
    /\ current_column_has_escape_ st' = false
    /\ next_column_start st' = 5
    /\ column_idx_ st' = 1.
Proof.
  destruct (AddColumn_spec true escape_config 4
              (set_current_column_has_escape_ true (initial_state 0 16)))
    as (st' & Hrun & Hout & Hflag & Hnext & Hcol).
  - intros _. vm_compute. split; [discriminate | reflexivity].
  - exists st'. split; [exact Hrun|].
    cbn in Hout. destruct Hout as [Hloc Hnum].
    repeat split; try assumption. rewrite Hloc. reflexivity.
Defined.

(** Without escape processing [AddColumn] leaves the per-column escape flag
    as it finds it: a flag that is set stays set. *)
Lemma AddColumn_keeps_flag_without_escapes :
  exists st',
    AddColumn false plain_config 4
      (set_current_column_has_escape_ true (initial_state 0 16)) = Ok st'
    /\ current_column_has_escape_ st' = true.
Proof.
  eexists. split; [vm_compute; reflexivity | reflexivity].
Qed.

(** ** What the pieces of the scan loop leave alone *)

Lemma AddColumn_frame (process_escapes : bool) (cfg : Config) (len : Z) (st st' : State) :
  AddColumn process_escapes cfg len st = Ok st' ->
  byte_buffer_ptr st' = byte_buffer_ptr st
  /\ remaining_len st' = remaining_len st
  /\ last_char_is_escape_ st' = last_char_is_escape_ st
  /\ num_tuples st' = num_tuples st
  /\ row_end_locations st' = row_end_locations st.
Proof.
  unfold AddColumn. intros H.
  destruct (ReturnCurrentColumn cfg st);
    [destruct ((0 <=? num_fields st)
               && (num_fields st <? Z.of_nat (length (field_locations st))));
     [|discriminate H]|];
    cbn [bind] in H; injection H as <-; destruct process_escapes; cbn; auto.
Qed.

Lemma record_tuple_end_frame (cfg : Config) (p : Z) (st st' : State) :
  record_tuple_end cfg p st = Ok st' ->
  byte_buffer_ptr st' = byte_buffer_ptr st
  /\ remaining_len st' = remaining_len st
  /\ last_char_is_escape_ st' = last_char_is_escape_ st
  /\ num_tuples st' = num_tuples st + 1
  /\ column_idx_ st' = num_partition_keys cfg
  /\ history st' = history st ++ [TupleEnd p].
Proof.
  unfold record_tuple_end. intros H.
  destruct ((0 <=? num_tuples (end_tuple cfg p st))
            && (num_tuples (end_tuple cfg p st)
                <? Z.of_nat (length (row_end_locations (end_tuple cfg p st)))));
    [|discriminate H].
  injection H as <-. cbn. auto 6.
Qed.

(** ** The early exit *)

(** C1, at the early exit of lines 145-150.  When the iteration for the set
    bit [n] ends the call, the tuple counter has reached [max_tuples], the
    pointer has advanced by [n + 1] and the escape carry is false when escape
    processing is active; [remaining_len] has grown by [n + 1], where a
    cursor that advances by [n + 1] bytes has [n + 1] bytes less in front of
    it. *)
Theorem delim_step_early_exit (process_escapes : bool) (cfg : Config) (buf : list Z)
    (max_tuples escape_mask n last_col_idx : Z) (st st' : State) :
  delim_step process_escapes cfg buf max_tuples escape_mask n last_col_idx st
  = Ok (Return st') ->
  num_tuples st' = max_tuples
  /\ byte_buffer_ptr st' = byte_buffer_ptr st + (n + 1)
  /\ (process_escapes = true -> last_char_is_escape_ st' = false)
  /\ remaining_len st' = remaining_len st + (n + 1).
Proof.
  unfold delim_step. intros H.
  set (p := if process_escapes
            then (mark_escaped cfg escape_mask last_col_idx n st, n)
            else (st, last_col_idx)) in H.
  assert (Hp : byte_buffer_ptr (fst p) = byte_buffer_ptr st
               /\ remaining_len (fst p) = remaining_len st).
  { unfold p. destruct process_escapes; cbn; auto. }
  destruct p as [s0 l0]. cbn [fst] in Hp. destruct Hp as [Hp0 Hr0].
  inv_bind H. inv_bind H.
  destruct (a0 =? tuple_delim_ cfg); [|discriminate H].
  inv_bind H.
  destruct (num_tuples a1 =? max_tuples) eqn:Hk; [|discriminate H].
  injection H as <-.
  apply AddColumn_frame in E as (Ha1 & Ha2 & _).
  apply record_tuple_end_frame in E1 as (Hb1 & Hb2 & _).
  apply Z.eqb_eq in Hk.
  unfold early_exit. destruct process_escapes; cbn; repeat split; try lia; auto.
Qed.

Lemma delim_step_early_exit_witness :
  exists st',
    delim_step true escape_config scenario_A 1 0 5 0
      (set_next_column_start 4 (set_num_fields 2 (set_column_idx_ 2 (initial_state 0 16))))
    = Ok (Return st')
    /\ num_tuples st' = 1
    /\ byte_buffer_ptr st' = 6
    /\ last_char_is_escape_ st' = false
    /\ remaining_len st' = 22.
Proof.
  eexists. split; [vm_compute; reflexivity|].
  match goal with
  | |- num_tuples ?s = _ /\ _ =>
      destruct (delim_step_early_exit true escape_config scenario_A 1 0 5 0
                  (set_next_column_start 4
                     (set_num_fields 2 (set_column_idx_ 2 (initial_state 0 16)))) s)
        as (H1 & H2 & H3 & H4); [vm_compute; reflexivity|]
  end.
  split; [exact H1 | split; [exact H2 | split; [exact (H3 eq_refl) | exact H4]]].
Defined.

(** The whole call on scenario A with [max_tuples = 1] and escape
    processing: of the 16 bytes announced, 6 are consumed, and the call
    announces 22 for the next one. *)
Lemma ParseSse_scenario_A_bound_1 :
  exists st',
    ParseSse true escape_config scenario_A 1 (initial_state 0 16) = Ok st'
    /\ num_tuples st' = 1
    /\ byte_buffer_ptr st' = 6
    /\ last_char_is_escape_ st' = false
    /\ remaining_len st' = 22.
Proof.
  eexists. split; [vm_compute; reflexivity|]. repeat split.
Qed.

(** ** The range test with the two lookup tables *)

Lemma has_escape_in_true (m lo hi : Z) :
  has_escape_in m lo hi = true <-> exists i, lo <= i < hi /\ Z.testbit m i = true.
Proof.
  unfold has_escape_in. rewrite existsb_exists. split.
  - intros (i & Hin & Hb). exists i. split; [|exact Hb].
    apply list_elem_of_In, elem_of_seqZ in Hin. lia.
  - intros (i & Hi & Hb). exists i. split; [|exact Hb].
    apply list_elem_of_In, elem_of_seqZ. lia.
Qed.

Lemma has_escape_in_false (m lo hi : Z) :
  has_escape_in m lo hi = false <-> forall i, lo <= i < hi -> Z.testbit m i = false.
Proof.
  split.
  - intros H i Hi. destruct (Z.testbit m i) eqn:Hb; [|reflexivity].
    rewrite <- H. symmetry. apply has_escape_in_true. eauto.
  - intros H. destruct (has_escape_in m lo hi) eqn:E; [|reflexivity].
    apply has_escape_in_true in E as (i & Hi & Hb). rewrite H in Hb by exact Hi.
    discriminate.
Qed.

Lemma to_bool_has_bit (z : Z) :
  (forall i, 16 <= i -> Z.testbit z i = false) ->
  to_bool z = has_escape_in z 0 16.
Proof.
  intros Hhigh. destruct (has_escape_in z 0 16) eqn:E.
  - apply has_escape_in_true in E as (i & Hi & Hb).
    unfold to_bool. apply negb_true_iff, Z.eqb_neq. intros ->.
    rewrite Z.bits_0 in Hb. discriminate.
  - unfold to_bool. apply negb_false_iff, Z.eqb_eq.
    apply Z.bits_inj'. intros i Hi. rewrite Z.bits_0.
    destruct (Z.lt_ge_cases i 16).
    + rewrite has_escape_in_false in E. apply E. lia.
    + apply Hhigh. assumption.
Qed.

Lemma range_test (cfg : Config) (em last n : Z) :
  tables_ok cfg -> 0 <= em < 65536 -> 0 <= last < 16 -> 0 <= n < 16 ->
  to_bool (Z.land (Z.land em (low_mask_ cfg last)) (high_mask_ cfg n))
  = has_escape_in em last (n + 1).
Proof.
  intros Ht Hem Hl Hn.
  rewrite to_bool_has_bit.
  2:{ intros i Hi. rewrite !Z.land_spec, (testbit_high_small em) by lia. reflexivity. }
  destruct (has_escape_in em last (n + 1)) eqn:E.
  - apply has_escape_in_true in E as (i & Hi & Hb).
    apply has_escape_in_true. exists i. split; [lia|].
    destruct (Ht last i) as [Hlo _]; [lia | lia |].
    destruct (Ht n i) as [_ Hhi]; [lia | lia |].
    rewrite !Z.land_spec, Hb, Hlo, Hhi.
    replace (last <=? i) with true by (symmetry; apply Z.leb_le; lia).
    replace (i <=? n) with true by (symmetry; apply Z.leb_le; lia).
    reflexivity.
  - apply has_escape_in_false. intros i Hi.
    rewrite has_escape_in_false in E.
    destruct (Ht last i) as [Hlo _]; [lia | lia |].
    destruct (Ht n i) as [_ Hhi]; [lia | lia |].
    rewrite !Z.land_spec, Hlo, Hhi.
    destruct (Z.leb_spec last i); [|rewrite andb_false_r; reflexivity].
    destruct (Z.leb_spec i n); [|rewrite andb_false_r; reflexivity].
    rewrite E by lia. reflexivity.
Qed.

Lemma tables_ok_example : tables_ok plain_config /\ tables_ok escape_config.
Proof.
  assert (Hall : Forall (fun i => Forall (fun j =>
                   Z.testbit (low_table i) j = (i <=? j)
                   /\ Z.testbit (high_table i) j = (j <=? i)) (seqZ 0 16)) (seqZ 0 16)).
  { vm_compute seqZ. repeat constructor. }
  assert (H : forall i j, 0 <= i < 16 -> 0 <= j < 16 ->
            Z.testbit (low_table i) j = (i <=? j)
            /\ Z.testbit (high_table i) j = (j <=? i)).
  { intros i j Hi Hj.
    rewrite Forall_forall in Hall. specialize (Hall i).
    rewrite Forall_forall in Hall. apply Hall; apply elem_of_seqZ; lia. }
  split; exact H.
Qed.

Lemma registers_ok_example :
  registers_ok false plain_config /\ registers_ok true escape_config.
Proof.
  split; split.
  - intros b Hb.
    change (in_needle (xmm_delim_search_ plain_config) b)
      with ((b =? 10) || ((b =? 44) || false)).
    change (is_delim plain_config b) with ((b =? 44) || (b =? 10) || (b =? 0)).
    destruct (Z.eqb_spec b 10), (Z.eqb_spec b 44), (Z.eqb_spec b 0);
      try reflexivity; lia.
  - discriminate.
  - intros b Hb.
    change (in_needle (xmm_delim_search_ escape_config) b)
      with ((b =? 10) || ((b =? 44) || false)).
    change (is_delim escape_config b) with ((b =? 44) || (b =? 10) || (b =? 0)).
    destruct (Z.eqb_spec b 10), (Z.eqb_spec b 44), (Z.eqb_spec b 0);
      try reflexivity; lia.
  - intros _ b Hb.
    change (in_needle (xmm_escape_search_ escape_config) b) with ((b =? 92) || false).
    change (is_escape escape_config b) with (b =? 92).
    apply orb_false_r.
Qed.

Lemma registers_disjoint_example : registers_disjoint escape_config.
Proof.
  intros b.
  change (in_needle (xmm_delim_search_ escape_config) b)
    with ((b =? 10) || ((b =? 44) || false)).
  change (in_needle (xmm_escape_search_ escape_config) b) with ((b =? 92) || false).
  destruct (Z.eqb_spec b 10), (Z.eqb_spec b 44), (Z.eqb_spec b 92);
    try reflexivity; try discriminate; lia.
Qed.

(** A way to check that given bytes hold no NUL. *)
Lemma no_nul_check (bytes : list Z) :
  forallb (fun b => negb (b =? 0)) bytes = true -> no_nul bytes.
Proof.
  unfold no_nul. intros H. apply Forall_forall. intros b Hin.
  rewrite forallb_forall in H. apply list_elem_of_In in Hin. specialize (H b Hin).
  apply negb_true_iff, Z.eqb_neq in H. exact H.
Qed.

(** ** The masks of a window *)

Lemma implicit_string_no_nul (register : list Z) : ~ In 0 (implicit_string register).
Proof.
  induction register as [|b r IH]; cbn [implicit_string]; [intros []|].
  destruct (Z.eqb_spec b 0) as [|Hb]; [intros []|].
  intros [H | H]; [congruence | exact (IH H)].
Qed.

Lemma in_needle_no_nul (needle : list Z) (b : Z) :
  in_needle needle b = true -> b <> 0.
Proof.
  unfold in_needle. intros H ->. apply existsb_exists in H as (x & Hin & Hx).
  apply Z.eqb_eq in Hx. subst x. exact (implicit_string_no_nul _ Hin).
Qed.

(** A set bit stands for a byte of the window that is searched for. *)
Lemma match_mask_bit (p : Z -> bool) (w : list Z) (i : nat) :
  Z.testbit (match_mask p w) (Z.of_nat i) = true ->
  exists b, w !! i = Some b /\ p b = true.
Proof.
  revert i. induction w as [|b r IH]; intros i H.
  - cbn in H. rewrite Z.bits_0 in H. discriminate.
  - cbn [match_mask] in H. destruct (b =? 0).
    { rewrite Z.bits_0 in H. discriminate. }
    rewrite Z.add_comm in H. destruct i as [|j].
    + cbn [Z.of_nat] in H. rewrite Z.testbit_0_r in H. exists b. split; [reflexivity | exact H].
    + rewrite Nat2Z.inj_succ, Z.testbit_succ_r in H by lia. apply IH in H. exact H.
Qed.

(** In a window with no NUL byte every byte has its bit. *)
Lemma match_mask_testbit (p : Z -> bool) (w : list Z) (i : nat) :
  no_nul w ->
  Z.testbit (match_mask p w) (Z.of_nat i)
  = match w !! i with Some b => p b | None => false end.
Proof.
  intros Hnul. revert i. induction Hnul as [|b r Hb Hr IH]; intros i.
  - cbn. apply Z.bits_0.
  - cbn [match_mask]. replace (b =? 0) with false by (symmetry; apply Z.eqb_neq; exact Hb).
    rewrite Z.add_comm. destruct i as [|j].
    + cbn [lookup list_lookup]. apply Z.testbit_0_r.
    + rewrite Nat2Z.inj_succ, Z.testbit_succ_r by lia. apply IH.
Qed.

Lemma match_mask_range (p : Z -> bool) (w : list Z) :
  0 <= match_mask p w < 2 ^ Z.of_nat (length w).
Proof.
  induction w as [|b r IH].
  - cbn. lia.
  - cbn [match_mask length]. rewrite Nat2Z.inj_succ, Z.pow_succ_r by lia.
    destruct (b =? 0); [lia|]. destruct (p b); cbn [Z.b2z]; lia.
Qed.

Lemma match_mask_uint16 (p : Z -> bool) (w : list Z) :
  length w = 16%nat -> uint16 (match_mask p w) = match_mask p w.
Proof.
  intros Hw. apply uint16_small. pose proof (match_mask_range p w) as H.
  rewrite Hw in H. exact H.
Qed.

Lemma match_mask_window_byte (p : Z -> bool) (w : list Z) (i : Z) :
  no_nul w -> 0 <= i < Z.of_nat (length w) ->
  Z.testbit (match_mask p w) i = p (window_byte w i).
Proof.
  intros Hnul Hi. rewrite <- (Z2Nat.id i) at 1 by lia.
  rewrite match_mask_testbit by exact Hnul.
  unfold window_byte.
  destruct (w !! Z.to_nat i) as [b|] eqn:E.
  - erewrite nth_lookup_Some by exact E. reflexivity.
  - apply lookup_ge_None in E. lia.
Qed.

Lemma match_mask_window_byte_set (p : Z -> bool) (w : list Z) (i : Z) :
  0 <= i -> Z.testbit (uint16 (match_mask p w)) i = true ->
  p (window_byte w i) = true.
Proof.
  intros Hi H. rewrite uint16_testbit in H by exact Hi.
  apply andb_true_iff in H as [H _].
  rewrite <- (Z2Nat.id i) in H by exact Hi.
  apply match_mask_bit in H as (b & Hb & Hp).
  unfold window_byte. erewrite nth_lookup_Some by exact Hb. exact Hp.
Qed.

Lemma no_nul_window_byte (w : list Z) (i : Z) :
  no_nul w -> 0 <= i < Z.of_nat (length w) -> window_byte w i <> 0.
Proof.
  intros Hnul Hi. unfold window_byte.
  destruct (lookup_lt_is_Some_2 w (Z.to_nat i)) as [b Hb]; [lia|].
  erewrite nth_lookup_Some by exact Hb.
  unfold no_nul in Hnul. rewrite Forall_lookup in Hnul. exact (Hnul _ _ Hb).
Qed.

(** What the masks of a window say whatever the window holds: the two masks
    are 16-bit masks, a bit of the escape mask stands for a character of the
    escape register and a bit of the corrected delimiter mask for a
    character of the delimiter register. *)
Lemma window_masks_sound (process_escapes : bool) (cfg : Config) (w : list Z)
    (c : bool) em dm c' :
  window_masks process_escapes cfg w c = (em, dm, c') ->
  0 <= em < 65536 /\ 0 <= dm < 65536
  /\ (forall i, 0 <= i -> Z.testbit dm i = true ->
        i < 16 /\ in_needle (xmm_delim_search_ cfg) (window_byte w i) = true)
  /\ (forall i, 0 <= i -> Z.testbit em i = true ->
        process_escapes = true
        /\ in_needle (xmm_escape_search_ cfg) (window_byte w i) = true).
Proof.
  unfold window_masks, ProcessEscapeMask. intros H.
  assert (Hhigh : forall x i, 0 <= i -> Z.testbit (uint16 x) i = true -> i < 16).
  { intros x i Hi Hb. rewrite uint16_testbit in Hb by exact Hi.
    apply andb_true_iff in Hb as [_ Hb]. apply Z.ltb_lt in Hb. exact Hb. }
  destruct process_escapes; injection H as <- <- _.
  - split; [apply uint16_range|]. split; [apply uint16_range|]. split.
    + intros i Hi Hb. split; [exact (Hhigh _ i Hi Hb)|].
      rewrite uint16_testbit, Z.land_spec in Hb by exact Hi.
      apply andb_true_iff in Hb as [Hb _]. apply andb_true_iff in Hb as [Hb _].
      apply match_mask_window_byte_set; assumption.
    + intros i Hi Hb. split; [reflexivity|].
      apply match_mask_window_byte_set; assumption.
  - split; [lia|]. split; [apply uint16_range|]. split.
    + intros i Hi Hb. split; [exact (Hhigh _ i Hi Hb)|].
      apply match_mask_window_byte_set; assumption.
    + intros i Hi Hb. rewrite Z.bits_0 in Hb. discriminate.
Qed.

Section WindowMasks.

Variable cfg : Config.
Variable w : list Z.
Hypothesis Hw : length w = 16%nat.
Hypothesis Hnul : no_nul w.

Lemma escape_mask_of_window (c : bool) em dm c' :
  registers_ok true cfg ->
  window_masks true cfg w c = (em, dm, c') ->
  0 <= em < 65536
  /\ (forall i, 0 <= i < 16 -> Z.testbit em i = is_escape cfg (window_byte w i)).
Proof.
  unfold window_masks. intros [_ Hreg] H.
  destruct (ProcessEscapeMask _ c _) as [l d]. injection H as <- _ _.
  split; [apply uint16_range|].
  intros i Hi. rewrite match_mask_uint16 by exact Hw.
  rewrite match_mask_window_byte by (exact Hnul || lia).
  apply (Hreg eq_refl). apply no_nul_window_byte; [exact Hnul | lia].
Qed.

Lemma delim_mask_of_window (c : bool) em dm c' :
  registers_ok true cfg ->
  window_masks true cfg w c = (em, dm, c') ->
  0 <= dm < 65536
  /\ (forall i : nat, (i < 16)%nat ->
        Z.testbit dm (Z.of_nat i)
        = is_delim cfg (window_byte w (Z.of_nat i)) && negb (escaped_at em c i))
  /\ c' = active_escape em c 15.
Proof.
  intros Hreg H. pose proof (escape_mask_of_window c em dm c' Hreg H) as [Hem _].
  destruct Hreg as [Hreg _].
  unfold window_masks in H.
  set (e := uint16 (match_mask (in_needle (xmm_escape_search_ cfg)) w)) in *.
  set (d := uint16 (match_mask (in_needle (xmm_delim_search_ cfg)) w)) in *.
  pose proof (ProcessEscapeMask_carry e c d) as Hc.
  pose proof (fun i Hi => ProcessEscapeMask_delim_testbit e c d i (uint16_range _) Hi) as Hd.
  assert (Hr : 0 <= snd (ProcessEscapeMask e c d) < 65536).
  { unfold ProcessEscapeMask. cbn [snd]. apply uint16_range. }
  destruct (ProcessEscapeMask e c d) as [l d']. cbn [fst snd] in *.
  injection H as <- <- <-.
  split; [exact Hr|]. split.
  - intros i Hi. rewrite Hd by exact Hi. f_equal.
    unfold d. rewrite match_mask_uint16 by exact Hw.
    rewrite match_mask_window_byte by (exact Hnul || lia).
    apply Hreg. apply no_nul_window_byte; [exact Hnul | lia].
  - rewrite Hc. apply (correct_escape_mask_testbit e c 15 (uint16_range _)). lia.
Qed.

Lemma plain_masks_of_window (c : bool) em dm c' :
  registers_ok false cfg ->
  window_masks false cfg w c = (em, dm, c') ->
  em = 0 /\ c' = c /\ 0 <= dm < 65536
  /\ (forall i, 0 <= i < 16 -> Z.testbit dm i = is_delim cfg (window_byte w i)).
Proof.
  unfold window_masks. intros [Hreg _] H. injection H as <- <- <-.
  repeat split; try apply uint16_range.
  intros i Hi. rewrite match_mask_uint16 by exact Hw.
  rewrite match_mask_window_byte by (exact Hnul || lia).
  apply Hreg. apply no_nul_window_byte; [exact Hnul | lia].
Qed.

End WindowMasks.

Lemma delimiter_is_no_escape (cfg : Config) (b : Z) :
  escape_is_no_delim cfg -> is_delim cfg b = true -> is_escape cfg b = false.
Proof.
  unfold escape_is_no_delim, is_escape. intros He Hd.
  destruct (Z.eqb_spec b (escape_char_ cfg)) as [->|]; [|reflexivity].
  rewrite He in Hd. discriminate.
Qed.

(** ** Marking the column escaped *)

Lemma mark_escaped_flag (cfg : Config) (em last n : Z) (st : State) :
  tables_ok cfg -> 0 <= em < 65536 -> 0 <= last < 16 -> 0 <= n < 16 ->
  mark_escaped cfg em last n st
  = set_current_column_has_escape_
      (current_column_has_escape_ st || has_escape_in em last (n + 1)) st.
Proof.
  intros Ht Hem Hl Hn. unfold mark_escaped.
  rewrite <- (range_test cfg em last n) by assumption. reflexivity.
Qed.

Lemma fold_tail_flag (cfg : Config) (em last : Z) (st : State) :
  tables_ok cfg -> 0 <= em < 65536 -> 0 <= last < 16 ->
  fold_tail cfg em last st
  = set_current_column_has_escape_
      (current_column_has_escape_ st || has_escape_in em last 16) st.
Proof.
  intros Ht Hem Hl. unfold fold_tail.
  rewrite (range_test cfg em last 15) by (assumption || lia). reflexivity.
Qed.


(** ** Invariants of the scan loop *)

Section Invariant.

Variable process_escapes : bool.
Variable cfg : Config.
Variable buf : list Z.
Variable Inv : State -> Prop.

Hypothesis Inv_flag :
  forall v st, Inv st -> Inv (set_current_column_has_escape_ v st).
Hypothesis Inv_carry :
  forall v st, Inv st -> Inv (set_last_char_is_escape_ v st).
Hypothesis Inv_ptr :
  forall v st, Inv st -> Inv (set_byte_buffer_ptr v st).
Hypothesis Inv_remaining :
  forall v st, Inv st -> Inv (set_remaining_len v st).
Hypothesis Inv_AddColumn :
  forall len st st', Inv st -> AddColumn process_escapes cfg len st = Ok st' -> Inv st'.
Hypothesis Inv_tuple :
  forall p st st', Inv st -> record_tuple_end cfg p st = Ok st' -> Inv st'.

Lemma delim_step_inv max_tuples em n last st r :
  Inv st ->
  delim_step process_escapes cfg buf max_tuples em n last st = Ok r ->
  Inv (flow_state r).
Proof.
  unfold delim_step. intros HI H.
  set (p := if process_escapes then (mark_escaped cfg em last n st, n) else (st, last)) in H.
  assert (Hp : Inv (fst p)).
  { unfold p. destruct process_escapes; cbn [fst]; [apply Inv_flag|]; exact HI. }
  destruct p as [s0 l0]. cbn [fst] in Hp.
  inv_bind H. inv_bind H.
  apply Inv_AddColumn in E; [|exact Hp].
  destruct (a0 =? tuple_delim_ cfg).
  - inv_bind H. apply Inv_tuple in E1; [|exact E].
    destruct (num_tuples a1 =? max_tuples); injection H as <-; cbn [flow_state].
    + unfold early_exit. apply Inv_remaining.
      destruct process_escapes; [apply Inv_carry|]; apply Inv_ptr; exact E1.
    + exact E1.
  - injection H as <-. exact E.
Qed.

Lemma walk_inv fuel max_tuples em dm last st r :
  Inv st ->
  walk process_escapes cfg buf fuel max_tuples em dm last st = Ok r ->
  Inv (flow_state r).
Proof.
  revert dm last st. induction fuel as [|fuel IH]; intros dm last st HI H.
  - cbn in H. destruct (dm =? 0); [|discriminate H]. injection H as <-. exact HI.
  - cbn [walk] in H. destruct (dm =? 0); [injection H as <-; exact HI|].
    inv_bind H. apply delim_step_inv in E; [|exact HI].
    destruct a as [s l|s]; cbn [flow_state] in E.
    + eapply IH; eassumption.
    + injection H as <-. exact E.
Qed.

Lemma scan_window_inv max_tuples st r :
  Inv st ->
  scan_window process_escapes cfg buf max_tuples st = Ok r ->
  Inv (flow_state r).
Proof.
  unfold scan_window. intros HI H. inv_bind H. inv_bind H. clear E0. destruct a0.
  destruct (window_masks process_escapes cfg a (last_char_is_escape_ st)) as [[em dm] c'].
  inv_bind H. apply walk_inv in E0.
  2:{ destruct process_escapes; [apply Inv_carry|]; exact HI. }
  destruct a0 as [s l|s]; injection H as <-; cbn [flow_state] in *; [|exact E0].
  unfold advance_window. apply Inv_ptr, Inv_remaining.
  destruct process_escapes; [apply Inv_flag|]; exact E0.
Qed.

Lemma ParseSse_loop_inv fuel max_tuples st st' :
  Inv st ->
  ParseSse_loop process_escapes cfg buf fuel max_tuples st = Ok st' ->
  Inv st'.
Proof.
  revert st. induction fuel as [|fuel IH]; intros st HI H.
  - cbn in H. destruct (remaining_len st >=? _); [discriminate H|].
    injection H as <-. exact HI.
  - cbn [ParseSse_loop] in H.
    destruct (remaining_len st >=? _); [|injection H as <-; exact HI].
    inv_bind H. apply scan_window_inv in E; [|exact HI].
    destruct a as [s l|s]; cbn [flow_state] in E.
    + eapply IH; eassumption.
    + injection H as <-. exact E.
Qed.

Lemma ParseSse_inv max_tuples st st' :
  Inv st -> ParseSse process_escapes cfg buf max_tuples st = Ok st' -> Inv st'.
Proof. unfold ParseSse. apply ParseSse_loop_inv. Qed.

End Invariant.

Lemma AddColumn_history (process_escapes : bool) (cfg : Config) (len : Z) (st st' : State) :
  AddColumn process_escapes cfg len st = Ok st' ->
  column_idx_ st' = column_idx_ st + 1
  /\ (history st' = history st
      \/ exists loc, history st' = history st ++ [FieldWritten (column_idx_ st) loc]).
Proof.
  unfold AddColumn. intros H.
  destruct (ReturnCurrentColumn cfg st);
    [destruct ((0 <=? num_fields st)
               && (num_fields st <? Z.of_nat (length (field_locations st))));
     [|discriminate H]|];
    cbn [bind] in H; injection H as <-; destruct process_escapes; cbn; eauto.
Qed.

(** ** Partition keys *)

(** What the specification leaves out: nothing in the scan loop sets [column_idx_]
    before the first tuple delimiter.  A call that is entered with
    [column_idx_] 0 in a table with one partition key records column 0. *)
Lemma partition_key_recorded_before_first_tuple :
  exists st',
    ParseSse false keyed_all_config scenario_A 2 (initial_state 0 16) = Ok st'
    /\ 0 < num_partition_keys keyed_all_config
    /\ In (FieldWritten 0 {| start := 0; len := 1 |}) (history st')
    /\ field_locations st' !! 0%nat = Some {| start := 0; len := 1 |}.
Proof.
  eexists. split; [vm_compute; reflexivity|].
  split; [reflexivity|]. split; [left; reflexivity | reflexivity].
Qed.

(** C6, as the code has it.  An iteration of the inner loop on a byte that
    is the tuple delimiter leaves [column_idx_] at the partition-key count;
    and a call that starts with [column_idx_] at or above the partition-key
    count, as every tuple boundary leaves it, writes no field location for
    a column below that count. *)
Theorem partition_key_skip (process_escapes : bool) (cfg : Config) (buf : list Z) :
  (forall max_tuples em n last st r,
     delim_step process_escapes cfg buf max_tuples em n last st = Ok r ->
     read_byte buf (byte_buffer_ptr st + n) = Ok (tuple_delim_ cfg) ->
     column_idx_ (flow_state r) = num_partition_keys cfg)
  /\ (forall max_tuples st st',
        num_partition_keys cfg <= column_idx_ st ->
        ParseSse process_escapes cfg buf max_tuples st = Ok st' ->
        num_partition_keys cfg <= column_idx_ st'
        /\ forall column loc,
             In (FieldWritten column loc) (history st') ->
             In (FieldWritten column loc) (history st)
             \/ num_partition_keys cfg <= column).
Proof.
  split.
  - intros max_tuples em n last st r H Hb. unfold delim_step in H.
    set (p := if process_escapes then (mark_escaped cfg em last n st, n) else (st, last)) in H.
    assert (Hp : byte_buffer_ptr (fst p) = byte_buffer_ptr st).
    { unfold p. destruct process_escapes; reflexivity. }
    destruct p as [s0 l0]. cbn [fst] in Hp.
    inv_bind H. rewrite Hp in H.
    apply AddColumn_frame in E as (Hptr & _). rewrite Hptr, Hp, Hb in H.
    cbn [bind] in H. rewrite Z.eqb_refl in H.
    inv_bind H. apply record_tuple_end_frame in E as (_ & _ & _ & _ & Hcol & _).
    destruct (num_tuples a0 =? max_tuples); injection H as <-; cbn [flow_state];
      [|exact Hcol].
    unfold early_exit. destruct process_escapes; exact Hcol.
  - intros max_tuples st st' Hcol H.
    revert H. apply ParseSse_inv with
      (Inv := fun s => num_partition_keys cfg <= column_idx_ s
                       /\ forall column loc,
                            In (FieldWritten column loc) (history s) ->
                            In (FieldWritten column loc) (history st)
                            \/ num_partition_keys cfg <= column);
      try (intros v s Hs; exact Hs).
    + intros len s s' [Hc Hh] Ha. apply AddColumn_history in Ha as [Hc' Hh'].
      split; [lia|]. intros column loc Hin.
      destruct Hh' as [Heq | [loc' Heq]]; rewrite Heq in Hin; [auto|].
      apply in_app_or in Hin as [Hin | [Hin | []]]; [auto|].
      injection Hin as <- <-. right. exact Hc.
    + intros p s s' [Hc Hh] Ht.
      apply record_tuple_end_frame in Ht as (_ & _ & _ & _ & Hc' & Heq).
      split; [lia|]. intros column loc Hin. rewrite Heq in Hin.
      apply in_app_or in Hin as [Hin | [Hin | []]]; [auto | discriminate Hin].
    + split; [exact Hcol | auto].
Qed.

Lemma partition_key_skip_witness :
  (exists r,
     delim_step false keyed_config scenario_A 2 0 5 0
       (set_next_column_start 4 (set_column_idx_ 3 (initial_state 1 16))) = Ok r
     /\ column_idx_ (flow_state r) = 1)
  /\ (exists st',
        ParseSse false keyed_config scenario_A 2 (initial_state 1 16) = Ok st'
        /\ 1 <= column_idx_ st'
        /\ forall column loc,
             In (FieldWritten column loc) (history st') ->
             In (FieldWritten column loc) (history (initial_state 1 16)) \/ 1 <= column).
Proof.
  pose proof (partition_key_skip false keyed_config scenario_A) as [Hstep Hrun].
  split.
  - eexists. split; [vm_compute; reflexivity|].
    apply (Hstep 2 0 5 0
             (set_next_column_start 4 (set_column_idx_ 3 (initial_state 1 16))));
      vm_compute; reflexivity.
  - eexists. split; [vm_compute; reflexivity|].
    apply (Hrun 2 (initial_state 1 16)); [vm_compute; discriminate | vm_compute; reflexivity].
Defined.

(** ** The bound on the tuples of a call *)

Lemma tuple_ends_app (h1 h2 : list Event) :
  tuple_ends (h1 ++ h2) = tuple_ends h1 + tuple_ends h2.
Proof.
  induction h1 as [|[column loc|p] h1 IH]; cbn [app tuple_ends]; lia.
Qed.

Section Bound.

Variable process_escapes : bool.
Variable cfg : Config.
Variable buf : list Z.
Variable max_tuples : Z.

Lemma delim_step_bound (em n last : Z) (st : State) (r : flow) :
  num_tuples st < max_tuples ->
  delim_step process_escapes cfg buf max_tuples em n last st = Ok r ->
  match r with
  | Next s' _ => num_tuples s' < max_tuples
  | Return s' => num_tuples s' = max_tuples
  end.
Proof.
  unfold delim_step. intros Hlt H.
  set (p := if process_escapes then (mark_escaped cfg em last n st, n) else (st, last)) in H.
  assert (Hp : num_tuples (fst p) = num_tuples st).
  { unfold p. destruct process_escapes; reflexivity. }
  destruct p as [s0 l0]. cbn [fst] in Hp.
  inv_bind H. inv_bind H.
  apply AddColumn_frame in E as (_ & _ & _ & Hn1 & _).
  destruct (a0 =? tuple_delim_ cfg).
  - inv_bind H. apply record_tuple_end_frame in E as (_ & _ & _ & Hn2 & _).
    destruct (Z.eqb_spec (num_tuples a1) max_tuples); injection H as <-.
    + unfold early_exit. destruct process_escapes; exact e.
    + lia.
  - injection H as <-. lia.
Qed.

Lemma walk_bound (fuel : nat) (em dm last : Z) (st : State) (r : flow) :
  num_tuples st < max_tuples ->
  walk process_escapes cfg buf fuel max_tuples em dm last st = Ok r ->
  match r with
  | Next s' _ => num_tuples s' < max_tuples
  | Return s' => num_tuples s' = max_tuples
  end.
Proof.
  revert dm last st. induction fuel as [|fuel IH]; intros dm last st Hlt H.
  - cbn in H. destruct (dm =? 0); [|discriminate H]. injection H as <-. exact Hlt.
  - cbn [walk] in H. destruct (dm =? 0); [injection H as <-; exact Hlt|].
    inv_bind H. apply delim_step_bound in E; [|exact Hlt].
    destruct a as [s l|s].
    + eapply IH; eassumption.
    + injection H as <-. exact E.
Qed.

Lemma scan_window_bound (st : State) (r : flow) :
  num_tuples st < max_tuples ->
  scan_window process_escapes cfg buf max_tuples st = Ok r ->
  match r with
  | Next s' _ => num_tuples s' < max_tuples
  | Return s' => num_tuples s' = max_tuples
  end.
Proof.
  unfold scan_window. intros Hlt H. inv_bind H. inv_bind H. clear E0. destruct a0.
  destruct (window_masks process_escapes cfg a (last_char_is_escape_ st)) as [[em dm] c'].
  inv_bind H. apply walk_bound in E0.
  2:{ destruct process_escapes; exact Hlt. }
  destruct a0 as [s l|s]; injection H as <-; [|exact E0].
  unfold advance_window, fold_tail. destruct process_escapes; exact E0.
Qed.

Lemma ParseSse_loop_bound (fuel : nat) (st st' : State) :
  num_tuples st < max_tuples ->
  ParseSse_loop process_escapes cfg buf fuel max_tuples st = Ok st' ->
  num_tuples st' <= max_tuples.
Proof.
  revert st. induction fuel as [|fuel IH]; intros st Hlt H.
  - cbn in H. destruct (remaining_len st >=? _); [discriminate H|].
    injection H as <-. lia.
  - cbn [ParseSse_loop] in H.
    destruct (remaining_len st >=? _); [|injection H as <-; lia].
    inv_bind H. apply scan_window_bound in E; [|exact Hlt].
    destruct a as [s l|s].
    + eapply IH; eassumption.
    + injection H as <-. lia.
Qed.

(** A call that starts with its tuple counter below the bound records at
    most as many tuple ends as are left to the bound: the counter does not
    pass the bound, and it counts the tuple ends written. *)
Lemma ParseSse_at_most_max_tuples (st st' : State) :
  num_tuples st < max_tuples ->
  ParseSse process_escapes cfg buf max_tuples st = Ok st' ->
  num_tuples st' <= max_tuples
  /\ tuple_ends (history st') - tuple_ends (history st)
     = num_tuples st' - num_tuples st.
Proof.
  intros Hlt H. split; [eapply ParseSse_loop_bound; eassumption|].
  enough (tuple_ends (history st') - num_tuples st'
          = tuple_ends (history st) - num_tuples st) by lia.
  revert H. apply ParseSse_inv with
    (Inv := fun s => tuple_ends (history s) - num_tuples s
                     = tuple_ends (history st) - num_tuples st);
    try (intros v s Hs; exact Hs); [| |reflexivity].
  - intros column_len s s' Hs Ha.
    pose proof (AddColumn_frame _ _ _ _ _ Ha) as (_ & _ & _ & Hn & _).
    apply AddColumn_history in Ha as [_ [Hh | [loc Hh]]]; rewrite Hh, Hn;
      [exact Hs|].
    rewrite tuple_ends_app. cbn [tuple_ends]. lia.
  - intros p s s' Hs Ht.
    apply record_tuple_end_frame in Ht as (_ & _ & _ & Hn & _ & Hh).
    rewrite Hh, Hn, tuple_ends_app. cbn [tuple_ends]. lia.
Qed.

End Bound.

(** ** Reading the buffer *)

Lemma load_window_ok (buf : list Z) (P : Z) (w : list Z) :
  load_window buf P = Ok w ->
  length w = 16%nat
  /\ forall i, 0 <= i < 16 -> read_byte buf (P + i) = Ok (window_byte w i).
Proof.
  unfold load_window, CHARS_PER_128_BIT_REGISTER. intros H.
  destruct ((0 <=? P) && (P + 16 <=? Z.of_nat (length buf))) eqn:Hc; [|discriminate H].
  injection H as <-. apply andb_true_iff in Hc as [H0 H16].
  apply Z.leb_le in H0, H16. split.
  - rewrite length_take, length_drop. lia.
  - intros i Hi. unfold read_byte, window_byte.
    replace (0 <=? P + i) with true by (symmetry; apply Z.leb_le; lia).
    replace (P + i <? Z.of_nat (length buf)) with true by (symmetry; apply Z.ltb_lt; lia).
    cbn [andb]. f_equal. rewrite !nth_lookup.
    rewrite lookup_take_lt by lia. rewrite lookup_drop.
    replace (Z.to_nat P + Z.to_nat i)%nat with (Z.to_nat (P + i)) by lia. reflexivity.
Qed.

Lemma read_byte_fault_free (buf : list Z) (p b : Z) :
  read_byte buf p = Ok b -> 0 <= p < Z.of_nat (length buf).
Proof.
  unfold read_byte. intros H.
  destruct ((0 <=? p) && (p <? Z.of_nat (length buf))) eqn:Hc; [|discriminate H].
  apply andb_true_iff in Hc as [H0 H1]. apply Z.leb_le in H0. apply Z.ltb_lt in H1.
  lia.
Qed.

Lemma load_window_no_nul (buf : list Z) (P : Z) (w : list Z) :
  no_nul buf -> load_window buf P = Ok w -> no_nul w.
Proof.
  unfold load_window, no_nul. intros Hnul H.
  destruct ((0 <=? P) && _); [|discriminate H].
  injection H as <-. apply Forall_take, Forall_drop, Hnul.
Qed.

(** ** ffs *)

Lemma ffs_from_lowest (count : nat) (i j x : Z) :
  i <= j < i + Z.of_nat count ->
  (forall t, i <= t < j -> Z.testbit x t = false) ->
  Z.testbit x j = true ->
  ffs_from count i x = j + 1.
Proof.
  revert i. induction count as [|count IH]; intros i Hj Hlow Hb.
  - lia.
  - cbn [ffs_from]. destruct (Z.eq_dec i j) as [->|Hne].
    + rewrite Hb. reflexivity.
    + rewrite Hlow by lia. apply IH; [lia | | exact Hb].
      intros t Ht. apply Hlow. lia.
Qed.

Lemma ffs_lowest (j x : Z) :
  0 <= j < 32 ->
  (forall t, 0 <= t < j -> Z.testbit x t = false) ->
  Z.testbit x j = true ->
  ffs x - 1 = j.
Proof.
  intros Hj Hlow Hb. unfold ffs.
  rewrite (ffs_from_lowest 32 0 j x) by (assumption || lia). lia.
Qed.

(** ** The scan one byte at a time *)

Lemma scan_bytes_app (process_escapes : bool) (cfg : Config) (buf : list Z)
    (a b : nat) (st : State) :
  scan_bytes process_escapes cfg buf (a + b) st
  = (st' <- scan_bytes process_escapes cfg buf a st ;;
     scan_bytes process_escapes cfg buf b st').
Proof.
  revert st. induction a as [|a IH]; intros st.
  - reflexivity.
  - cbn [Nat.add scan_bytes].
    destruct (read_byte buf (byte_buffer_ptr st)) as [x|e]; [|reflexivity].
    cbn [bind]. destruct (scan_byte process_escapes cfg x st) as [s|e]; [|reflexivity].
    cbn [bind]. apply IH.
Qed.

Lemma has_escape_in_empty (m lo : Z) : has_escape_in m lo lo = false.
Proof. apply has_escape_in_false. intros i Hi. lia. Qed.

Lemma has_escape_in_snoc (m lo hi : Z) :
  lo <= hi ->
  has_escape_in m lo (hi + 1) = has_escape_in m lo hi || Z.testbit m hi.
Proof.
  intros Hle. destruct (has_escape_in m lo hi || Z.testbit m hi) eqn:E.
  - apply has_escape_in_true. apply orb_true_iff in E as [E|E].
    + apply has_escape_in_true in E as (i & Hi & Hb). exists i. split; [lia | exact Hb].
    + exists hi. split; [lia | exact E].
  - apply orb_false_iff in E as [E1 E2]. apply has_escape_in_false. intros i Hi.
    destruct (Z.eq_dec i hi) as [->|]; [exact E2|].
    rewrite has_escape_in_false in E1. apply E1. lia.
Qed.

Lemma escaped_at_succ (em : Z) (c : bool) (j : nat) :
  escaped_at em c (S j)
  = Z.testbit em (Z.of_nat j) && negb (escaped_at em c j).
Proof. destruct j; reflexivity. Qed.

(** [AddColumn] and the end of a tuple neither read nor write the cursor,
    the carry and the tuple array. *)
Lemma AddColumn_view (process_escapes : bool) (cfg : Config) (len : Z)
    (s s' : State) (p : Z) (x : bool) :
  AddColumn process_escapes cfg len s = Ok s' ->
  AddColumn process_escapes cfg len
    (forget (set_byte_buffer_ptr p (set_last_char_is_escape_ x s)))
  = Ok (forget (set_byte_buffer_ptr p (set_last_char_is_escape_ x s'))).
Proof.
  unfold AddColumn, ReturnCurrentColumn. cbn. intros H.
  destruct (return_column cfg (column_idx_ s));
    [destruct ((0 <=? num_fields s)
               && (num_fields s <? Z.of_nat (length (field_locations s))));
     [|discriminate H]|];
    cbn [bind] in *; injection H as <-; destruct process_escapes; reflexivity.
Qed.

Lemma record_tuple_end_view (cfg : Config) (d : Z) (s s' : State) (p : Z) (x : bool) :
  record_tuple_end cfg d s = Ok s' ->
  forget (set_byte_buffer_ptr p (set_last_char_is_escape_ x s'))
  = set_byte_buffer_ptr p
      (end_tuple cfg d (forget (set_last_char_is_escape_ x s))).
Proof.
  unfold record_tuple_end. intros H.
  destruct ((0 <=? num_tuples (end_tuple cfg d s))
            && (num_tuples (end_tuple cfg d s)
                <? Z.of_nat (length (row_end_locations (end_tuple cfg d s)))));
    [|discriminate H].
  injection H as <-. reflexivity.
Qed.

(** ** The two cases of a byte of the scan one byte at a time *)

Lemma scan_byte_other (process_escapes : bool) (cfg : Config) (b : Z) (st : State) :
  is_delim cfg b && negb (process_escapes && last_char_is_escape_ st) = false ->
  scan_byte process_escapes cfg b st
  = Ok (set_byte_buffer_ptr (byte_buffer_ptr st + 1)
          (if process_escapes
           then set_last_char_is_escape_
                  (is_escape cfg b && negb (last_char_is_escape_ st))
                  (set_current_column_has_escape_
                     (current_column_has_escape_ st || is_escape cfg b) st)
           else st)).
Proof.
  intros H. unfold scan_byte. rewrite H. cbn [bind].
  destruct process_escapes; reflexivity.
Qed.

Lemma scan_byte_at_delim (process_escapes : bool) (cfg : Config) (b : Z) (st : State) :
  is_delim cfg b && negb (process_escapes && last_char_is_escape_ st) = true ->
  (process_escapes = true -> is_escape cfg b = false) ->
  scan_byte process_escapes cfg b st
  = (st1 <- AddColumn process_escapes cfg
              (int32 (byte_buffer_ptr st - next_column_start st))
              (if process_escapes then set_last_char_is_escape_ false st else st) ;;
     Ok (set_byte_buffer_ptr (byte_buffer_ptr st + 1)
           (if b =? tuple_delim_ cfg then end_tuple cfg (byte_buffer_ptr st) st1 else st1))).
Proof.
  intros H He. unfold scan_byte. rewrite H.
  destruct process_escapes.
  - rewrite (He eq_refl). cbn [andb]. rewrite orb_false_r. st_norm.
    destruct (AddColumn true cfg _ _); reflexivity.
  - destruct (AddColumn false cfg _ _); reflexivity.
Qed.

Lemma AddColumn_resets_flag (cfg : Config) (len : Z) (s s' : State) :
  AddColumn true cfg len s = Ok s' -> current_column_has_escape_ s' = false.
Proof.
  unfold AddColumn. intros H.
  destruct (ReturnCurrentColumn cfg s);
    [destruct ((0 <=? num_fields s)
               && (num_fields s <? Z.of_nat (length (field_locations s))));
     [|discriminate H]|];
    cbn [bind] in H; injection H as <-; reflexivity.
Qed.

Lemma record_tuple_end_flag (cfg : Config) (d : Z) (s s' : State) :
  record_tuple_end cfg d s = Ok s' ->
  current_column_has_escape_ s' = current_column_has_escape_ s.
Proof.
  unfold record_tuple_end. intros H.
  destruct ((0 <=? num_tuples (end_tuple cfg d s))
            && (num_tuples (end_tuple cfg d s)
                <? Z.of_nat (length (row_end_locations (end_tuple cfg d s)))));
    [|discriminate H].
  injection H as <-. reflexivity.
Qed.

Lemma set_current_column_has_escape_same (v : bool) (s : State) :
  current_column_has_escape_ s = v -> set_current_column_has_escape_ v s = s.
Proof. intros <-. reflexivity. Qed.

Lemma set_last_char_is_escape_same (v : bool) (s : State) :
  last_char_is_escape_ s = v -> set_last_char_is_escape_ v s = s.
Proof. intros <-. reflexivity. Qed.

(** ** The walk over the delimiter mask and the specification's words *)

Lemma delim_step_emit (cfg : Config) (buf : list Z) (max_tuples em n last : Z)
    (st : State) :
  delim_step true cfg buf max_tuples em n last st
  = emit_delim true cfg buf max_tuples n n (mark_escaped cfg em last n st).
Proof. reflexivity. Qed.

Lemma emit_delim_last (process_escapes : bool) (cfg : Config) (buf : list Z)
    (max_tuples n last : Z) (st s : State) (l : Z) :
  emit_delim process_escapes cfg buf max_tuples n last st = Ok (Next s l) -> l = last.
Proof.
  unfold emit_delim. intros H. inv_bind H. inv_bind H.
  destruct (a0 =? tuple_delim_ cfg).
  - inv_bind H. destruct (num_tuples a1 =? max_tuples); [discriminate H|].
    injection H as _ <-. reflexivity.
  - injection H as _ <-. reflexivity.
Qed.

(** The range [[last_col_idx, n]] of the code against "strictly between":
    the two ends hold no escape match. *)
Lemma has_escape_in_trim (em prev hi hi' : Z) :
  -1 <= prev -> (0 <= prev -> Z.testbit em prev = false) ->
  (hi' = hi \/ (hi' = hi + 1 /\ Z.testbit em hi = false)) ->
  has_escape_in em (Z.max prev 0) hi' = has_escape_in em (prev + 1) hi.
Proof.
  intros Hprev Hclear Hhi.
  destruct (has_escape_in em (prev + 1) hi) eqn:E.
  - apply has_escape_in_true in E as (i & Hi & Hb).
    apply has_escape_in_true. exists i. split; [lia | exact Hb].
  - apply has_escape_in_false. intros i Hi.
    rewrite has_escape_in_false in E.
    destruct (Z.eq_dec i prev) as [->|Hne]; [apply Hclear; lia|].
    destruct Hhi as [-> | [-> Hb]]; [apply E; lia|].
    destruct (Z.eq_dec i hi) as [->|]; [exact Hb | apply E; lia].
Qed.

Section Marking.

Variable cfg : Config.
Variable buf : list Z.
Variable max_tuples : Z.
Variables em dm0 : Z.
Hypothesis Ht : tables_ok cfg.
Hypothesis Hem : 0 <= em < 65536.
Hypothesis Hdm0 : 0 <= dm0 < 65536.
Hypothesis Hclear :
  forall i, 0 <= i < 16 -> Z.testbit dm0 i = true -> Z.testbit em i = false.

Lemma walk_marking_ref (k : nat) :
  forall (fuel : nat) (j dm prev : Z) (st : State),
    j = 16 - Z.of_nat k -> (k <= 16)%nat -> (k <= fuel)%nat ->
    -1 <= prev < j -> (0 <= prev -> Z.testbit em prev = false) ->
    (forall i, 0 <= i -> Z.testbit dm i = (j <=? i) && Z.testbit dm0 i) ->
    (r <- walk true cfg buf fuel max_tuples em dm (Z.max prev 0) st ;;
     match r with
     | Return s => Ok (Return s)
     | Next s l => Ok (Next (fold_tail cfg em l s) l)
     end)
    = walk_marking cfg buf max_tuples em (set_positions_from k j dm0) prev st.
Proof.
  induction k as [|k IH]; intros fuel j dm prev st Hjk Hk Hfuel Hprev Hp Hbits.
  - assert (Hz : dm = 0).
    { apply Z.bits_inj'. intros i Hi. rewrite Hbits, Z.bits_0 by exact Hi.
      destruct (Z.leb_spec j i); [|reflexivity].
      rewrite (testbit_high_small dm0) by lia. reflexivity. }
    subst dm. cbn [set_positions_from walk_marking].
    assert (Hw : walk true cfg buf fuel max_tuples em 0 (Z.max prev 0) st
                 = Ok (Next st (Z.max prev 0))) by (destruct fuel; reflexivity).
    rewrite Hw. cbn [bind].
    rewrite fold_tail_flag by (assumption || lia).
    unfold escape_strictly_between.
    rewrite (has_escape_in_trim em prev 16 16) by (assumption || lia || auto).
    reflexivity.
  - assert (Hj : 0 <= j < 16) by lia.
    cbn [set_positions_from]. destruct (Z.testbit dm0 j) eqn:Hb.
    + assert (Hbj : Z.testbit dm j = true).
      { rewrite Hbits, Hb by lia. rewrite Z.leb_refl. reflexivity. }
      assert (Hnz : (dm =? 0) = false).
      { apply Z.eqb_neq. intros ->. rewrite Z.bits_0 in Hbj. discriminate. }
      destruct fuel as [|fuel]; [lia|].
      cbn [walk app walk_marking]. rewrite Hnz.
      rewrite (ffs_lowest j dm); [|lia| |exact Hbj].
      2:{ intros t Ht'. rewrite Hbits by lia.
          replace (j <=? t) with false by (symmetry; apply Z.leb_gt; lia). reflexivity. }
      rewrite delim_step_emit, mark_escaped_flag by (assumption || lia).
      unfold escape_strictly_between.
      rewrite (has_escape_in_trim em prev j (j + 1))
        by (assumption || lia || (right; split; [reflexivity | apply Hclear; assumption])).
      destruct (emit_delim true cfg buf max_tuples j j _) as [[s1 l1|s1]|e] eqn:E;
        cbn [bind]; [|reflexivity|reflexivity].
      apply emit_delim_last in E. subst l1.
      pose proof (IH fuel (j + 1)
                    (uint16 (Z.land dm (Z.lnot (SSE_BITMASK j)))) j s1) as HIH.
      rewrite Z.max_l in HIH by lia.
      apply HIH; [lia|lia|lia|lia|intros _; apply Hclear; assumption|].
      intros i Hi. rewrite clear_bit_testbit, Hbits by lia.
      destruct (Z.testbit dm0 i) eqn:Hbi; [|rewrite !andb_false_r; reflexivity].
      assert (i < 16).
      { destruct (Z.lt_ge_cases i 16); [assumption|].
        rewrite (testbit_high_small dm0) in Hbi by lia. discriminate. }
      replace (i <? 16) with true by (symmetry; apply Z.ltb_lt; lia).
      rewrite !andb_true_r.
      destruct (Z.leb_spec j i), (Z.leb_spec (j + 1) i), (Z.eqb_spec j i);
        try reflexivity; lia.
    + cbn [app]. apply (IH fuel (j + 1)); [lia|lia|lia|lia|exact Hp|].
      intros i Hi. rewrite Hbits by exact Hi.
      destruct (Z.eq_dec i j) as [->|];
        [rewrite Hb, !andb_false_r; reflexivity|].
      destruct (Z.leb_spec j i), (Z.leb_spec (j + 1) i); try reflexivity; lia.
Qed.

End Marking.

(** The range of lines 131 and 156 includes its two ends.  When the escape
    character is the field delimiter, the first delimiter of scenario A, at
    position 1, is an escape match itself: the code marks the column that
    ends there and writes the length -1, with no escape match strictly
    between the start of the window and position 1, where the marking in
    the words of the specification writes the length 1. *)
Lemma escape_marked_at_delimiter_that_is_escape :
  exists em dm c' r r',
    window_masks true clashing_config scenario_A false = (em, dm, c')
    /\ Z.testbit dm 1 = true
    /\ escape_strictly_between em (-1) 1 = false
    /\ scan_window true clashing_config scenario_A 4 (initial_state 0 16) = Ok r
    /\ field_locations (flow_state r) !! 0%nat = Some {| start := 0; len := -1 |}
    /\ scan_window_marking clashing_config scenario_A 4 (initial_state 0 16) = Ok r'
    /\ field_locations (flow_state r') !! 0%nat = Some {| start := 0; len := 1 |}.
Proof.
  do 5 eexists.
  split; [vm_compute; reflexivity|].
  split; [reflexivity|]. split; [reflexivity|].
  split; [vm_compute; reflexivity|]. split; [reflexivity|].
  split; [vm_compute; reflexivity | reflexivity].
Qed.

(** C8, as the code has it.  With escape processing, when no character of
    the delimiter register is a character of the escape register and the
    tables are the ones the comments of the code describe, one iteration of
    the outer loop is the iteration that the specification words: the set
    bits of the corrected delimiter mask are processed in increasing order;
    at the bit [n] the column is marked escaped exactly when an escape match
    lies strictly between the previously processed position (the start of
    the window when there is none) and [n], before the column is emitted;
    and when the bits are exhausted the escape matches behind the last
    processed position, up to the end of the window, are folded into the
    flag of the next column.  The code tests the range from [last_col_idx]
    to [n] with the two tables, hands [n] on as [last_col_idx] and tests the
    range from [last_col_idx] to 15 for the tail; the two ends of these
    ranges hold no escape match when no delimiter is an escape character. *)
Theorem escape_between_delimiters (cfg : Config) (buf : list Z) (max_tuples : Z)
    (st : State) :
  tables_ok cfg -> registers_disjoint cfg ->
  scan_window true cfg buf max_tuples st = scan_window_marking cfg buf max_tuples st.
Proof.
  intros Ht Hdis. unfold scan_window, scan_window_marking.
  destruct (load_window buf (byte_buffer_ptr st)) as [w|e]; [|reflexivity].
  cbn [bind]. destruct (check_escape_char true cfg) as [[]|e]; [|reflexivity].
  cbn [bind].
  destruct (window_masks true cfg w (last_char_is_escape_ st)) as [[em dm] c'] eqn:Hm.
  apply window_masks_sound in Hm as (Hem & Hdm & Hdel & Hesc).
  assert (Hclear : forall i, 0 <= i < 16 -> Z.testbit dm i = true ->
                     Z.testbit em i = false).
  { intros i Hi Hb. destruct (Z.testbit em i) eqn:He; [|reflexivity].
    apply Hdel in Hb as [_ Hb]; [|lia]. apply Hesc in He as [_ He]; [|lia].
    rewrite (Hdis _ Hb) in He. discriminate. }
  unfold set_positions.
  rewrite <- (walk_marking_ref cfg buf max_tuples em dm Ht Hem Hdm Hclear 16 16 0 dm (-1)
                (set_last_char_is_escape_ c' st));
    [|reflexivity|lia|lia|lia|lia|].
  - change (Z.max (-1) 0) with 0.
    destruct (walk true cfg buf 16 max_tuples em dm 0 (set_last_char_is_escape_ c' st))
      as [[s l|s]|e]; reflexivity.
  - intros i Hi. replace (0 <=? i) with true by (symmetry; apply Z.leb_le; lia).
    reflexivity.
Qed.

Lemma escape_between_delimiters_witness :
  scan_window true escape_config scenario_B 4 (initial_state 0 16)
  = scan_window_marking escape_config scenario_B 4 (initial_state 0 16)
  /\ exists st' last,
       scan_window_marking escape_config scenario_B 4 (initial_state 0 16)
       = Ok (Next st' last)
       /\ history st'
          = [FieldWritten 0 {| start := 0; len := -4 |};
             FieldWritten 1 {| start := 5; len := 1 |}; TupleEnd 6].
Proof.
  split.
  - apply (escape_between_delimiters escape_config scenario_B 4 (initial_state 0 16)).
    + exact (proj2 tables_ok_example).
    + exact registers_disjoint_example.
  - do 2 eexists. split; [vm_compute; reflexivity | reflexivity].
Defined.

(** ** A window of the scan loop against the scan one byte at a time *)

Section WindowRefinement.

Variable process_escapes : bool.
Variable cfg : Config.
Variable buf : list Z.
Hypothesis Hcfg : process_escapes = true -> tables_ok cfg /\ escape_is_no_delim cfg.
Hypothesis Hreg : registers_ok process_escapes cfg.
Hypothesis Hnul : no_nul buf.

Variable max_tuples : Z.
Variable P : Z.
Variable w : list Z.
Variable c : bool.
Variables em dm0 : Z.
Variable c' : bool.
Hypothesis Hload : load_window buf P = Ok w.
Hypothesis Hmasks : window_masks process_escapes cfg w c = (em, dm0, c').

Lemma window_facts :
  0 <= em < 65536 /\ 0 <= dm0 < 65536
  /\ (forall i, 0 <= i < 16 ->
        Z.testbit em i = process_escapes && is_escape cfg (window_byte w i))
  /\ (forall i, 0 <= i < 16 ->
        Z.testbit dm0 i
        = is_delim cfg (window_byte w i)
          && negb (process_escapes && escaped_at em c (Z.to_nat i)))
  /\ (forall i, 0 <= i < 16 -> read_byte buf (P + i) = Ok (window_byte w i))
  /\ c' = (if process_escapes then active_escape em c 15 else c).
Proof.
  destruct (load_window_ok buf P w Hload) as [Hw Hread].
  pose proof (load_window_no_nul buf P w Hnul Hload) as Hwn.
  destruct process_escapes.
  - destruct (escape_mask_of_window cfg w Hw Hwn c em dm0 c' Hreg Hmasks) as [Hem Hesc].
    destruct (delim_mask_of_window cfg w Hw Hwn c em dm0 c' Hreg Hmasks)
      as (Hdm & Hdel & Hc).
    repeat split; try lia; try assumption.
    intros i Hi. rewrite <- (Z2Nat.id i) at 1 2 by lia. apply Hdel. lia.
  - destruct (plain_masks_of_window cfg w Hw Hwn c em dm0 c' Hreg Hmasks)
      as (-> & -> & Hdm & Hdel).
    repeat split; try lia.
    + intros i Hi. apply Z.bits_0.
    + intros i Hi. rewrite Hdel by exact Hi. cbn. rewrite andb_true_r. reflexivity.
    + exact Hread.
Qed.

Lemma delimiter_bit_no_escape (j : Z) :
  0 <= j < 16 -> Z.testbit dm0 j = true ->
  is_delim cfg (window_byte w j) = true /\ Z.testbit em j = false.
Proof.
  intros Hj Hb. destruct window_facts as (_ & _ & Hesc & Hdel & _).
  rewrite Hdel in Hb by exact Hj. apply andb_true_iff in Hb as [Hd _].
  split; [exact Hd|]. rewrite Hesc by exact Hj.
  destruct process_escapes; [|reflexivity]. cbn.
  apply delimiter_is_no_escape; [apply Hcfg; reflexivity | exact Hd].
Qed.

Lemma scan_byte_skip (j last : Z) (s : State) :
  0 <= j < 16 -> last <= j -> Z.testbit dm0 j = false ->
  scan_byte process_escapes cfg (window_byte w j)
    (window_view process_escapes em c P j last s)
  = Ok (window_view process_escapes em c P (j + 1) last s).
Proof.
  intros Hj Hl Hb. destruct window_facts as (_ & _ & Hesc & Hdel & _).
  rewrite Hdel in Hb by exact Hj. specialize (Hesc j Hj).
  rewrite scan_byte_other.
  2:{ unfold window_view. destruct process_escapes; st_norm; exact Hb. }
  unfold window_view.
  replace (Z.to_nat (j + 1)) with (S (Z.to_nat j)) by lia.
  rewrite escaped_at_succ, Z2Nat.id, has_escape_in_snoc by lia.
  destruct process_escapes; st_norm.
  - cbn [andb] in Hesc. rewrite Hesc, orb_assoc, Z.add_assoc. reflexivity.
  - rewrite Z.add_assoc. reflexivity.
Qed.

Lemma scan_byte_delim (j last : Z) (s : State) (r : flow) :
  0 <= j < 16 -> 0 <= last < 16 -> last <= j -> Z.testbit dm0 j = true ->
  byte_buffer_ptr s = P ->
  delim_step process_escapes cfg buf max_tuples em j last s = Ok r ->
  match r with
  | Next s' last' =>
      scan_byte process_escapes cfg (window_byte w j)
        (window_view process_escapes em c P j last s)
      = Ok (window_view process_escapes em c P (j + 1) last' s')
      /\ byte_buffer_ptr s' = P
      /\ last_char_is_escape_ s' = last_char_is_escape_ s
      /\ 0 <= last' < 16 /\ last' <= j + 1
  | Return s' =>
      scan_byte process_escapes cfg (window_byte w j)
        (window_view process_escapes em c P j last s)
      = Ok (forget s')
      /\ byte_buffer_ptr s' = P + j + 1
  end.
Proof.
  intros Hj Hl Hlj Hb HP H.
  destruct (delimiter_bit_no_escape j Hj Hb) as [Hd He].
  destruct window_facts as (Hem & _ & Hesc & Hdel & Hread & _).
  rewrite Hdel in Hb by exact Hj. specialize (Hesc j Hj). rewrite He in Hesc.
  rewrite scan_byte_at_delim.
  2:{ unfold window_view. destruct process_escapes; st_norm; exact Hb. }
  2:{ intros Hpe. rewrite Hpe in Hesc. symmetry. exact Hesc. }
  unfold delim_step in H. unfold window_view.
  replace (Z.to_nat (j + 1)) with (S (Z.to_nat j)) by lia.
  rewrite escaped_at_succ, Z2Nat.id, He by lia. cbn [andb].
  destruct process_escapes.
  - destruct (Hcfg eq_refl) as [Ht _].
    rewrite mark_escaped_flag in H by (assumption || lia).
    rewrite has_escape_in_snoc, He, orb_false_r in H by lia.
    st_norm. st_norm_in H. rewrite HP in H.
    inv_bind H.
    pose proof (AddColumn_frame _ _ _ _ _ E) as (Hp1 & _ & Hc1 & _).
    pose proof (AddColumn_resets_flag _ _ _ _ E) as Hf1.
    st_norm_in Hp1. st_norm_in Hc1. rewrite Hp1, HP, Hread in H by exact Hj.
    cbn [bind] in H.
    pose proof (AddColumn_view true cfg _ _ _ (P + j) false E) as Hview.
    match goal with
    | |- context [AddColumn true cfg ?l ?x] =>
        change (AddColumn true cfg l x)
          with (AddColumn true cfg l
                  (forget (set_byte_buffer_ptr (P + j)
                     (set_last_char_is_escape_ false
                        (set_current_column_has_escape_
                           (current_column_has_escape_ s || has_escape_in em last j) s)))))
    end.
    rewrite Hview. cbn [bind]. clear Hview.
    destruct (window_byte w j =? tuple_delim_ cfg).
    + inv_bind H.
      pose proof (record_tuple_end_frame _ _ _ _ E0) as (Hp2 & _ & Hc2 & _).
      pose proof (record_tuple_end_flag _ _ _ _ E0) as Hf2.
      destruct (num_tuples a0 =? max_tuples); injection H as <-.
      * split; [|unfold early_exit; st_norm; lia].
        f_equal.
        change (forget (early_exit true j a0))
          with (forget (set_byte_buffer_ptr (byte_buffer_ptr a0 + (j + 1))
                  (set_last_char_is_escape_ false a0))).
        rewrite (record_tuple_end_view _ _ _ _ _ _ E0), Hp2, Hp1, HP, Z.add_assoc.
        reflexivity.
      * split; [|repeat split; try lia; congruence].
        f_equal.
        rewrite has_escape_in_snoc, has_escape_in_empty, He, Hf2, Hf1 by lia.
        cbn [orb]. rewrite (set_current_column_has_escape_same false a0) by congruence.
        rewrite (record_tuple_end_view _ _ _ _ _ _ E0), Z.add_assoc.
        reflexivity.
    + injection H as <-. split; [|repeat split; try lia; congruence].
      f_equal.
      rewrite has_escape_in_snoc, has_escape_in_empty, He, Hf1 by lia.
      cbn [orb]. rewrite (set_current_column_has_escape_same false a) by congruence.
      rewrite Z.add_assoc. reflexivity.
  - st_norm. rewrite HP in H. inv_bind H.
    pose proof (AddColumn_frame _ _ _ _ _ E) as (Hp1 & _ & Hc1 & _).
    rewrite Hp1, HP, Hread in H by exact Hj. cbn [bind] in H.
    pose proof (AddColumn_view false cfg _ _ _ (P + j) (last_char_is_escape_ s) E) as Hview.
    rewrite (set_last_char_is_escape_same _ a) in Hview by exact Hc1.
    change (forget (set_byte_buffer_ptr (P + j) (set_last_char_is_escape_
              (last_char_is_escape_ s) s)))
      with (forget (set_byte_buffer_ptr (P + j) s)) in Hview.
    rewrite Hview. cbn [bind]. clear Hview.
    destruct (window_byte w j =? tuple_delim_ cfg).
    + inv_bind H.
      pose proof (record_tuple_end_frame _ _ _ _ E0) as (Hp2 & _ & Hc2 & _).
      pose proof (record_tuple_end_view cfg (P + j) a a0 (P + j + 1)
                    (last_char_is_escape_ a0) E0) as Hview.
      rewrite (set_last_char_is_escape_same _ a0) in Hview by reflexivity.
      rewrite (set_last_char_is_escape_same _ a) in Hview by congruence.
      destruct (num_tuples a0 =? max_tuples); injection H as <-.
      * split; [|unfold early_exit; st_norm; lia].
        f_equal.
        change (forget (early_exit false j a0))
          with (forget (set_byte_buffer_ptr (byte_buffer_ptr a0 + (j + 1)) a0)).
        rewrite Hp2, Hp1, HP, Z.add_assoc, Hview. reflexivity.
      * split; [|repeat split; try lia; congruence].
        f_equal. rewrite Z.add_assoc, Hview. reflexivity.
    + injection H as <-. split; [|repeat split; try lia; congruence].
      f_equal. rewrite Z.add_assoc. reflexivity.
Qed.

Lemma walk_ref (k : nat) :
  forall (fuel : nat) (j dm last : Z) (s : State) (r : flow),
    j = 16 - Z.of_nat k -> (k <= 16)%nat -> (k <= fuel)%nat ->
    0 <= last < 16 -> last <= j ->
    byte_buffer_ptr s = P ->
    (forall i, 0 <= i -> Z.testbit dm i = (j <=? i) && Z.testbit dm0 i) ->
    walk process_escapes cfg buf fuel max_tuples em dm last s = Ok r ->
    match r with
    | Next s' last' =>
        scan_bytes process_escapes cfg buf k
          (window_view process_escapes em c P j last s)
        = Ok (window_view process_escapes em c P 16 last' s')
        /\ byte_buffer_ptr s' = P
        /\ last_char_is_escape_ s' = last_char_is_escape_ s
        /\ 0 <= last' < 16
    | Return s' =>
        exists m : nat,
          scan_bytes process_escapes cfg buf m
            (window_view process_escapes em c P j last s)
          = Ok (forget s')
          /\ byte_buffer_ptr s' = P + j + Z.of_nat m
    end.
Proof.
  destruct window_facts as (_ & Hdm0 & _ & _ & Hread & _).
  induction k as [|k IH]; intros fuel j dm last s r Hjk Hk Hfuel Hl Hlj HP Hbits H.
  - assert (Hz : dm = 0).
    { apply Z.bits_inj'. intros i Hi. rewrite Hbits, Z.bits_0 by exact Hi.
      destruct (Z.leb_spec j i); [|reflexivity].
      rewrite (testbit_high_small dm0) by lia. reflexivity. }
    subst dm. destruct fuel; cbn in H; injection H as <-;
      (split; [replace j with 16 by lia; reflexivity | auto]).
  - assert (Hj : 0 <= j < 16) by lia.
    assert (Hview : byte_buffer_ptr (window_view process_escapes em c P j last s) = P + j).
    { unfold window_view. reflexivity. }
    destruct (Z.testbit dm0 j) eqn:Hb.
    + assert (Hbj : Z.testbit dm j = true).
      { rewrite Hbits, Hb by lia. rewrite Z.leb_refl. reflexivity. }
      assert (Hnz : (dm =? 0) = false).
      { apply Z.eqb_neq. intros ->. rewrite Z.bits_0 in Hbj. discriminate. }
      destruct fuel as [|fuel]; [lia|].
      cbn [walk] in H. rewrite Hnz in H.
      rewrite (ffs_lowest j dm) in H; [|lia| |exact Hbj].
      2:{ intros t Ht. rewrite Hbits by lia.
          replace (j <=? t) with false by (symmetry; apply Z.leb_gt; lia). reflexivity. }
      inv_bind H.
      pose proof (scan_byte_delim j last s a Hj Hl Hlj Hb HP E) as Hstep.
      destruct a as [s1 last1|s1].
      * destruct Hstep as (Hs & Hp1 & Hc1 & Hl1 & Hlj1).
        apply (IH fuel (j + 1)) in H; [|lia|lia|lia|exact Hl1|exact Hlj1|exact Hp1|].
        2:{ intros i Hi. rewrite clear_bit_testbit, Hbits by lia.
            destruct (Z.testbit dm0 i) eqn:Hbi;
              [|rewrite !andb_false_r; reflexivity].
            assert (i < 16).
            { destruct (Z.lt_ge_cases i 16); [assumption|].
              rewrite (testbit_high_small dm0) in Hbi by lia. discriminate. }
            replace (i <? 16) with true by (symmetry; apply Z.ltb_lt; lia).
            rewrite !andb_true_r.
            destruct (Z.leb_spec j i), (Z.leb_spec (j + 1) i), (Z.eqb_spec j i);
              try reflexivity; lia. }
        destruct r as [s' last'|s'].
        -- destruct H as (Hr & Hp' & Hc' & Hl').
           split; [|repeat split; try lia; congruence].
           cbn [scan_bytes]. rewrite Hview, Hread by exact Hj. cbn [bind].
           rewrite Hs. cbn [bind]. exact Hr.
        -- destruct H as (m & Hr & Hp'). exists (S m). split; [|lia].
           cbn [scan_bytes]. rewrite Hview, Hread by exact Hj. cbn [bind].
           rewrite Hs. cbn [bind]. exact Hr.
      * injection H as <-. destruct Hstep as [Hs Hp1]. exists 1%nat. split; [|lia].
        cbn [scan_bytes]. rewrite Hview, Hread by exact Hj. cbn [bind].
        rewrite Hs. reflexivity.
    + apply (IH fuel (j + 1)) in H; [|lia|lia|lia|exact Hl|lia|exact HP|].
      2:{ intros i Hi. rewrite Hbits by exact Hi.
          destruct (Z.eq_dec i j) as [->|];
            [rewrite Hb, !andb_false_r; reflexivity|].
          destruct (Z.leb_spec j i), (Z.leb_spec (j + 1) i); try reflexivity; lia. }
      pose proof (scan_byte_skip j last s Hj Hlj Hb) as Hs.
      destruct r as [s' last'|s'].
      * destruct H as (Hr & Hrest). split; [|exact Hrest].
        cbn [scan_bytes]. rewrite Hview, Hread by exact Hj. cbn [bind].
        rewrite Hs. cbn [bind]. exact Hr.
      * destruct H as (m & Hr & Hp'). exists (S m). split; [|lia].
        cbn [scan_bytes]. rewrite Hview, Hread by exact Hj. cbn [bind].
        rewrite Hs. cbn [bind]. exact Hr.
Qed.

End WindowRefinement.

(** ** A call of the scan loop against the scan one byte at a time *)

Section CallRefinement.

Variable process_escapes : bool.
Variable cfg : Config.
Variable buf : list Z.
Hypothesis Hcfg : process_escapes = true -> tables_ok cfg /\ escape_is_no_delim cfg.
Hypothesis Hreg : registers_ok process_escapes cfg.
Hypothesis Hnul : no_nul buf.

Lemma scan_window_ref (max_tuples : Z) (st : State) (r : flow) :
  scan_window process_escapes cfg buf max_tuples st = Ok r ->
  exists m : nat,
    scan_bytes process_escapes cfg buf m (forget st) = Ok (forget (flow_state r))
    /\ byte_buffer_ptr (flow_state r) = byte_buffer_ptr st + Z.of_nat m.
Proof.
  unfold scan_window. intros H. inv_bind H. rename a into w.
  inv_bind H. clear E0. destruct a.
  destruct (window_masks process_escapes cfg w (last_char_is_escape_ st))
    as [[em dm0] c'] eqn:Hmasks.
  inv_bind H.
  pose proof (window_facts process_escapes cfg buf Hcfg Hreg Hnul (byte_buffer_ptr st) w
                (last_char_is_escape_ st) em dm0 c' E Hmasks)
    as (Hem & _ & _ & _ & _ & Hc').
  apply (walk_ref process_escapes cfg buf Hcfg Hreg Hnul max_tuples (byte_buffer_ptr st) w
           (last_char_is_escape_ st) em dm0 c' E Hmasks 16 16 0) in E0;
    [|reflexivity|lia|lia|lia|lia| |].
  2:{ destruct process_escapes; reflexivity. }
  2:{ intros i Hi. replace (0 <=? i) with true by (symmetry; apply Z.leb_le; lia).
      reflexivity. }
  assert (Hstart : window_view process_escapes em (last_char_is_escape_ st)
                     (byte_buffer_ptr st) 0 0
                     (if process_escapes then set_last_char_is_escape_ c' st else st)
                   = forget st).
  { unfold window_view. rewrite Z.add_0_r, has_escape_in_empty.
    destruct process_escapes; st_norm; [rewrite orb_false_r|]; reflexivity. }
  rewrite Hstart in E0. clear Hstart.
  destruct a as [s' last'|s'].
  - destruct E0 as (Hr & Hp & Hc & Hl). injection H as <-. cbn [flow_state].
    exists 16%nat.
    split; [|destruct process_escapes; unfold advance_window, fold_tail; st_norm;
             rewrite Hp; reflexivity].
    rewrite Hr. f_equal. unfold window_view, advance_window.
    destruct process_escapes.
    + destruct (Hcfg eq_refl) as [Ht _].
      rewrite fold_tail_flag by (assumption || lia). st_norm_in Hc.
      change (escaped_at em (last_char_is_escape_ st) (Z.to_nat 16))
        with (active_escape em (last_char_is_escape_ st) 15).
      st_norm. rewrite <- Hc', <- Hc, Hp. reflexivity.
    + st_norm. rewrite Hp. reflexivity.
  - destruct E0 as (m & Hr & Hp). injection H as <-. cbn [flow_state].
    exists m. split; [exact Hr | lia].
Qed.

Lemma ParseSse_loop_ref (fuel : nat) (max_tuples : Z) (st st' : State) :
  ParseSse_loop process_escapes cfg buf fuel max_tuples st = Ok st' ->
  exists m : nat,
    scan_bytes process_escapes cfg buf m (forget st) = Ok (forget st')
    /\ byte_buffer_ptr st' = byte_buffer_ptr st + Z.of_nat m.
Proof.
  revert st. induction fuel as [|fuel IH]; intros st H.
  - cbn in H. destruct (remaining_len st >=? _); [discriminate H|].
    injection H as <-. exists 0%nat. split; [reflexivity | lia].
  - cbn [ParseSse_loop] in H.
    destruct (remaining_len st >=? _).
    2:{ injection H as <-. exists 0%nat. split; [reflexivity | lia]. }
    inv_bind H. apply scan_window_ref in E as (m1 & Hr1 & Hp1).
    destruct a as [s l|s]; cbn [flow_state] in *.
    + apply IH in H as (m2 & Hr2 & Hp2). exists (m1 + m2)%nat.
      split; [|lia]. rewrite scan_bytes_app, Hr1. cbn [bind]. exact Hr2.
    + injection H as <-. exists m1. split; [exact Hr1 | exact Hp1].
Qed.

Lemma ParseSse_ref (max_tuples : Z) (st st' : State) :
  ParseSse process_escapes cfg buf max_tuples st = Ok st' ->
  exists m : nat,
    scan_bytes process_escapes cfg buf m (forget st) = Ok (forget st')
    /\ byte_buffer_ptr st' = byte_buffer_ptr st + Z.of_nat m.
Proof. unfold ParseSse. apply ParseSse_loop_ref. Qed.

Lemma ParseSse_calls_ref (calls : list Call) (st st' : State) :
  ParseSse_calls process_escapes cfg buf calls st = Ok st' ->
  exists m : nat,
    scan_bytes process_escapes cfg buf m (forget st) = Ok (forget st')
    /\ byte_buffer_ptr st' = byte_buffer_ptr st + Z.of_nat m.
Proof.
  revert st. induction calls as [|call calls IH]; intros st H.
  - cbn in H. injection H as <-. exists 0%nat. split; [reflexivity | lia].
  - cbn [ParseSse_calls] in H. inv_bind H.
    apply ParseSse_ref in E as (m1 & Hr1 & Hp1).
    apply IH in H as (m2 & Hr2 & Hp2).
    exists (m1 + m2)%nat. split.
    + rewrite scan_bytes_app.
      change (forget (prepare_call call st)) with (forget st) in Hr1.
      rewrite Hr1. cbn [bind]. exact Hr2.
    + rewrite Hp2, Hp1. unfold prepare_call. st_norm. lia.
Qed.

End CallRefinement.

(** ** Chunking *)

(** Two bounded calls on [seventeen_bytes], the second resumed with the
    cursor and all state as the first left them, against one call whose bound
    is not reached.  The first call stops after the tuple delimiter in byte 0;
    the second starts its window at byte 1 and so reaches the field delimiter
    in byte 16, which the single call, with one full window from byte 0,
    leaves to the scalar scan of the tail.  The same happens when the second
    call is given the 16 bytes that really remain. *)
Lemma chunked_scan_differs :
  exists one first second second',
    ParseSse false plain_config seventeen_bytes 100 (initial_state 0 17) = Ok one
    /\ ParseSse false plain_config seventeen_bytes 1 (initial_state 0 17) = Ok first
    /\ resume false plain_config seventeen_bytes 1 first = Ok second
    /\ ParseSse_calls false plain_config seventeen_bytes [bounded_call 1 16] first
       = Ok second'
    /\ history one = [FieldWritten 0 {| start := 0; len := 0 |}; TupleEnd 0]
    /\ history second
       = [FieldWritten 0 {| start := 0; len := 0 |}; TupleEnd 0;
          FieldWritten 0 {| start := 1; len := 15 |}]
    /\ history second' = history second
    /\ history second <> history one
    /\ field_locations second <> field_locations one.
Proof.
  do 4 eexists.
  split; [vm_compute; reflexivity|].
  split; [vm_compute; reflexivity|].
  split; [vm_compute; reflexivity|].
  split; [vm_compute; reflexivity|].
  repeat split; try reflexivity; vm_compute; discriminate.
Qed.

(** A second call that takes [remaining_len] as the first left it, after an
    early exit, is told of more bytes than the buffer holds: on 32 bytes it
    loads the window of bytes 17 to 32.  Told of the 31 bytes that remain, it
    stops after the window of bytes 1 to 16. *)
Lemma resumed_call_overruns :
  exists first second,
    ParseSse false plain_config thirty_two_bytes 1 (initial_state 0 32) = Ok first
    /\ byte_buffer_ptr first = 1 /\ remaining_len first = 33
    /\ resume false plain_config thirty_two_bytes 1 first = Fault OutOfBounds
    /\ ParseSse_calls false plain_config thirty_two_bytes [bounded_call 1 31] first
       = Ok second
    /\ byte_buffer_ptr second = 17.
Proof.
  do 2 eexists.
  split; [vm_compute; reflexivity|].
  split; [reflexivity|]. split; [reflexivity|].
  split; [vm_compute; reflexivity|].
  split; [vm_compute; reflexivity | reflexivity].
Qed.

(** C2, as the code has it.  On a buffer that holds no NUL byte, calls that
    follow one another, each with the bound, the announced length and the
    tuple array the caller chooses and everything else as the call before
    left it, leave the same ordered output and the same parser state as a
    single call, whenever they stop at the same byte.  (A call consumes
    whole windows of 16 bytes, or stops behind the tuple delimiter that
    reaches its bound; and the compare of lines 104-113 ends a window at its
    first NUL byte, so that what a call finds behind a NUL depends on where
    its windows start.)  The search registers hold the delimiters and the
    escape character; with escape processing the tables are the ones the
    comments of the code describe and the escape character is no
    delimiter. *)
Theorem chunked_scan_same_bytes (process_escapes : bool) (cfg : Config) (buf : list Z)
    (calls : list Call) (max_tuples : Z) (st chunked single : State) :
  (process_escapes = true -> tables_ok cfg /\ escape_is_no_delim cfg) ->
  registers_ok process_escapes cfg ->
  no_nul buf ->
  ParseSse_calls process_escapes cfg buf calls st = Ok chunked ->
  ParseSse process_escapes cfg buf max_tuples st = Ok single ->
  byte_buffer_ptr chunked = byte_buffer_ptr single ->
  history chunked = history single
  /\ field_locations chunked = field_locations single
  /\ num_fields chunked = num_fields single
  /\ next_column_start chunked = next_column_start single
  /\ column_idx_ chunked = column_idx_ single
  /\ current_column_has_escape_ chunked = current_column_has_escape_ single
  /\ last_char_is_escape_ chunked = last_char_is_escape_ single.
Proof.
  intros Hcfg Hreg Hnul Hc Hs Hp.
  apply (ParseSse_calls_ref process_escapes cfg buf Hcfg Hreg Hnul) in Hc
    as (m1 & Hr1 & Hp1).
  apply (ParseSse_ref process_escapes cfg buf Hcfg Hreg Hnul) in Hs as (m2 & Hr2 & Hp2).
  assert (m1 = m2) by lia. subst m2.
  assert (Heq : forget chunked = forget single) by congruence.
  repeat split.
  - exact (f_equal history Heq).
  - exact (f_equal field_locations Heq).
  - exact (f_equal num_fields Heq).
  - exact (f_equal next_column_start Heq).
  - exact (f_equal column_idx_ Heq).
  - exact (f_equal current_column_has_escape_ Heq).
  - exact (f_equal last_char_is_escape_ Heq).
Qed.

Lemma chunked_scan_same_bytes_witness :
  exists chunked single,
    ParseSse_calls true escape_config two_tuples
      [bounded_call 1 32; bounded_call 1 25] (initial_state 0 32) = Ok chunked
    /\ ParseSse true escape_config two_tuples 2 (initial_state 0 32) = Ok single
    /\ byte_buffer_ptr chunked = 11
    /\ history chunked = history single
    /\ field_locations chunked = field_locations single
    /\ history single
       = [FieldWritten 0 {| start := 0; len := -4 |};
          FieldWritten 1 {| start := 5; len := 1 |}; TupleEnd 6;
          FieldWritten 0 {| start := 7; len := 1 |};
          FieldWritten 1 {| start := 9; len := 1 |}; TupleEnd 10].
Proof.
  eexists. eexists.
  split; [vm_compute; reflexivity|].
  split; [vm_compute; reflexivity|].
  split; [reflexivity|].
  match goal with
  | |- history ?a = history ?b /\ _ =>
      destruct (chunked_scan_same_bytes true escape_config two_tuples
                  [bounded_call 1 32; bounded_call 1 25] 2 (initial_state 0 32) a b)
        as (Hh & Hf & _)
  end.
  - intros _. split; [exact (proj2 tables_ok_example) | reflexivity].
  - exact (proj2 registers_ok_example).
  - apply no_nul_check. vm_compute. reflexivity.
  - vm_compute. reflexivity.
  - vm_compute. reflexivity.
  - reflexivity.
  - split; [exact Hh|]. split; [exact Hf | reflexivity].
Defined.

(** ** Invariants that follow the position of the scan

    [Pos lo s] is a property of the state [s] that may speak of the bytes
    before the offset [lo], the ones the scan has gone past.  It is kept by
    a call when it is kept at each delimiter the call finds: a byte at an
    offset [q] not before [lo] that is a character of the delimiter
    register, where [AddColumn] runs and, at a tuple delimiter, the tuple end
    is recorded.  Nothing is assumed of the window, of the registers or of
    the tables. *)

Lemma int32_small (z : Z) : -2147483648 <= z < 2147483648 -> int32 z = z.
Proof.
  intros Hz. unfold int32. rewrite Z.mod_small by lia. lia.
Qed.

Lemma record_tuple_end_start (cfg : Config) (p : Z) (st st' : State) :
  record_tuple_end cfg p st = Ok st' ->
  next_column_start st' = next_column_start st.
Proof.
  unfold record_tuple_end. intros H.
  destruct ((0 <=? num_tuples (end_tuple cfg p st))
            && (num_tuples (end_tuple cfg p st)
                <? Z.of_nat (length (row_end_locations (end_tuple cfg p st)))));
    [|discriminate H].
  injection H as <-. reflexivity.
Qed.

Lemma record_tuple_end_arrays (cfg : Config) (p : Z) (st st' : State) :
  record_tuple_end cfg p st = Ok st' ->
  0 <= num_tuples st < Z.of_nat (length (row_end_locations st))
  /\ row_end_locations st'
     = <[Z.to_nat (num_tuples st) := p]> (row_end_locations st)
  /\ num_fields st' = num_fields st
  /\ field_locations st' = field_locations st.
Proof.
  unfold record_tuple_end. intros H.
  destruct ((0 <=? num_tuples (end_tuple cfg p st))
            && (num_tuples (end_tuple cfg p st)
                <? Z.of_nat (length (row_end_locations (end_tuple cfg p st))))) eqn:Hc;
    [|discriminate H].
  injection H as <-. apply andb_true_iff in Hc as [H0 H1].
  apply Z.leb_le in H0. apply Z.ltb_lt in H1.
  change (0 <= num_tuples st) in H0.
  change (num_tuples st < Z.of_nat (length (row_end_locations st))) in H1.
  split; [lia|]. repeat split; reflexivity.
Qed.

Section Positions.

Variable process_escapes : bool.
Variable cfg : Config.
Variable buf : list Z.
Variable max_tuples : Z.
Variable Pos : Z -> State -> Prop.

Hypothesis Pos_mono : forall lo lo' s, lo <= lo' -> Pos lo s -> Pos lo' s.
Hypothesis Pos_flag :
  process_escapes = true ->
  forall lo v s, Pos lo s -> Pos lo (set_current_column_has_escape_ v s).
Hypothesis Pos_carry :
  process_escapes = true ->
  forall lo v s, Pos lo s -> Pos lo (set_last_char_is_escape_ v s).
Hypothesis Pos_ptr : forall lo v s, Pos lo s -> Pos lo (set_byte_buffer_ptr v s).
Hypothesis Pos_remaining : forall lo v s, Pos lo s -> Pos lo (set_remaining_len v s).
Hypothesis Pos_delim :
  forall lo q b s s1,
    Pos lo s -> lo <= q ->
    read_byte buf q = Ok b ->
    in_needle (xmm_delim_search_ cfg) b = true ->
    AddColumn process_escapes cfg (int32 (q - next_column_start s)) s = Ok s1 ->
    if b =? tuple_delim_ cfg
    then forall s2, record_tuple_end cfg q s1 = Ok s2 -> Pos (q + 1) s2
    else Pos (q + 1) s1.

Lemma delim_step_pos (em n last lo b : Z) (st : State) (r : flow) :
  Pos lo st -> lo <= byte_buffer_ptr st + n ->
  read_byte buf (byte_buffer_ptr st + n) = Ok b ->
  in_needle (xmm_delim_search_ cfg) b = true ->
  delim_step process_escapes cfg buf max_tuples em n last st = Ok r ->
  match r with
  | Next s' _ =>
      Pos (byte_buffer_ptr st + n + 1) s' /\ byte_buffer_ptr s' = byte_buffer_ptr st
  | Return s' => Pos (byte_buffer_ptr s') s'
  end.
Proof.
  intros HP Hlo Hrd Hin H. unfold delim_step in H.
  set (p := if process_escapes then (mark_escaped cfg em last n st, n) else (st, last))
    in H.
  assert (Hp : Pos lo (fst p) /\ byte_buffer_ptr (fst p) = byte_buffer_ptr st).
  { unfold p. destruct process_escapes; cbn [fst]; (split; [|reflexivity]);
      [apply (Pos_flag eq_refl)|]; exact HP. }
  destruct p as [s0 l0]. cbn [fst] in Hp. destruct Hp as [HP0 Hp0].
  rewrite Hp0 in H. inv_bind H. inv_bind H.
  pose proof (AddColumn_frame _ _ _ _ _ E) as (Hp1 & _).
  rewrite Hp1, Hp0, Hrd in E0. injection E0 as <-.
  pose proof (Pos_delim lo _ b s0 a HP0 Hlo Hrd Hin E) as Hd.
  destruct (b =? tuple_delim_ cfg).
  - inv_bind H. specialize (Hd _ eq_refl).
    pose proof (record_tuple_end_frame _ _ _ _ E0) as (Hp2 & _).
    destruct (num_tuples a0 =? max_tuples); injection H as <-.
    + assert (Hq : byte_buffer_ptr (early_exit process_escapes n a0)
                   = byte_buffer_ptr st + n + 1).
      { unfold early_exit. destruct process_escapes; st_norm; lia. }
      rewrite Hq. unfold early_exit. apply Pos_remaining.
      destruct process_escapes; [apply (Pos_carry eq_refl)|]; apply Pos_ptr; exact Hd.
    + split; [exact Hd | congruence].
  - injection H as <-. split; [exact Hd | congruence].
Qed.

Lemma walk_pos (em P0 : Z) (k : nat) :
  forall (fuel : nat) (j dm last : Z) (st : State) (r : flow),
    j = 16 - Z.of_nat k -> (k <= 16)%nat -> (k <= fuel)%nat ->
    (forall i, 0 <= i -> Z.testbit dm i = true ->
       j <= i < 16
       /\ exists b, read_byte buf (P0 + i) = Ok b
                    /\ in_needle (xmm_delim_search_ cfg) b = true) ->
    byte_buffer_ptr st = P0 -> Pos (P0 + j) st ->
    walk process_escapes cfg buf fuel max_tuples em dm last st = Ok r ->
    match r with
    | Next s' _ => Pos (P0 + 16) s' /\ byte_buffer_ptr s' = P0
    | Return s' => Pos (byte_buffer_ptr s') s'
    end.
Proof.
  induction k as [|k IH]; intros fuel j dm last st r Hjk Hk Hfuel Hbits Hptr HP H.
  - assert (Hz : dm = 0).
    { apply Z.bits_inj'. intros i Hi. rewrite Z.bits_0.
      destruct (Z.testbit dm i) eqn:Hb; [|reflexivity].
      apply Hbits in Hb as [Hb _]; lia. }
    subst dm. replace j with 16 in HP by lia.
    destruct fuel; cbn in H; injection H as <-; split; assumption.
  - destruct (Z.testbit dm j) eqn:Hb.
    + assert (Hnz : (dm =? 0) = false).
      { apply Z.eqb_neq. intros ->. rewrite Z.bits_0 in Hb. discriminate. }
      destruct fuel as [|fuel]; [lia|].
      cbn [walk] in H. rewrite Hnz in H.
      rewrite (ffs_lowest j dm) in H; [|lia| |exact Hb].
      2:{ intros t Ht. destruct (Z.testbit dm t) eqn:Hbt; [|reflexivity].
          apply Hbits in Hbt as [Hbt _]; lia. }
      destruct (Hbits j) as (_ & b & Hrd & Hin); [lia | exact Hb |].
      inv_bind H.
      apply (delim_step_pos em j last (P0 + j) b) in E;
        [|exact HP | rewrite Hptr; lia | rewrite Hptr; exact Hrd | exact Hin].
      destruct a as [s1 l1|s1]; [|injection H as <-; exact E].
      destruct E as [HP1 Hp1]. rewrite Hptr in HP1, Hp1.
      apply (IH fuel (j + 1)) in H; [exact H|lia|lia|lia| |exact Hp1|].
      * intros i Hi. rewrite clear_bit_testbit by lia. intros Hbi.
        apply andb_true_iff in Hbi as [Hbi Hlt].
        apply andb_true_iff in Hbi as [Hbi Hne].
        apply negb_true_iff, Z.eqb_neq in Hne.
        destruct (Hbits i Hi Hbi) as [Hr Hx]. split; [lia | exact Hx].
      * rewrite Z.add_assoc. exact HP1.
    + apply (IH fuel (j + 1)) in H; [exact H|lia|lia|lia| |exact Hptr|].
      * intros i Hi Hbi. destruct (Z.eq_dec i j) as [->|]; [congruence|].
        destruct (Hbits i Hi Hbi) as [Hr Hx]. split; [lia | exact Hx].
      * apply (Pos_mono (P0 + j)); [lia | exact HP].
Qed.

Lemma scan_window_pos (st : State) (r : flow) :
  Pos (byte_buffer_ptr st) st ->
  scan_window process_escapes cfg buf max_tuples st = Ok r ->
  Pos (byte_buffer_ptr (flow_state r)) (flow_state r).
Proof.
  unfold scan_window. intros HP H. inv_bind H. rename a into w.
  inv_bind H. clear E0. destruct a.
  destruct (window_masks process_escapes cfg w (last_char_is_escape_ st))
    as [[em dm] c'] eqn:Hm.
  apply window_masks_sound in Hm as (_ & _ & Hdm & _).
  apply load_window_ok in E as [_ Hread].
  inv_bind H.
  apply (walk_pos em (byte_buffer_ptr st) 16 16 0) in E;
    [|reflexivity|lia|lia| | |].
  - destruct a as [s1 l1|s1]; injection H as <-; cbn [flow_state]; [|exact E].
    destruct E as [HP1 Hp1].
    assert (Hq : byte_buffer_ptr
                   (advance_window
                      (if process_escapes then fold_tail cfg em l1 s1 else s1))
                 = byte_buffer_ptr st + 16).
    { unfold advance_window, fold_tail, CHARS_PER_128_BIT_REGISTER.
      destruct process_escapes; st_norm; lia. }
    rewrite Hq. unfold advance_window, fold_tail.
    apply Pos_ptr, Pos_remaining.
    destruct process_escapes; [apply (Pos_flag eq_refl)|]; exact HP1.
  - intros i Hi Hb. destruct (Hdm i Hi Hb) as [Hlt Hin]. split; [lia|].
    exists (window_byte w i). split; [apply Hread; lia | exact Hin].
  - destruct process_escapes; reflexivity.
  - rewrite Z.add_0_r.
    destruct process_escapes; [apply (Pos_carry eq_refl)|]; exact HP.
Qed.

Lemma ParseSse_loop_pos (fuel : nat) (st st' : State) :
  Pos (byte_buffer_ptr st) st ->
  ParseSse_loop process_escapes cfg buf fuel max_tuples st = Ok st' ->
  Pos (byte_buffer_ptr st') st'.
Proof.
  revert st. induction fuel as [|fuel IH]; intros st HP H.
  - cbn in H. destruct (remaining_len st >=? _); [discriminate H|].
    injection H as <-. exact HP.
  - cbn [ParseSse_loop] in H.
    destruct (remaining_len st >=? _); [|injection H as <-; exact HP].
    inv_bind H. apply scan_window_pos in E; [|exact HP].
    destruct a as [s l|s]; cbn [flow_state] in E.
    + eapply IH; eassumption.
    + injection H as <-. exact E.
Qed.

Lemma ParseSse_pos (st st' : State) :
  Pos (byte_buffer_ptr st) st ->
  ParseSse process_escapes cfg buf max_tuples st = Ok st' ->
  Pos (byte_buffer_ptr st') st'.
Proof. unfold ParseSse. apply ParseSse_loop_pos. Qed.

End Positions.

(** ** Field lengths without escape processing *)

Lemma AddColumn_plain_result (cfg : Config) (column_len : Z) (st st' : State) :
  AddColumn false cfg column_len st = Ok st' ->
  next_column_start st' = next_column_start st + (column_len + 1)
  /\ byte_buffer_ptr st' = byte_buffer_ptr st
  /\ ((history st' = history st /\ field_locations st' = field_locations st)
      \/ (history st'
          = history st
            ++ [FieldWritten (column_idx_ st)
                  {| start := next_column_start st; len := column_len |}]
          /\ field_locations st'
             = <[Z.to_nat (num_fields st) :=
                   {| start := next_column_start st; len := column_len |}]>
                 (field_locations st))).
Proof.
  unfold AddColumn. intros H.
  destruct (ReturnCurrentColumn cfg st);
    [destruct ((0 <=? num_fields st)
               && (num_fields st <? Z.of_nat (length (field_locations st))));
     [|discriminate H]|];
    cbn [bind] in H; injection H as <-; cbn; auto.
Qed.

Lemma AddColumn_plain_nonneg (cfg : Config) (st0 : State) (column_len : Z)
    (st st' : State) :
  0 <= column_len ->
  AddColumn false cfg column_len st = Ok st' ->
  lengths_nonneg st0 st -> lengths_nonneg st0 st'.
Proof.
  intros Hlen H [Hh Hf].
  apply AddColumn_plain_result in H as (_ & _ & [[Hh' Hf'] | [Hh' Hf']]); split.
  - intros column loc. rewrite Hh'. apply Hh.
  - intros i loc. rewrite Hf'. apply Hf.
  - intros column loc. rewrite Hh'. intros Hin.
    apply in_app_or in Hin as [Hin | [Hin | []]]; [auto|].
    injection Hin as <- <-. right. cbn. lia.
  - intros i loc. rewrite Hf'. intros Hl.
    apply list_lookup_insert_Some in Hl as [(_ & <- & _) | [_ Hl]];
      [right; cbn; lia | auto].
Qed.

(** Negative lengths without escape processing: [AddColumn] given a
    negative length writes it; a call entered with next-column-start behind
    the cursor writes the negative distance to the first delimiter; and a
    call entered with next-column-start [2^31] bytes before the cursor, the
    column in progress being that long, writes the distance narrowed to
    [int], which is negative. *)
Lemma no_escape_negative_length :
  (exists st',
     AddColumn false plain_config (-4) (initial_state 0 16) = Ok st'
     /\ field_locations st' !! 0%nat = Some {| start := 0; len := -4 |})
  /\ (exists st',
        ParseSse false plain_config scenario_A 4
          (set_next_column_start 5 (initial_state 0 16)) = Ok st'
        /\ field_locations st' !! 0%nat = Some {| start := 5; len := -4 |})
  /\ (exists st',
        ParseSse false plain_config scenario_A 4
          (set_next_column_start (-2147483648) (initial_state 0 16)) = Ok st'
        /\ field_locations st' !! 0%nat
           = Some {| start := -2147483648; len := -2147483647 |}).
Proof.
  split; [|split]; eexists; (split; [vm_compute; reflexivity | reflexivity]).
Qed.

(** C5, as the code has it.  Without escape processing [AddColumn] writes
    the length it is given, never its negation, so that a length that is not
    negative is written as such; and a call of the scan loop writes only
    field locations whose length is not negative, both in the order of
    writing and in the output array, when it starts with next-column-start
    at or before the cursor and the end of the buffer less than [2^31] bytes
    behind next-column-start, so that no column is too long for the [int] of
    line 138. *)
Theorem no_escape_lengths_nonneg (cfg : Config) (buf : list Z) :
  (forall column_len st st',
     0 <= column_len ->
     AddColumn false cfg column_len st = Ok st' ->
     (forall column loc,
        In (FieldWritten column loc) (history st') ->
        In (FieldWritten column loc) (history st) \/ 0 <= len loc)
     /\ (forall (i : nat) loc,
           field_locations st' !! i = Some loc ->
           field_locations st !! i = Some loc \/ 0 <= len loc))
  /\ (forall max_tuples st st',
        next_column_start st <= byte_buffer_ptr st ->
        Z.of_nat (length buf) - next_column_start st < 2147483648 ->
        ParseSse false cfg buf max_tuples st = Ok st' ->
        next_column_start st' <= byte_buffer_ptr st'
        /\ (forall column loc,
              In (FieldWritten column loc) (history st') ->
              In (FieldWritten column loc) (history st) \/ 0 <= len loc)
        /\ (forall (i : nat) loc,
              field_locations st' !! i = Some loc ->
              field_locations st !! i = Some loc \/ 0 <= len loc)).
Proof.
  split.
  - intros column_len st st' Hlen H.
    apply (AddColumn_plain_nonneg cfg st column_len st st' Hlen H).
    split; auto.
  - intros max_tuples st st' Hle Hint H.
    enough (Hpos : (next_column_start st <= next_column_start st'
                    <= byte_buffer_ptr st')
                   /\ lengths_nonneg st st')
      by (destruct Hpos as [Hn Hl]; split; [lia | exact Hl]).
    revert H.
    apply (ParseSse_pos false cfg buf max_tuples
             (fun lo s => next_column_start st <= next_column_start s <= lo
                          /\ lengths_nonneg st s)).
    + intros lo lo' s Hlo [Hn Hl]. split; [lia | exact Hl].
    + discriminate.
    + discriminate.
    + intros lo v s Hs. exact Hs.
    + intros lo v s Hs. exact Hs.
    + intros lo q b s s1 [Hn Hl] Hq Hrd _ Ha.
      apply read_byte_fault_free in Hrd.
      rewrite int32_small in Ha by lia.
      assert (Hlen : 0 <= q - next_column_start s) by lia.
      pose proof (AddColumn_plain_nonneg cfg st _ s s1 Hlen Ha Hl) as Hl1.
      apply AddColumn_plain_result in Ha as (Hn1 & _).
      destruct (b =? tuple_delim_ cfg).
      * intros s2 Ht.
        pose proof (record_tuple_end_start _ _ _ _ Ht) as Hn2.
        pose proof (record_tuple_end_frame _ _ _ _ Ht) as (_ & _ & _ & _ & _ & Hh2).
        apply record_tuple_end_arrays in Ht as (_ & _ & _ & Hf2).
        split; [lia|]. destruct Hl1 as [Hh1 Hf1]. split.
        -- intros column loc. rewrite Hh2. intros Hin.
           apply in_app_or in Hin as [Hin | [Hin | []]]; [auto | discriminate Hin].
        -- intros i loc. rewrite Hf2. apply Hf1.
      * split; [lia | exact Hl1].
    + split; [lia|]. split; auto.
Qed.

Lemma no_escape_lengths_nonneg_witness :
  (exists st',
     AddColumn false plain_config 3 (initial_state 0 16) = Ok st'
     /\ (forall column loc,
           In (FieldWritten column loc) (history st') ->
           In (FieldWritten column loc) (history (initial_state 0 16)) \/ 0 <= len loc))
  /\ (exists st',
        ParseSse false plain_config scenario_A 2 (initial_state 0 16) = Ok st'
        /\ next_column_start st' <= byte_buffer_ptr st'
        /\ (forall column loc,
              In (FieldWritten column loc) (history st') ->
              In (FieldWritten column loc) (history (initial_state 0 16))
              \/ 0 <= len loc)
        /\ (forall (i : nat) loc,
              field_locations st' !! i = Some loc ->
              field_locations (initial_state 0 16) !! i = Some loc \/ 0 <= len loc)).
Proof.
  split.
  - eexists. split; [vm_compute; reflexivity|].
    apply (proj1 (no_escape_lengths_nonneg plain_config scenario_A) 3
             (initial_state 0 16)).
    + lia.
    + vm_compute. reflexivity.
  - eexists. split; [vm_compute; reflexivity|].
    apply (proj2 (no_escape_lengths_nonneg plain_config scenario_A) 2
             (initial_state 0 16)).
    + vm_compute. discriminate.
    + vm_compute. reflexivity.
    + vm_compute. reflexivity.
Defined.

(** ** Escape parity across windows *)

Lemma carry_after_snoc (cfg : Config) (c : bool) (l : list Z) (b : Z) :
  carry_after cfg c (l ++ [b]) = is_escape cfg b && negb (carry_after cfg c l).
Proof. unfold carry_after. rewrite fold_left_app. reflexivity. Qed.

Lemma carry_after_app (cfg : Config) (c : bool) (l1 l2 : list Z) :
  carry_after cfg c (l1 ++ l2) = carry_after cfg (carry_after cfg c l1) l2.
Proof. unfold carry_after. apply fold_left_app. Qed.

Lemma carry_after_run (cfg : Config) (c : bool) (pre : list Z) (k : nat) :
  carry_after cfg c pre = false ->
  carry_after cfg c (pre ++ repeat (escape_char_ cfg) k) = Nat.odd k.
Proof.
  intros Hpre. induction k as [|k IH].
  - rewrite app_nil_r. exact Hpre.
  - replace (repeat (escape_char_ cfg) (S k))
      with (repeat (escape_char_ cfg) k ++ [escape_char_ cfg])
      by (symmetry; apply repeat_cons).
    rewrite app_assoc, carry_after_snoc, IH, Nat.odd_succ, <- Nat.negb_odd.
    unfold is_escape. rewrite Z.eqb_refl. reflexivity.
Qed.

Lemma escaped_at_carry_after (cfg : Config) (w : list Z) (em : Z) (c : bool) (i : nat) :
  length w = 16%nat ->
  (forall t, 0 <= t < 16 -> Z.testbit em t = is_escape cfg (window_byte w t)) ->
  (i <= 16)%nat ->
  escaped_at em c i = carry_after cfg c (take i w).
Proof.
  intros Hw Hem. induction i as [|i IH]; intros Hi.
  - reflexivity.
  - destruct (lookup_lt_is_Some_2 w i) as [b Hb]; [lia|].
    rewrite (take_S_r w i b Hb), carry_after_snoc, <- IH by lia.
    rewrite escaped_at_succ, Hem by lia. unfold window_byte.
    rewrite Nat2Z.id. erewrite nth_lookup_Some by exact Hb. reflexivity.
Qed.

Lemma stream_masks_bit (cfg : Config) (windows : nat) :
  registers_ok true cfg ->
  forall (stream : list Z) (c : bool) (q i : nat),
    no_nul stream ->
    (q < windows)%nat -> (i < 16)%nat -> (16 * windows <= length stream)%nat ->
    exists em dm,
      stream_masks true cfg windows stream c !! q = Some (em, dm)
      /\ Z.testbit dm (Z.of_nat i)
         = is_delim cfg (nth (16 * q + i) stream 0)
           && negb (carry_after cfg c (take (16 * q + i) stream)).
Proof.
  intros Hreg.
  induction windows as [|windows IH]; intros stream c q i Hnul Hq Hi Hlen; [lia|].
  cbn [stream_masks].
  destruct (window_masks true cfg (take 16 stream) c) as [[em dm] c'] eqn:Hm.
  assert (Hw : length (take 16 stream) = 16%nat) by (rewrite length_take; lia).
  assert (Hwn : no_nul (take 16 stream)) by (apply Forall_take; exact Hnul).
  destruct (escape_mask_of_window cfg _ Hw Hwn c em dm c' Hreg Hm) as [_ Hesc].
  destruct (delim_mask_of_window cfg _ Hw Hwn c em dm c' Hreg Hm) as (_ & Hdel & Hc').
  destruct q as [|q].
  - exists em, dm. split; [reflexivity|].
    rewrite Hdel by exact Hi.
    rewrite (escaped_at_carry_after cfg _ em c i Hw Hesc) by lia.
    rewrite take_take. replace (i `min` 16)%nat with i by lia.
    unfold window_byte. rewrite Nat2Z.id, Nat.mul_0_r, Nat.add_0_l.
    rewrite !nth_lookup, lookup_take_lt by lia. reflexivity.
  - destruct (IH (drop 16 stream) c' q i) as (em' & dm' & Hl & Hb);
      [apply Forall_drop; exact Hnul | lia | lia | rewrite length_drop; lia |].
    exists em', dm'. split; [exact Hl|].
    rewrite Hb. f_equal.
    + replace (16 * S q + i)%nat with (16 + (16 * q + i))%nat by lia.
      rewrite !nth_lookup, lookup_drop. reflexivity.
    + f_equal. rewrite <- (take_drop 16 stream) at 2.
      rewrite take_app_ge by lia. rewrite Hw, carry_after_app.
      replace (16 * S q + i - 16)%nat with (16 * q + i)%nat by lia.
      f_equal. rewrite Hc'.
      change (active_escape em c 15) with (escaped_at em c 16).
      rewrite (escaped_at_carry_after cfg _ em c 16 Hw Hesc) by lia.
      rewrite take_take. reflexivity.
Qed.




(** ** The iteration bounds of the embedding are never reached *)

Section Fuel.

Variable process_escapes : bool.
Variable cfg : Config.
Variable buf : list Z.

Lemma AddColumn_fault (column_len : Z) (st : State) (e : error) :
  AddColumn process_escapes cfg column_len st = Fault e -> e = CapacityExceeded.
Proof.
  unfold AddColumn. intros H.
  destruct (ReturnCurrentColumn cfg st);
    [destruct ((0 <=? num_fields st)
               && (num_fields st <? Z.of_nat (length (field_locations st))))|];
    cbn [bind] in H; congruence.
Qed.

Lemma read_byte_fault (p : Z) (e : error) :
  read_byte buf p = Fault e -> e = OutOfBounds.
Proof.
  unfold read_byte. destruct ((0 <=? p) && (p <? Z.of_nat (length buf))); congruence.
Qed.

Lemma record_tuple_end_fault (p : Z) (st : State) (e : error) :
  record_tuple_end cfg p st = Fault e -> e = OutOfBounds.
Proof.
  unfold record_tuple_end.
  destruct ((0 <=? num_tuples (end_tuple cfg p st))
            && (num_tuples (end_tuple cfg p st)
                <? Z.of_nat (length (row_end_locations (end_tuple cfg p st)))));
    congruence.
Qed.

Lemma delim_step_fuel (max_tuples em n last : Z) (st : State) :
  delim_step process_escapes cfg buf max_tuples em n last st <> Fault OutOfFuel
  /\ forall s' l',
       delim_step process_escapes cfg buf max_tuples em n last st = Ok (Next s' l') ->
       remaining_len s' = remaining_len st.
Proof.
  unfold delim_step.
  set (p := if process_escapes then (mark_escaped cfg em last n st, n) else (st, last)).
  assert (Hp : remaining_len (fst p) = remaining_len st).
  { unfold p. destruct process_escapes; reflexivity. }
  destruct p as [s0 l0]. cbn [fst] in Hp.
  destruct (AddColumn process_escapes cfg _ s0) as [s1|e] eqn:E1; cbn [bind].
  2:{ apply AddColumn_fault in E1 as ->. split; [discriminate | intros; discriminate]. }
  apply AddColumn_frame in E1 as (_ & Hr1 & _).
  destruct (read_byte buf _) as [b|e] eqn:E2; cbn [bind].
  2:{ apply read_byte_fault in E2 as ->. split; [discriminate | intros; discriminate]. }
  destruct (b =? tuple_delim_ cfg).
  2:{ split; [discriminate|]. intros s' l' H. injection H as <- _. lia. }
  destruct (record_tuple_end cfg _ s1) as [s2|e] eqn:E3; cbn [bind].
  2:{ apply record_tuple_end_fault in E3 as ->. split; [discriminate | intros; discriminate]. }
  apply record_tuple_end_frame in E3 as (_ & Hr2 & _).
  destruct (num_tuples s2 =? max_tuples); split; try discriminate.
  intros s' l' H. injection H as <- _. lia.
Qed.

Lemma walk_fuel (max_tuples em : Z) (k : nat) :
  forall (fuel : nat) (j dm last : Z) (st : State),
    j = 16 - Z.of_nat k -> (k <= 16)%nat -> (k <= fuel)%nat ->
    (forall i, 0 <= i -> Z.testbit dm i = true -> j <= i < 16) ->
    walk process_escapes cfg buf fuel max_tuples em dm last st <> Fault OutOfFuel
    /\ forall s' l',
         walk process_escapes cfg buf fuel max_tuples em dm last st = Ok (Next s' l') ->
         remaining_len s' = remaining_len st.
Proof.
  induction k as [|k IH]; intros fuel j dm last st Hjk Hk Hfuel Hbits.
  - assert (Hz : dm = 0).
    { apply Z.bits_inj'. intros i Hi. rewrite Z.bits_0.
      destruct (Z.testbit dm i) eqn:Hb; [|reflexivity].
      apply Hbits in Hb; lia. }
    subst dm. destruct fuel; cbn; (split; [discriminate|]);
      intros s' l' H; injection H as <- _; reflexivity.
  - destruct (Z.testbit dm j) eqn:Hb.
    + assert (Hnz : (dm =? 0) = false).
      { apply Z.eqb_neq. intros ->. rewrite Z.bits_0 in Hb. discriminate. }
      destruct fuel as [|fuel]; [lia|].
      cbn [walk]. rewrite Hnz.
      rewrite (ffs_lowest j dm); [|lia| |exact Hb].
      2:{ intros t Ht. destruct (Z.testbit dm t) eqn:Hbt; [|reflexivity].
          apply Hbits in Hbt; lia. }
      destruct (delim_step_fuel max_tuples em j last st) as [Hf Hr].
      destruct (delim_step process_escapes cfg buf max_tuples em j last st)
        as [[s1 l1|s1]|e]; cbn [bind].
      * destruct (IH fuel (j + 1)
                    (uint16 (Z.land dm (Z.lnot (SSE_BITMASK j)))) l1 s1)
          as [Hf' Hr']; [lia|lia|lia| |].
        { intros i Hi. rewrite clear_bit_testbit by lia. intros Hbi.
          apply andb_true_iff in Hbi as [Hbi Hlt].
          apply andb_true_iff in Hbi as [Hbi Hne].
          apply Hbits in Hbi; [|exact Hi].
          apply negb_true_iff, Z.eqb_neq in Hne. lia. }
        split; [exact Hf'|]. intros s' l' H. rewrite (Hr' _ _ H). apply (Hr _ _ eq_refl).
      * split; [discriminate | intros; discriminate].
      * split; [congruence | intros; discriminate].
    + apply (IH fuel (j + 1)); [lia|lia|lia|].
      intros i Hi Hbi. destruct (Z.eq_dec i j) as [->|]; [congruence|].
      apply Hbits in Hbi; lia.
Qed.

Lemma window_masks_range (w : list Z) (c : bool) em dm c' :
  window_masks process_escapes cfg w c = (em, dm, c') -> 0 <= dm < 65536.
Proof.
  unfold window_masks, ProcessEscapeMask. intros H.
  destruct process_escapes; injection H as _ <- _; apply uint16_range.
Qed.

Lemma scan_window_fuel (max_tuples : Z) (st : State) :
  scan_window process_escapes cfg buf max_tuples st <> Fault OutOfFuel
  /\ forall s' l',
       scan_window process_escapes cfg buf max_tuples st = Ok (Next s' l') ->
       remaining_len s' = remaining_len st - 16.
Proof.
  unfold scan_window.
  destruct (load_window buf (byte_buffer_ptr st)) as [w|e] eqn:E; cbn [bind].
  2:{ unfold load_window in E.
      destruct ((0 <=? byte_buffer_ptr st) && _); [discriminate|].
      injection E as <-. split; [discriminate | intros; discriminate]. }
  destruct (check_escape_char process_escapes cfg) as [[]|e] eqn:Ec; cbn [bind].
  2:{ unfold check_escape_char in Ec.
      destruct (process_escapes && (escape_char_ cfg =? 0)); [|discriminate].
      injection Ec as <-. split; [discriminate | intros; discriminate]. }
  destruct (window_masks process_escapes cfg w (last_char_is_escape_ st))
    as [[em dm] c'] eqn:Hm.
  apply window_masks_range in Hm.
  destruct (walk_fuel max_tuples em 16 16 0 dm 0
              (if process_escapes then set_last_char_is_escape_ c' st else st))
    as [Hf Hr]; [reflexivity|lia|lia| |].
  { intros i Hi Hb. split; [lia|].
    destruct (Z.lt_ge_cases i 16); [assumption|].
    rewrite (testbit_high_small dm) in Hb by lia. discriminate. }
  destruct (walk process_escapes cfg buf 16 max_tuples em dm 0 _)
    as [[s1 l1|s1]|e]; cbn [bind].
  - split; [discriminate|]. intros s' l' H. injection H as <- _.
    specialize (Hr _ _ eq_refl).
    unfold advance_window, fold_tail, CHARS_PER_128_BIT_REGISTER.
    destruct process_escapes; st_norm; st_norm_in Hr; lia.
  - split; [discriminate | intros; discriminate].
  - split; [congruence | intros; discriminate].
Qed.

Lemma ParseSse_loop_fuel (max_tuples : Z) (fuel : nat) :
  forall st, remaining_len st < 16 * (Z.of_nat fuel + 1) ->
    ParseSse_loop process_escapes cfg buf fuel max_tuples st <> Fault OutOfFuel.
Proof.
  induction fuel as [|fuel IH]; intros st Hrem.
  - cbn. unfold CHARS_PER_128_BIT_REGISTER.
    destruct (Z.geb_spec (remaining_len st) 16); [lia | discriminate].
  - cbn [ParseSse_loop]. unfold CHARS_PER_128_BIT_REGISTER.
    destruct (Z.geb_spec (remaining_len st) 16); [|discriminate].
    destruct (scan_window_fuel max_tuples st) as [Hf Hr].
    destruct (scan_window process_escapes cfg buf max_tuples st)
      as [[s1 l1|s1]|e]; cbn [bind].
    + apply IH. rewrite (Hr _ _ eq_refl). lia.
    + discriminate.
    + congruence.
Qed.

(** A call never stops for want of iterations: it returns, or it leaves the
    buffer or an output array. *)
Lemma ParseSse_never_out_of_fuel (max_tuples : Z) (st : State) :
  ParseSse process_escapes cfg buf max_tuples st <> Fault OutOfFuel.
Proof.
  unfold ParseSse, CHARS_PER_128_BIT_REGISTER. apply ParseSse_loop_fuel.
  destruct (Z.lt_ge_cases (remaining_len st) 0).
  - lia.
  - rewrite Z2Nat.id by (apply Z.div_pos; lia).
    pose proof (Z.mul_succ_div_gt (remaining_len st) 16). lia.
Qed.

End Fuel.

(** ** The end of the input a cursor denotes

    A cursor (pointer, remaining length) denotes the input up to
    [byte_buffer_ptr + remaining_len].  A full window moves the pointer and
    the length in opposite directions and leaves that end where it is; the
    early exit moves both forward. *)

Lemma ffs_from_bounds (count : nat) (i x : Z) :
  (exists t, i <= t < i + Z.of_nat count /\ Z.testbit x t = true) ->
  i + 1 <= ffs_from count i x <= i + Z.of_nat count.
Proof.
  revert i. induction count as [|count IH]; intros i (t & Ht & Hb).
  - lia.
  - cbn [ffs_from]. destruct (Z.testbit x i) eqn:Hi; [lia|].
    assert (H : i + 1 + 1 <= ffs_from count (i + 1) x <= i + 1 + Z.of_nat count).
    { apply IH. exists t. split; [|exact Hb].
      destruct (Z.eq_dec t i) as [->|]; [congruence | lia]. }
    lia.
Qed.

Lemma ffs_nonzero (x : Z) : 0 < x < 65536 -> 1 <= ffs x <= 32.
Proof.
  intros Hx. unfold ffs. apply (ffs_from_bounds 32 0 x).
  assert (Hb : to_bool x = true).
  { unfold to_bool. apply negb_true_iff, Z.eqb_neq. lia. }
  rewrite to_bool_has_bit in Hb by (intros i Hi; apply testbit_high_small; lia).
  apply has_escape_in_true in Hb as (t & Ht & Hb). exists t. split; [lia | exact Hb].
Qed.

Lemma ffs_from_upto (count : nat) :
  forall (n : nat) (i x : Z),
    (n <= count)%nat ->
    (exists t, i <= t < i + Z.of_nat n /\ Z.testbit x t = true) ->
    i + 1 <= ffs_from count i x <= i + Z.of_nat n.
Proof.
  induction count as [|count IH]; intros n i x Hn (t & Ht & Hb).
  - lia.
  - cbn [ffs_from]. destruct (Z.testbit x i) eqn:Hi; [lia|].
    assert (Hti : t <> i) by congruence.
    destruct n as [|n]; [lia|].
    assert (H : i + 1 + 1 <= ffs_from count (i + 1) x <= i + 1 + Z.of_nat n).
    { apply IH; [lia|]. exists t. split; [lia | exact Hb]. }
    lia.
Qed.

(** The checks of lines 124 and 125 never fail: the lowest set bit of a
    delimiter mask that is not 0 is a position of the window. *)
Lemma ffs_window_position (x : Z) : 0 < x < 65536 -> 0 <= ffs x - 1 < 16.
Proof.
  intros Hx. unfold ffs.
  enough (0 + 1 <= ffs_from 32 0 x <= 0 + Z.of_nat 16) by lia.
  apply ffs_from_upto; [lia|].
  assert (Hb : to_bool x = true).
  { unfold to_bool. apply negb_true_iff, Z.eqb_neq. lia. }
  rewrite to_bool_has_bit in Hb by (intros i Hi; apply testbit_high_small; lia).
  apply has_escape_in_true in Hb as (t & Ht & Hb). exists t. split; [lia | exact Hb].
Qed.

Section CursorEnd.

Variable process_escapes : bool.
Variable cfg : Config.
Variable buf : list Z.
Variable max_tuples : Z.

Lemma delim_step_end (em n last : Z) (st : State) (r : flow) :
  delim_step process_escapes cfg buf max_tuples em n last st = Ok r ->
  match r with
  | Next s' _ =>
      byte_buffer_ptr s' = byte_buffer_ptr st /\ remaining_len s' = remaining_len st
  | Return s' =>
      byte_buffer_ptr s' = byte_buffer_ptr st + (n + 1)
      /\ remaining_len s' = remaining_len st + (n + 1)
  end.
Proof.
  unfold delim_step. intros H.
  set (p := if process_escapes then (mark_escaped cfg em last n st, n) else (st, last)) in H.
  assert (Hp : byte_buffer_ptr (fst p) = byte_buffer_ptr st
               /\ remaining_len (fst p) = remaining_len st).
  { unfold p. destruct process_escapes; cbn; auto. }
  destruct p as [s0 l0]. cbn [fst] in Hp. destruct Hp as [Hp0 Hr0].
  inv_bind H. inv_bind H.
  apply AddColumn_frame in E as (Ha1 & Ha2 & _).
  destruct (a0 =? tuple_delim_ cfg).
  - inv_bind H. apply record_tuple_end_frame in E as (Hb1 & Hb2 & _).
    destruct (num_tuples a1 =? max_tuples); injection H as <-.
    + unfold early_exit. destruct process_escapes; st_norm; lia.
    + lia.
  - injection H as <-. lia.
Qed.

Lemma walk_end (fuel : nat) (em dm last : Z) (st : State) (r : flow) :
  0 <= dm < 65536 ->
  walk process_escapes cfg buf fuel max_tuples em dm last st = Ok r ->
  match r with
  | Next s' _ =>
      byte_buffer_ptr s' = byte_buffer_ptr st /\ remaining_len s' = remaining_len st
  | Return s' =>
      byte_buffer_ptr st + remaining_len st
      < byte_buffer_ptr s' + remaining_len s'
  end.
Proof.
  revert dm last st. induction fuel as [|fuel IH]; intros dm last st Hdm H.
  - cbn in H. destruct (dm =? 0); [|discriminate H]. injection H as <-. auto.
  - cbn [walk] in H. destruct (Z.eqb_spec dm 0); [injection H as <-; auto|].
    pose proof (ffs_nonzero dm) as Hffs.
    inv_bind H. apply delim_step_end in E.
    destruct a as [s l|s].
    + apply IH in H; [|apply uint16_range].
      destruct E as [Hp Hr]. destruct r; rewrite <- Hp, <- Hr; exact H.
    + injection H as <-. lia.
Qed.

Lemma scan_window_end (st : State) (r : flow) :
  scan_window process_escapes cfg buf max_tuples st = Ok r ->
  match r with
  | Next s' _ =>
      byte_buffer_ptr s' + remaining_len s' = byte_buffer_ptr st + remaining_len st
  | Return s' =>
      byte_buffer_ptr st + remaining_len st
      < byte_buffer_ptr s' + remaining_len s'
  end.
Proof.
  unfold scan_window. intros H. inv_bind H. inv_bind H. clear E0. destruct a0.
  destruct (window_masks process_escapes cfg a (last_char_is_escape_ st))
    as [[em dm] c'] eqn:Hm.
  apply window_masks_range in Hm.
  inv_bind H. apply walk_end in E0; [|exact Hm].
  destruct a0 as [s l|s]; injection H as <-.
  - unfold advance_window, fold_tail, CHARS_PER_128_BIT_REGISTER.
    destruct process_escapes; st_norm; st_norm_in E0; lia.
  - destruct process_escapes; st_norm_in E0; exact E0.
Qed.

(** A call that starts with its tuple counter below the bound and reaches
    the bound leaves a cursor that denotes a later end of input than the
    cursor it was given; a call that does not reach the bound leaves the end
    where it was. *)
Lemma ParseSse_bound_moves_end (st st' : State) :
  num_tuples st < max_tuples ->
  ParseSse process_escapes cfg buf max_tuples st = Ok st' ->
  (num_tuples st' = max_tuples ->
   byte_buffer_ptr st + remaining_len st < byte_buffer_ptr st' + remaining_len st')
  /\ (num_tuples st' < max_tuples ->
      byte_buffer_ptr st' + remaining_len st' = byte_buffer_ptr st + remaining_len st).
Proof.
  unfold ParseSse.
  generalize (Z.to_nat (remaining_len st / CHARS_PER_128_BIT_REGISTER)) as fuel.
  intros fuel. revert st. induction fuel as [|fuel IH]; intros st Hlt H.
  - cbn in H. destruct (remaining_len st >=? _); [discriminate H|].
    injection H as <-. split; intros; lia.
  - cbn [ParseSse_loop] in H.
    destruct (remaining_len st >=? _); [|injection H as <-; split; intros; lia].
    inv_bind H.
    pose proof (scan_window_bound _ _ _ _ _ _ Hlt E) as Hn.
    apply scan_window_end in E.
    destruct a as [s l|s].
    + apply IH in H as [H1 H2]; [|exact Hn]. split; intros; [rewrite <- E; auto|].
      rewrite <- E. auto.
    + injection H as <-. split; intros; lia.
Qed.

End CursorEnd.

(** ** Further properties of ProcessEscapeMask *)

Lemma correct_escape_mask_testbit_Z (e : Z) (c : bool) (i : Z) :
  0 <= e < 65536 -> 0 <= i < 16 ->
  Z.testbit (correct_escape_mask e c) i = active_escape e c (Z.to_nat i).
Proof.
  intros He Hi. rewrite <- (Z2Nat.id i) at 1 by lia.
  apply correct_escape_mask_testbit; [exact He | lia].
Qed.

Lemma active_escape_raw (e : Z) (c : bool) (i : nat) :
  active_escape e c i = Z.testbit e (Z.of_nat i) && negb (escaped_at e c i).
Proof. destruct i; reflexivity. Qed.

(** X1.  The loop of lines 15-20 only clears bits of a 16-bit escape mask,
    and it leaves no two neighbouring positions set: an escape character
    right behind an active escape is never active itself, and position 0 is
    not active when the carry comes in. *)
Theorem corrected_escapes_are_isolated (e : Z) (c : bool) :
  0 <= e < 65536 ->
  Z.land (correct_escape_mask e c) e = correct_escape_mask e c
  /\ Z.land (correct_escape_mask e c) (Z.shiftl (correct_escape_mask e c) 1) = 0
  /\ (c = true -> Z.testbit (correct_escape_mask e c) 0 = false).
Proof.
  intros He. pose proof (correct_escape_mask_range e c He) as Hr.
  split; [|split].
  - apply Z.bits_inj'. intros i Hi. rewrite Z.land_spec.
    destruct (Z.lt_ge_cases i 16).
    + rewrite correct_escape_mask_testbit_Z, active_escape_raw, Z2Nat.id by lia.
      destruct (Z.testbit e i); cbn [andb]; [rewrite andb_true_r|]; reflexivity.
    + rewrite (testbit_high_small (correct_escape_mask e c)) by lia. reflexivity.
  - apply Z.bits_inj'. intros i Hi. rewrite Z.land_spec, Z.bits_0, Z.shiftl_spec by lia.
    destruct (Z.eq_dec i 0) as [->|Hne].
    + rewrite (Z.testbit_neg_r _ (0 - 1)) by lia. apply andb_false_r.
    + destruct (Z.lt_ge_cases i 16).
      * rewrite !correct_escape_mask_testbit_Z by lia.
        replace (Z.to_nat i) with (S (Z.to_nat (i - 1))) by lia.
        rewrite (active_escape_raw e c (S _)). cbn [escaped_at].
        destruct (active_escape e c (Z.to_nat (i - 1)));
          destruct (Z.testbit e _); reflexivity.
      * rewrite (testbit_high_small (correct_escape_mask e c) i) by lia. reflexivity.
  - intros ->. rewrite (correct_escape_mask_testbit_Z e true 0) by lia.
    cbn. apply andb_false_r.
Qed.

Lemma corrected_escapes_are_isolated_witness :
  Z.land (correct_escape_mask 7 false) 7 = correct_escape_mask 7 false
  /\ correct_escape_mask 7 false = 5.
Proof.
  assert (He : 0 <= 7 < 65536) by lia.
  destruct (corrected_escapes_are_isolated 7 false He) as (Hsub & _).
  split; [exact Hsub | reflexivity].
Defined.

(** X2.  A window without escape characters: no carry goes out, and the
    16-bit delimiter mask is left as it is, except that bit 0 is cleared when
    the carry came in. *)
Theorem ProcessEscapeMask_no_escapes (c : bool) (d : Z) :
  0 <= d < 65536 ->
  ProcessEscapeMask 0 c d = (false, if c then Z.land d 65534 else d).
Proof.
  intros Hd. unfold ProcessEscapeMask.
  assert (H0 : correct_escape_mask 0 c = 0) by (destruct c; reflexivity).
  rewrite H0. f_equal.
  apply Z.bits_inj'. intros i Hi.
  rewrite uint16_testbit, Z.land_spec, Z.lnot_spec by lia.
  destruct (Z.lt_ge_cases i 16) as [Hlt|Hge].
  - rewrite shifted_mask_testbit by lia.
    replace (i <? 16) with true by (symmetry; apply Z.ltb_lt; lia).
    rewrite andb_true_r, Z.bits_0.
    destruct c.
    + rewrite Z.land_spec. f_equal.
      change 65534 with (Z.lnot 1 + 65536).
      destruct (Z.eqb_spec i 0) as [->|Hne]; [reflexivity|].
      symmetry. change (Z.lnot 1 + 65536) with 65534.
      replace 65534 with (Z.shiftl (Z.ones 15) 1) by reflexivity.
      rewrite Z.shiftl_spec, Z.testbit_ones_nonneg by lia.
      apply Z.ltb_lt. lia.
    + destruct (i =? 0); apply andb_true_r.
  - replace (i <? 16) with false by (symmetry; apply Z.ltb_ge; lia).
    rewrite andb_false_r. symmetry.
    destruct c; [rewrite Z.land_spec|]; rewrite (testbit_high_small d) by lia; reflexivity.
Qed.

Lemma ProcessEscapeMask_no_escapes_witness :
  ProcessEscapeMask 0 true 35 = (false, 34).
Proof.
  assert (Hd : 0 <= 35 < 65536) by lia.
  exact (ProcessEscapeMask_no_escapes true 35 Hd).
Defined.

Lemma escaped_at_run (e : Z) (c : bool) (j t : nat) :
  (forall i, Z.of_nat j <= i < Z.of_nat (j + t) -> Z.testbit e i = true) ->
  escaped_at e c (j + t) = xorb (escaped_at e c j) (Nat.odd t).
Proof.
  induction t as [|t IH]; intros Hrun.
  - rewrite Nat.add_0_r. cbn. symmetry. apply xorb_false_r.
  - replace (j + S t)%nat with (S (j + t)) by lia.
    rewrite escaped_at_succ, Hrun, IH by (intros; try apply Hrun; lia).
    rewrite Nat.odd_succ, <- Nat.negb_odd.
    destruct (escaped_at e c j), (Nat.odd t); reflexivity.
Qed.

(** X3.  The carry that goes out is the parity of the run of escape
    characters at the end of the window: when the last [k] positions of a
    16-bit escape mask are set and the position before them is not, the carry
    is set iff [k] is odd; when all 16 are set, the carry that came in goes
    out again. *)
Theorem carry_is_parity_of_trailing_run (e : Z) (c : bool) (d : Z) (k : nat) :
  0 <= e < 65536 -> (k <= 16)%nat ->
  (forall i, 16 - Z.of_nat k <= i < 16 -> Z.testbit e i = true) ->
  ((k < 16)%nat -> Z.testbit e (15 - Z.of_nat k) = false) ->
  fst (ProcessEscapeMask e c d) = if (k <? 16)%nat then Nat.odd k else c.
Proof.
  intros He Hk Hrun Hstop.
  rewrite ProcessEscapeMask_carry.
  rewrite (correct_escape_mask_testbit_Z e c 15) by lia.
  change (active_escape e c (Z.to_nat 15)) with (escaped_at e c 16).
  replace 16%nat with ((16 - k) + k)%nat at 1 by lia.
  rewrite escaped_at_run by (intros i Hi; apply Hrun; lia).
  destruct (Nat.ltb_spec k 16) as [Hlt|Hge].
  - replace (16 - k)%nat with (S (15 - k)) by lia. cbn [escaped_at].
    rewrite active_escape_raw.
    replace (Z.of_nat (15 - k)) with (15 - Z.of_nat k) by lia.
    rewrite (Hstop Hlt). reflexivity.
  - replace k with 16%nat by lia. cbn. apply xorb_false_r.
Qed.

Lemma carry_is_parity_of_trailing_run_witness :
  fst (ProcessEscapeMask 57344 false 0) = true.
Proof.
  apply (carry_is_parity_of_trailing_run 57344 false 0 3).
  - lia.
  - lia.
  - intros i Hi. assert (Hc : i = 13 \/ i = 14 \/ i = 15) by lia.
    destruct Hc as [-> | [-> | ->]]; reflexivity.
  - intros _. reflexivity.
Defined.

(** ** Further properties of AddColumn *)

Lemma AddColumn_result (process_escapes : bool) (cfg : Config) (column_len : Z)
    (st st' : State) :
  AddColumn process_escapes cfg column_len st = Ok st' ->
  next_column_start st' = next_column_start st + (column_len + 1)
  /\ column_idx_ st' = column_idx_ st + 1
  /\ current_column_has_escape_ st'
     = (if process_escapes then false else current_column_has_escape_ st)
  /\ ((ReturnCurrentColumn cfg st = false
       /\ history st' = history st
       /\ field_locations st' = field_locations st
       /\ num_fields st' = num_fields st)
      \/ (ReturnCurrentColumn cfg st = true
          /\ 0 <= num_fields st < Z.of_nat (length (field_locations st))
          /\ history st'
             = history st
               ++ [FieldWritten (column_idx_ st)
                     {| start := next_column_start st;
                        len := if process_escapes && current_column_has_escape_ st
                               then - column_len else column_len |}]
          /\ field_locations st'
             = <[Z.to_nat (num_fields st) :=
                   {| start := next_column_start st;
                      len := if process_escapes && current_column_has_escape_ st
                             then - column_len else column_len |}]>
                 (field_locations st)
          /\ num_fields st' = num_fields st + 1)).
Proof.
  unfold AddColumn. intros H.
  destruct (ReturnCurrentColumn cfg st) eqn:Hret.
  - destruct ((0 <=? num_fields st)
              && (num_fields st <? Z.of_nat (length (field_locations st)))) eqn:Hcap;
      [|discriminate H].
    apply andb_true_iff in Hcap as [H0 H1]. apply Z.leb_le in H0. apply Z.ltb_lt in H1.
    cbn [bind] in H. injection H as <-.
    destruct process_escapes; cbn; repeat split; try reflexivity; right;
      repeat split; try reflexivity; lia.
  - cbn [bind] in H. injection H as <-.
    destruct process_escapes; cbn; repeat split; try reflexivity; left;
      repeat split; reflexivity.
Qed.

(** X4.  [AddColumn] fails in one case only: the column is to be
    materialized and the field counter is no slot of the output (the DCHECK
    of line 38); a column that is skipped never fails, whatever the counter
    is. *)
Theorem AddColumn_fails_iff_no_slot (process_escapes : bool) (cfg : Config)
    (column_len : Z) (st : State) (e : error) :
  AddColumn process_escapes cfg column_len st = Fault e
  <-> e = CapacityExceeded
      /\ ReturnCurrentColumn cfg st = true
      /\ ~ (0 <= num_fields st < Z.of_nat (length (field_locations st))).
Proof.
  unfold AddColumn.
  destruct (ReturnCurrentColumn cfg st).
  - destruct ((0 <=? num_fields st)
              && (num_fields st <? Z.of_nat (length (field_locations st)))) eqn:Hcap;
      cbn [bind].
    + apply andb_true_iff in Hcap as [H0 H1]. apply Z.leb_le in H0. apply Z.ltb_lt in H1.
      split; [discriminate|]. intros (_ & _ & Hn). lia.
    + split.
      * intros H. injection H as <-. split; [reflexivity|]. split; [reflexivity|].
        intros [H0 H1]. apply Z.leb_le in H0. apply Z.ltb_lt in H1.
        rewrite H0, H1 in Hcap. discriminate.
      * intros (-> & _). reflexivity.
  - cbn [bind]. split; [discriminate|]. intros (_ & Hf & _). discriminate.
Qed.

(** X5.  A call of [AddColumn] that returns keeps the size of the output,
    writes no slot but the one at the field counter, and leaves the cursor,
    the carry and the tuple array and counter alone. *)
Theorem AddColumn_writes_one_slot (process_escapes : bool) (cfg : Config)
    (column_len : Z) (st st' : State) :
  AddColumn process_escapes cfg column_len st = Ok st' ->
  length (field_locations st') = length (field_locations st)
  /\ (forall i : nat, i <> Z.to_nat (num_fields st) ->
        field_locations st' !! i = field_locations st !! i)
  /\ byte_buffer_ptr st' = byte_buffer_ptr st
  /\ remaining_len st' = remaining_len st
  /\ last_char_is_escape_ st' = last_char_is_escape_ st
  /\ num_tuples st' = num_tuples st
  /\ row_end_locations st' = row_end_locations st.
Proof.
  intros H.
  pose proof (AddColumn_frame _ _ _ _ _ H) as (Hp & Hr & Hc & Hn & Hrow).
  apply AddColumn_result in H as (_ & _ & _ & [(_ & _ & Hf & _) | (_ & _ & _ & Hf & _)]);
    rewrite Hf; repeat split; try assumption.
  - apply length_insert.
  - intros i Hi. apply list_lookup_insert_ne. congruence.
Qed.

Lemma AddColumn_writes_one_slot_witness :
  exists st',
    AddColumn true escape_config 4 (set_num_fields 3 (initial_state 0 16)) = Ok st'
    /\ length (field_locations st') = 10%nat
    /\ field_locations st' !! 2%nat = Some {| start := 0; len := 0 |}
    /\ row_end_locations st' = repeat 0 4.
Proof.
  eexists. split; [vm_compute; reflexivity|].
  match goal with
  | |- length (field_locations ?s) = _ /\ _ =>
      destruct (AddColumn_writes_one_slot true escape_config 4
                  (set_num_fields 3 (initial_state 0 16)) s)
        as (Hlen & Hother & _ & _ & _ & _ & Hrow); [vm_compute; reflexivity|]
  end.
  split; [exact Hlen|]. split; [|exact Hrow].
  rewrite Hother by (vm_compute; discriminate). reflexivity.
Defined.

(** X6.  What a reader of the output gets back from a materialized
    column of length [column_len >= 0]: the slot at the field counter holds
    the start of the column, the magnitude of its length is [column_len], the
    next column starts one byte behind its end, and for a column that is not
    empty the sign of the length tells whether the column was flagged under
    escape processing.  An empty column is written with length 0 whether
    flagged or not. *)
Theorem AddColumn_read_back (process_escapes : bool) (cfg : Config)
    (column_len : Z) (st st' : State) :
  ReturnCurrentColumn cfg st = true ->
  0 <= column_len ->
  AddColumn process_escapes cfg column_len st = Ok st' ->
  exists loc,
    field_locations st' !! Z.to_nat (num_fields st) = Some loc
    /\ start loc = next_column_start st
    /\ Z.abs (len loc) = column_len
    /\ next_column_start st' = start loc + Z.abs (len loc) + 1
    /\ (0 < column_len ->
        (len loc < 0 <-> process_escapes && current_column_has_escape_ st = true))
    /\ (column_len = 0 -> len loc = 0).
Proof.
  intros Hret Hlen H.
  apply AddColumn_result in H
    as (Hn & _ & _ & [(Hf & _) | (_ & Hcap & _ & Hfl & _)]); [congruence|].
  eexists. split.
  - rewrite Hfl. apply list_lookup_insert_eq. lia.
  - cbn [start len].
    destruct (process_escapes && current_column_has_escape_ st);
      repeat split; try lia; try discriminate; intros; try reflexivity; lia.
Qed.

Lemma AddColumn_read_back_witness :
  exists st' loc,
    AddColumn true escape_config 4
      (set_current_column_has_escape_ true (initial_state 0 16)) = Ok st'
    /\ field_locations st' !! 0%nat = Some loc
    /\ Z.abs (len loc) = 4
    /\ next_column_start st' = start loc + Z.abs (len loc) + 1.
Proof.
  eexists.
  match goal with
  | |- exists loc, ?run = Ok ?s /\ _ =>
      assert (Hrun : run = Ok s) by (vm_compute; reflexivity)
  end.
  destruct (AddColumn_read_back true escape_config 4 _ _ eq_refl ltac:(lia) Hrun)
    as (loc & Hl & _ & Habs & Hnext & _).
  exists loc. repeat split; assumption.
Defined.

(** ** What a call writes, read off the bytes it consumed *)

Section ScanInvariants.

Variable process_escapes : bool.
Variable cfg : Config.
Variable buf : list Z.

Lemma scan_bytes_inv (Inv : State -> Prop) :
  (forall b s s',
     Inv s -> read_byte buf (byte_buffer_ptr s) = Ok b ->
     scan_byte process_escapes cfg b s = Ok s' -> Inv s') ->
  forall m st st',
    Inv st -> scan_bytes process_escapes cfg buf m st = Ok st' -> Inv st'.
Proof.
  intros Hstep. induction m as [|m IH]; intros st st' HI H.
  - injection H as <-. exact HI.
  - cbn [scan_bytes] in H. inv_bind H. inv_bind H.
    eapply IH; [|exact H]. eapply Hstep; eassumption.
Qed.

Lemma scan_byte_cases (b : Z) (s s' : State) :
  (process_escapes = true -> escape_is_no_delim cfg) ->
  scan_byte process_escapes cfg b s = Ok s' ->
  (is_delim cfg b && negb (process_escapes && last_char_is_escape_ s) = false
   /\ s' = set_byte_buffer_ptr (byte_buffer_ptr s + 1)
             (if process_escapes
              then set_last_char_is_escape_
                     (is_escape cfg b && negb (last_char_is_escape_ s))
                     (set_current_column_has_escape_
                        (current_column_has_escape_ s || is_escape cfg b) s)
              else s))
  \/ (is_delim cfg b = true
      /\ (process_escapes = true ->
          last_char_is_escape_ s = false /\ is_escape cfg b = false)
      /\ exists s1,
           AddColumn process_escapes cfg
             (int32 (byte_buffer_ptr s - next_column_start s))
             (if process_escapes then set_last_char_is_escape_ false s else s) = Ok s1
           /\ s' = set_byte_buffer_ptr (byte_buffer_ptr s + 1)
                     (if b =? tuple_delim_ cfg
                      then end_tuple cfg (byte_buffer_ptr s) s1 else s1)).
Proof.
  intros Hne H.
  destruct (is_delim cfg b && negb (process_escapes && last_char_is_escape_ s)) eqn:Hc.
  - right. apply andb_true_iff in Hc as [Hd Hn].
    assert (Hesc : process_escapes = true ->
                   last_char_is_escape_ s = false /\ is_escape cfg b = false).
    { intros Hpe. rewrite Hpe in Hn. cbn [andb] in Hn. apply negb_true_iff in Hn.
      split; [exact Hn|]. apply delimiter_is_no_escape; [exact (Hne Hpe) | exact Hd]. }
    rewrite scan_byte_at_delim in H.
    2:{ rewrite Hd, Hn. reflexivity. }
    2:{ intros Hpe. apply (Hesc Hpe). }
    inv_bind H. injection H as <-.
    split; [exact Hd|]. split; [exact Hesc|]. exists a. split; reflexivity.
  - left. rewrite scan_byte_other in H by exact Hc. injection H as <-.
    split; reflexivity.
Qed.

(** What one byte of the scan does to the column state and to the events
    written: nothing ends, or a column ends at the byte. *)
Lemma scan_byte_effect (b : Z) (s s' : State) :
  (process_escapes = true -> escape_is_no_delim cfg) ->
  scan_byte process_escapes cfg b s = Ok s' ->
  byte_buffer_ptr s' = byte_buffer_ptr s + 1
  /\ ((is_delim cfg b && negb (process_escapes && last_char_is_escape_ s) = false
       /\ history s' = history s
       /\ next_column_start s' = next_column_start s
       /\ current_column_has_escape_ s'
          = (if process_escapes
             then current_column_has_escape_ s || is_escape cfg b
             else current_column_has_escape_ s)
       /\ last_char_is_escape_ s'
          = (if process_escapes
             then is_escape cfg b && negb (last_char_is_escape_ s)
             else last_char_is_escape_ s))
      \/ (is_delim cfg b = true
          /\ (process_escapes = true -> is_escape cfg b = false)
          /\ next_column_start s'
             = next_column_start s
               + (int32 (byte_buffer_ptr s - next_column_start s) + 1)
          /\ current_column_has_escape_ s'
             = (if process_escapes then false else current_column_has_escape_ s)
          /\ last_char_is_escape_ s'
             = (if process_escapes then false else last_char_is_escape_ s)
          /\ exists fevs,
               (fevs = []
                \/ fevs
                   = [FieldWritten (column_idx_ s)
                        {| start := next_column_start s;
                           len := if process_escapes && current_column_has_escape_ s
                                  then - int32 (byte_buffer_ptr s
                                                - next_column_start s)
                                  else int32 (byte_buffer_ptr s
                                              - next_column_start s) |}])
               /\ history s'
                  = history s ++ fevs
                    ++ (if b =? tuple_delim_ cfg
                        then [TupleEnd (byte_buffer_ptr s)] else []))).
Proof.
  intros Hne H.
  apply (scan_byte_cases b s s' Hne) in H
    as [(Hc & ->) | (Hd & Hesc & s1 & Ha & ->)].
  - split; [reflexivity|]. left. split; [exact Hc|].
    destruct process_escapes; repeat split; reflexivity.
  - split; [reflexivity|]. right. split; [exact Hd|].
    split; [intros Hpe; apply (Hesc Hpe)|].
    pose proof (AddColumn_frame _ _ _ _ _ Ha) as (_ & _ & Hc1 & _).
    apply AddColumn_result in Ha as (Hn & _ & Hf & Hout).
    remember (if process_escapes then set_last_char_is_escape_ false s else s)
      as s0 eqn:Hs0.
    assert (E1 : next_column_start s0 = next_column_start s)
      by (subst s0; destruct process_escapes; reflexivity).
    assert (E2 : current_column_has_escape_ s0 = current_column_has_escape_ s)
      by (subst s0; destruct process_escapes; reflexivity).
    assert (E3 : history s0 = history s)
      by (subst s0; destruct process_escapes; reflexivity).
    assert (E4 : column_idx_ s0 = column_idx_ s)
      by (subst s0; destruct process_escapes; reflexivity).
    assert (E5 : last_char_is_escape_ s0
                 = (if process_escapes then false else last_char_is_escape_ s))
      by (subst s0; destruct process_escapes; reflexivity).
    rewrite E1 in Hn. rewrite E2 in Hf. rewrite ?E1, ?E2, ?E3, ?E4 in Hout.
    rewrite E5 in Hc1. clear Hs0 E1 E2 E3 E4 E5.
    assert (Hproj : forall t : State,
              next_column_start
                (set_byte_buffer_ptr (byte_buffer_ptr s + 1)
                   (if b =? tuple_delim_ cfg then end_tuple cfg (byte_buffer_ptr s) t else t))
              = next_column_start t
              /\ current_column_has_escape_
                   (set_byte_buffer_ptr (byte_buffer_ptr s + 1)
                      (if b =? tuple_delim_ cfg
                       then end_tuple cfg (byte_buffer_ptr s) t else t))
                 = current_column_has_escape_ t
              /\ last_char_is_escape_
                   (set_byte_buffer_ptr (byte_buffer_ptr s + 1)
                      (if b =? tuple_delim_ cfg
                       then end_tuple cfg (byte_buffer_ptr s) t else t))
                 = last_char_is_escape_ t
              /\ history
                   (set_byte_buffer_ptr (byte_buffer_ptr s + 1)
                      (if b =? tuple_delim_ cfg
                       then end_tuple cfg (byte_buffer_ptr s) t else t))
                 = history t ++ (if b =? tuple_delim_ cfg
                                 then [TupleEnd (byte_buffer_ptr s)] else [])).
    { intros t. destruct (b =? tuple_delim_ cfg); repeat split; try reflexivity.
      cbn. symmetry. apply app_nil_r. }
    destruct (Hproj s1) as (-> & -> & -> & ->).
    split; [exact Hn|]. split; [exact Hf|]. split; [exact Hc1|].
    destruct Hout as [(_ & Hh & _) | (_ & _ & Hh & _)]; rewrite Hh.
    + exists []. split; [left; reflexivity|]. rewrite app_nil_l. reflexivity.
    + eexists. split; [right; reflexivity|]. rewrite <- app_assoc. reflexivity.
Qed.

End ScanInvariants.

(** ** What a call of the scan loop writes, byte by byte *)

Lemma read_byte_inv (buf : list Z) (p b : Z) :
  read_byte buf p = Ok b ->
  0 <= p < Z.of_nat (length buf) /\ buf !! Z.to_nat p = Some b.
Proof.
  unfold read_byte. intros H.
  destruct ((0 <=? p) && (p <? Z.of_nat (length buf))) eqn:Hc; [|discriminate H].
  apply andb_true_iff in Hc as [H0 H1]. apply Z.leb_le in H0. apply Z.ltb_lt in H1.
  injection H as <-. split; [lia|].
  destruct (lookup_lt_is_Some_2 buf (Z.to_nat p)) as [x Hx]; [lia|].
  rewrite Hx. f_equal. symmetry. apply nth_lookup_Some with (d := 0) in Hx. exact Hx.
Qed.

Lemma bytes_between_snoc (buf : list Z) (from p b : Z) :
  0 <= from <= p -> read_byte buf p = Ok b ->
  bytes_between buf from (p + 1) = bytes_between buf from p ++ [b].
Proof.
  intros Hle H. apply read_byte_inv in H as [Hp Hb]. unfold bytes_between.
  replace (Z.to_nat (p + 1 - from)) with (S (Z.to_nat (p - from))) by lia.
  apply take_S_r. rewrite lookup_drop.
  replace (Z.to_nat from + Z.to_nat (p - from))%nat with (Z.to_nat p) by lia.
  exact Hb.
Qed.

Lemma occurrences_app (b : Z) (xs ys : list Z) :
  occurrences b (xs ++ ys) = occurrences b xs + occurrences b ys.
Proof. induction xs as [|x xs IH]; cbn [app occurrences]; lia. Qed.

Lemma is_delim_tuple_delim (cfg : Config) (b : Z) :
  (b =? tuple_delim_ cfg) = true -> is_delim cfg b = true.
Proof.
  unfold is_delim. intros ->. rewrite orb_true_r. reflexivity.
Qed.

Lemma in_new_events (e : Event) (old fevs tl : list Event) :
  In e (old ++ fevs ++ tl) -> In e old \/ In e fevs \/ In e tl.
Proof.
  intros H. apply in_app_or in H as [H|H]; [auto|].
  apply in_app_or in H as [H|H]; auto.
Qed.



(** X8.  When the delimiter register holds only delimiters, and a call of
    [ParseSse] starts with next-column-start at or before the cursor and the
    end of the buffer less than [2^31] bytes behind next-column-start (no
    column is too long for the [int] of line 138): every field location the
    call writes lies in the part of the buffer between the
    next-column-start the call was given and the one it leaves, and the byte
    right after the field, at offset start plus the absolute value of the
    length, is a delimiter. *)
Theorem fields_end_at_delimiters (process_escapes : bool) (cfg : Config)
    (buf : list Z) (max_tuples : Z) (st st' : State) :
  (forall b, in_needle (xmm_delim_search_ cfg) b = true -> is_delim cfg b = true) ->
  next_column_start st <= byte_buffer_ptr st ->
  Z.of_nat (length buf) - next_column_start st < 2147483648 ->
  ParseSse process_escapes cfg buf max_tuples st = Ok st' ->
  next_column_start st <= next_column_start st' <= byte_buffer_ptr st'
  /\ forall column loc,
       In (FieldWritten column loc) (history st') ->
       In (FieldWritten column loc) (history st)
       \/ (next_column_start st <= start loc
           /\ start loc + Z.abs (len loc) < next_column_start st'
           /\ exists b,
                read_byte buf (start loc + Z.abs (len loc)) = Ok b
                /\ is_delim cfg b = true).
Proof.
  intros Hreg Hstart Hint H.
  refine (ParseSse_pos process_escapes cfg buf max_tuples
            (fun lo s =>
               next_column_start st <= next_column_start s <= lo
               /\ forall column loc,
                    In (FieldWritten column loc) (history s) ->
                    In (FieldWritten column loc) (history st)
                    \/ (next_column_start st <= start loc
                        /\ start loc + Z.abs (len loc) < next_column_start s
                        /\ exists b,
                             read_byte buf (start loc + Z.abs (len loc)) = Ok b
                             /\ is_delim cfg b = true))
            _ _ _ _ _ _ st st' _ H); cbv beta.
  - intros lo lo' s Hlo [H1 H2]. split; [lia | exact H2].
  - intros _ lo v s Hs. exact Hs.
  - intros _ lo v s Hs. exact Hs.
  - intros lo v s Hs. exact Hs.
  - intros lo v s Hs. exact Hs.
  - intros lo q b s s1 [Hn Hall] Hq Hrd Hin Ha.
    pose proof (read_byte_fault_free _ _ _ Hrd) as Hrange.
    rewrite int32_small in Ha by lia.
    apply AddColumn_result in Ha as (Hn1 & _ & _ & Hout).
    assert (Hs1 : next_column_start st <= next_column_start s1 <= q + 1
                  /\ forall column loc,
                       In (FieldWritten column loc) (history s1) ->
                       In (FieldWritten column loc) (history st)
                       \/ (next_column_start st <= start loc
                           /\ start loc + Z.abs (len loc) < next_column_start s1
                           /\ exists b,
                                read_byte buf (start loc + Z.abs (len loc)) = Ok b
                                /\ is_delim cfg b = true)).
    { split; [lia|]. intros column loc Hev.
      assert (Hold : In (FieldWritten column loc) (history s) ->
                     In (FieldWritten column loc) (history st)
                     \/ (next_column_start st <= start loc
                         /\ start loc + Z.abs (len loc) < next_column_start s1
                         /\ exists b,
                              read_byte buf (start loc + Z.abs (len loc)) = Ok b
                              /\ is_delim cfg b = true)).
      { intros Hi. destruct (Hall column loc Hi) as [Ho | (A & B & C)];
          [left; exact Ho|]. right. split; [exact A|]. split; [lia | exact C]. }
      destruct Hout as [(_ & Hh & _) | (_ & _ & Hh & _)]; rewrite Hh in Hev;
        [exact (Hold Hev)|].
      apply in_app_or in Hev as [Hev | [Hev | []]]; [exact (Hold Hev)|].
      injection Hev as _ <-. cbn [start len].
      assert (Habs : Z.abs (if process_escapes && current_column_has_escape_ s
                            then - (q - next_column_start s)
                            else q - next_column_start s)
                     = q - next_column_start s).
      { destruct (process_escapes && current_column_has_escape_ s); lia. }
      rewrite Habs. right. split; [lia|]. split; [lia|].
      exists b. split; [|exact (Hreg b Hin)].
      replace (next_column_start s + (q - next_column_start s)) with q by lia.
      exact Hrd. }
    destruct (b =? tuple_delim_ cfg); [|exact Hs1].
    intros s2 Ht. destruct Hs1 as [Hn2 Hall2].
    pose proof (record_tuple_end_start _ _ _ _ Ht) as Hst.
    apply record_tuple_end_frame in Ht as (_ & _ & _ & _ & _ & Hh).
    rewrite Hst. split; [exact Hn2|]. intros column loc Hev. rewrite Hh in Hev.
    apply in_app_or in Hev as [Hev | [Hev | []]]; [|discriminate Hev].
    exact (Hall2 column loc Hev).
  - split; [lia|]. intros column loc Hev. left. exact Hev.
Qed.

Lemma fields_end_at_delimiters_witness :
  exists st',
    ParseSse true escape_config two_tuples 2 (initial_state 0 32) = Ok st'
    /\ next_column_start (initial_state 0 32) <= next_column_start st'
       <= byte_buffer_ptr st'
    /\ forall column loc,
         In (FieldWritten column loc) (history st') ->
         In (FieldWritten column loc) (history (initial_state 0 32))
         \/ (next_column_start (initial_state 0 32) <= start loc
             /\ start loc + Z.abs (len loc) < next_column_start st'
             /\ exists b,
                  read_byte two_tuples (start loc + Z.abs (len loc)) = Ok b
                  /\ is_delim escape_config b = true).
Proof.
  eexists. split; [vm_compute; reflexivity|].
  apply (fields_end_at_delimiters true escape_config two_tuples 2).
  - intros b Hb. pose proof (in_needle_no_nul _ _ Hb) as Hnz.
    rewrite <- (proj1 (proj2 registers_ok_example) b Hnz). exact Hb.
  - vm_compute. discriminate.
  - vm_compute. reflexivity.
  - vm_compute. reflexivity.
Defined.

(** X9.  With escape processing, on a buffer that holds no NUL byte, with
    the search registers holding the delimiters and the escape character,
    the tables as the comments of the code describe them and an escape
    character that is no delimiter: a call of [ParseSse] that starts with
    next-column-start at or before the cursor, the end of the buffer less than
    [2^31] bytes behind next-column-start, and the escape flag of the column
    in progress in agreement with the bytes of that column so far, leaves
    the flag in agreement, and writes a negative length exactly for the
    fields that hold an escape character among their bytes. *)
Theorem negative_length_iff_escape_in_field (cfg : Config) (buf : list Z)
    (max_tuples : Z) (st st' : State) :
  tables_ok cfg -> escape_is_no_delim cfg ->
  registers_ok true cfg -> no_nul buf ->
  next_column_start st <= byte_buffer_ptr st ->
  Z.of_nat (length buf) - next_column_start st < 2147483648 ->
  (current_column_has_escape_ st = true
   <-> has_escape_between cfg buf (next_column_start st) (byte_buffer_ptr st)) ->
  ParseSse true cfg buf max_tuples st = Ok st' ->
  (current_column_has_escape_ st' = true
   <-> has_escape_between cfg buf (next_column_start st') (byte_buffer_ptr st'))
  /\ forall column loc,
       In (FieldWritten column loc) (history st') ->
       In (FieldWritten column loc) (history st)
       \/ (len loc < 0
           <-> has_escape_between cfg buf (start loc) (start loc + Z.abs (len loc))).
Proof.
  intros Htab Hne Hreg Hnul Hstart Hint Hflag H.
  destruct (ParseSse_ref true cfg buf (fun _ => conj Htab Hne) Hreg Hnul
              max_tuples st st' H)
    as (m & Hr & _).
  enough (Hinv : next_column_start st <= next_column_start st' <= byte_buffer_ptr st'
                 /\ (current_column_has_escape_ st' = true
                     <-> has_escape_between cfg buf (next_column_start st')
                           (byte_buffer_ptr st'))
                 /\ forall column loc,
                      In (FieldWritten column loc) (history st') ->
                      In (FieldWritten column loc) (history st)
                      \/ (len loc < 0
                          <-> has_escape_between cfg buf (start loc)
                                (start loc + Z.abs (len loc))))
    by (destruct Hinv as (_ & H1 & H2); split; assumption).
  apply (scan_bytes_inv true cfg buf
           (fun s => next_column_start st <= next_column_start s <= byte_buffer_ptr s
                     /\ (current_column_has_escape_ s = true
                         <-> has_escape_between cfg buf (next_column_start s)
                               (byte_buffer_ptr s))
                     /\ forall column loc,
                          In (FieldWritten column loc) (history s) ->
                          In (FieldWritten column loc) (history st)
                          \/ (len loc < 0
                              <-> has_escape_between cfg buf (start loc)
                                    (start loc + Z.abs (len loc)))))
    with (m := m) (st := forget st) (st' := forget st'); [| |exact Hr].
  - intros b s s' (Hle & Hfl & Hall) Hrd Hsb.
    pose proof (read_byte_fault_free _ _ _ Hrd) as Hrange.
    assert (Hi : int32 (byte_buffer_ptr s - next_column_start s)
                 = byte_buffer_ptr s - next_column_start s)
      by (apply int32_small; lia).
    apply (scan_byte_effect true cfg b s s' (fun _ => Hne)) in Hsb
      as (Hp & [(_ & Hh & Hn & Hf & _)
               | (Hd & Hesc & Hn & Hf & _ & fevs & Hfe & Hh)]);
      rewrite ?Hi in *; rewrite Hh, Hp, Hn, Hf.
    + split; [lia|]. split; [|exact Hall].
      unfold has_escape_between. split.
      * intros Hor. apply orb_true_iff in Hor as [Hc | He].
        -- apply Hfl in Hc as (q & Hq & Hb). exists q. split; [lia | exact Hb].
        -- apply Z.eqb_eq in He. subst b.
           exists (byte_buffer_ptr s). split; [lia | exact Hrd].
      * intros (q & Hq & Hb). apply orb_true_iff.
        destruct (Z.eq_dec q (byte_buffer_ptr s)) as [-> | Hneq].
        -- right. rewrite Hrd in Hb. injection Hb as ->. apply Z.eqb_refl.
        -- left. apply Hfl. exists q. split; [lia | exact Hb].
    + split; [lia|]. split.
      { split; [discriminate|]. intros (q & Hq & _). lia. }
      intros column loc Hin.
      apply in_new_events in Hin as [Hin | [Hin | Hin]].
      * exact (Hall column loc Hin).
      * destruct Hfe as [-> | ->]; [destruct Hin|].
        destruct Hin as [Hin | []]. injection Hin as _ <-. cbn [start len andb].
        right. destruct (current_column_has_escape_ s) eqn:Hc.
        -- pose proof (proj1 Hfl eq_refl) as (q & Hq & Hb).
           replace (Z.abs (- (byte_buffer_ptr s - next_column_start s)))
             with (byte_buffer_ptr s - next_column_start s) by lia.
           split; [intros _|intros _; lia].
           exists q. split; [lia | exact Hb].
        -- replace (Z.abs (byte_buffer_ptr s - next_column_start s))
             with (byte_buffer_ptr s - next_column_start s) by lia.
           split; [lia|]. intros (q & Hq & Hb).
           assert (Hc' : false = true); [|discriminate Hc'].
           apply Hfl. exists q. split; [lia | exact Hb].
      * destruct (b =? tuple_delim_ cfg); [|destruct Hin].
        destruct Hin as [Hin | []]. discriminate Hin.
  - split; [st_norm; lia|]. split; [exact Hflag|].
    intros column loc Hin. left. exact Hin.
Qed.

Lemma negative_length_iff_escape_in_field_witness :
  exists st',
    ParseSse true escape_config two_tuples 2 (initial_state 0 32) = Ok st'
    /\ (current_column_has_escape_ st' = true
        <-> has_escape_between escape_config two_tuples (next_column_start st')
              (byte_buffer_ptr st'))
    /\ forall column loc,
         In (FieldWritten column loc) (history st') ->
         In (FieldWritten column loc) (history (initial_state 0 32))
         \/ (len loc < 0
             <-> has_escape_between escape_config two_tuples (start loc)
                   (start loc + Z.abs (len loc))).
Proof.
  eexists. split; [vm_compute; reflexivity|].
  apply (negative_length_iff_escape_in_field escape_config two_tuples 2).
  - exact (proj2 tables_ok_example).
  - reflexivity.
  - exact (proj2 registers_ok_example).
  - apply no_nul_check. vm_compute. reflexivity.
  - vm_compute. discriminate.
  - vm_compute. reflexivity.
  - split; [discriminate|]. intros (q & Hq & _). change (0 <= q < 0) in Hq. lia.
  - vm_compute. reflexivity.
Defined.

(** X10.  Without escape processing, on a buffer that holds no NUL byte and
    with the delimiter register holding the delimiters, the number of tuple
    ends a call of [ParseSse] writes is the number of tuple-delimiter bytes
    among the bytes it went past. *)
Theorem plain_tuple_ends_count_delimiters (cfg : Config) (buf : list Z)
    (max_tuples : Z) (st st' : State) :
  registers_ok false cfg -> no_nul buf ->
  0 <= byte_buffer_ptr st ->
  ParseSse false cfg buf max_tuples st = Ok st' ->
  tuple_ends (history st')
  = tuple_ends (history st)
    + occurrences (tuple_delim_ cfg)
        (bytes_between buf (byte_buffer_ptr st) (byte_buffer_ptr st')).
Proof.
  intros Hreg Hnul Hpos H.
  assert (Hcfg : false = true -> tables_ok cfg /\ escape_is_no_delim cfg)
    by discriminate.
  destruct (ParseSse_ref false cfg buf Hcfg Hreg Hnul max_tuples st st' H)
    as (m & Hr & _).
  enough (Hinv : byte_buffer_ptr st <= byte_buffer_ptr st'
                 /\ tuple_ends (history st')
                    = tuple_ends (history st)
                      + occurrences (tuple_delim_ cfg)
                          (bytes_between buf (byte_buffer_ptr st) (byte_buffer_ptr st')))
    by apply Hinv.
  apply (scan_bytes_inv false cfg buf
           (fun s => byte_buffer_ptr st <= byte_buffer_ptr s
                     /\ tuple_ends (history s)
                        = tuple_ends (history st)
                          + occurrences (tuple_delim_ cfg)
                              (bytes_between buf (byte_buffer_ptr st)
                                 (byte_buffer_ptr s))))
    with (m := m) (st := forget st) (st' := forget st'); [| |exact Hr].
  - intros b s s' (Hle & Hcount) Hrd Hsb.
    apply (scan_byte_effect false cfg b s s'
             (fun Hpe => proj2 (Hcfg Hpe))) in Hsb
      as (Hp & [(Hnd & Hh & _) | (_ & _ & _ & _ & _ & fevs & Hfe & Hh)]);
      rewrite Hh, Hp, (bytes_between_snoc buf _ _ b) by (lia || exact Hrd);
      rewrite occurrences_app; cbn [occurrences]; (split; [lia|]).
    + cbn [andb negb] in Hnd. rewrite andb_true_r in Hnd.
      destruct (b =? tuple_delim_ cfg) eqn:Hb; [|lia].
      apply is_delim_tuple_delim in Hb. congruence.
    + rewrite !tuple_ends_app.
      assert (Hf0 : tuple_ends fevs = 0) by (destruct Hfe as [-> | ->]; reflexivity).
      destruct (b =? tuple_delim_ cfg); cbn [tuple_ends]; lia.
  - split; [st_norm; lia|]. st_norm. unfold bytes_between.
    rewrite Z.sub_diag. change (Z.to_nat 0) with 0%nat. rewrite take_0.
    cbn [occurrences]. lia.
Qed.

Lemma plain_tuple_ends_count_delimiters_witness :
  exists st',
    ParseSse false plain_config scenario_A 4 (initial_state 0 16) = Ok st'
    /\ tuple_ends (history st')
       = tuple_ends (history (initial_state 0 16))
         + occurrences (tuple_delim_ plain_config)
             (bytes_between scenario_A (byte_buffer_ptr (initial_state 0 16))
                (byte_buffer_ptr st'))
    /\ tuple_ends (history st') = 2.
Proof.
  eexists. split; [vm_compute; reflexivity|].
  split; [|reflexivity].
  apply (plain_tuple_ends_count_delimiters plain_config scenario_A 4).
  - exact (proj1 registers_ok_example).
  - apply no_nul_check. vm_compute. reflexivity.
  - vm_compute. discriminate.
  - vm_compute. reflexivity.
Defined.

(** X11.  Without escape processing a call of [ParseSse] never writes the two
    escape flags: both are on return what they were on entry, also when the
    buffer holds the configured escape character. *)
Theorem plain_scan_keeps_escape_flags (cfg : Config) (buf : list Z)
    (max_tuples : Z) (st st' : State) :
  ParseSse false cfg buf max_tuples st = Ok st' ->
  current_column_has_escape_ st' = current_column_has_escape_ st
  /\ last_char_is_escape_ st' = last_char_is_escape_ st.
Proof.
  intros H.
  refine (ParseSse_pos false cfg buf max_tuples
            (fun _ s =>
               current_column_has_escape_ s = current_column_has_escape_ st
               /\ last_char_is_escape_ s = last_char_is_escape_ st)
            _ _ _ _ _ _ st st' _ H); cbv beta.
  - intros lo lo' s _ Hs. exact Hs.
  - discriminate.
  - discriminate.
  - intros lo v s Hs. exact Hs.
  - intros lo v s Hs. exact Hs.
  - intros lo q b s s1 [Hf Hc] _ _ _ Ha.
    pose proof (AddColumn_frame _ _ _ _ _ Ha) as (_ & _ & Hc1 & _).
    apply AddColumn_result in Ha as (_ & _ & Hf1 & _).
    destruct (b =? tuple_delim_ cfg); [|split; congruence].
    intros s2 Ht.
    pose proof (record_tuple_end_flag _ _ _ _ Ht) as Hf2.
    apply record_tuple_end_frame in Ht as (_ & _ & Hc2 & _).
    split; congruence.
  - split; reflexivity.
Qed.

(** ** Whole windows, bounds of the buffer and of the output arrays *)

Lemma plain_scan_keeps_escape_flags_witness :
  exists st',
    ParseSse false escape_config scenario_B 4 (initial_state 0 16) = Ok st'
    /\ current_column_has_escape_ st'
       = current_column_has_escape_ (initial_state 0 16)
    /\ last_char_is_escape_ st' = last_char_is_escape_ (initial_state 0 16).
Proof.
  eexists. split; [vm_compute; reflexivity|].
  apply (plain_scan_keeps_escape_flags escape_config scenario_B 4).
  vm_compute. reflexivity.
Defined.

Lemma ParseSse_loop_whole_windows (process_escapes : bool) (cfg : Config)
    (buf : list Z) (max_tuples : Z) (fuel : nat) :
  forall st st',
    num_tuples st < max_tuples ->
    ParseSse_loop process_escapes cfg buf fuel max_tuples st = Ok st' ->
    num_tuples st' < max_tuples ->
    exists j,
      0 <= j
      /\ remaining_len st = 16 * j + remaining_len st'
      /\ byte_buffer_ptr st' = byte_buffer_ptr st + 16 * j
      /\ remaining_len st' < 16
      /\ (0 <= remaining_len st -> 0 <= remaining_len st').
Proof.
  induction fuel as [|fuel IH]; intros st st' Hlt H Hlt'.
  - cbn in H. unfold CHARS_PER_128_BIT_REGISTER in H.
    destruct (Z.geb_spec (remaining_len st) 16); [discriminate H|].
    injection H as <-. exists 0. lia.
  - cbn [ParseSse_loop] in H. unfold CHARS_PER_128_BIT_REGISTER in H.
    destruct (Z.geb_spec (remaining_len st) 16); [|injection H as <-; exists 0; lia].
    inv_bind H.
    pose proof (scan_window_bound _ _ _ _ _ _ Hlt E) as Hn.
    pose proof (scan_window_end _ _ _ _ _ _ E) as He.
    destruct a as [s l|s].
    + pose proof (proj2 (scan_window_fuel process_escapes cfg buf max_tuples st)
                    _ _ E) as Hr.
      destruct (IH s st' Hn H Hlt') as (j & Hj & Hrem & Hptr & Hshort & Hpos).
      exists (j + 1). lia.
    + injection H as <-. lia.
Qed.

(** X12.  A call of [ParseSse] that returns below the tuple bound has gone
    past whole windows only: the cursor moved by 16 times the number of full
    windows of the announced length, and what is left of the length is its
    remainder modulo 16. *)
Theorem ParseSse_consumes_whole_windows (process_escapes : bool) (cfg : Config)
    (buf : list Z) (max_tuples : Z) (st st' : State) :
  num_tuples st < max_tuples ->
  0 <= remaining_len st ->
  ParseSse process_escapes cfg buf max_tuples st = Ok st' ->
  num_tuples st' < max_tuples ->
  remaining_len st' = remaining_len st mod 16
  /\ byte_buffer_ptr st' = byte_buffer_ptr st + 16 * (remaining_len st / 16).
Proof.
  intros Hlt Hpos H Hlt'.
  destruct (ParseSse_loop_whole_windows _ _ _ _ _ _ _ Hlt H Hlt')
    as (j & Hj & Hrem & Hptr & Hshort & Hnn).
  specialize (Hnn Hpos).
  assert (Hq : j = remaining_len st / 16).
  { apply (Z.div_unique_pos _ 16 j (remaining_len st')); lia. }
  assert (Hm : remaining_len st' = remaining_len st mod 16).
  { apply (Z.mod_unique_pos _ 16 j); lia. }
  split; [exact Hm|]. rewrite <- Hq. exact Hptr.
Qed.

Lemma ParseSse_consumes_whole_windows_witness :
  exists st',
    ParseSse true escape_config straddling_run 4
      (set_remaining_len 37 (initial_state 0 32)) = Ok st'
    /\ remaining_len st' = 37 mod 16
    /\ byte_buffer_ptr st' = 0 + 16 * (37 / 16).
Proof.
  eexists. split; [vm_compute; reflexivity|].
  apply (ParseSse_consumes_whole_windows true escape_config straddling_run 4
           (set_remaining_len 37 (initial_state 0 32))).
  - vm_compute. reflexivity.
  - vm_compute. discriminate.
  - vm_compute. reflexivity.
  - vm_compute. reflexivity.
Defined.

(** X13.  A call of [ParseSse] on fewer than 16 announced bytes returns at
    once: it reads no byte, writes nothing and leaves every field of the
    parser as it was, whatever the bytes and the tuple bound are. *)
Theorem ParseSse_short_input_untouched (process_escapes : bool) (cfg : Config)
    (buf : list Z) (max_tuples : Z) (st : State) :
  remaining_len st < 16 ->
  ParseSse process_escapes cfg buf max_tuples st = Ok st.
Proof.
  intros Hshort. unfold ParseSse.
  destruct (Z.to_nat (remaining_len st / CHARS_PER_128_BIT_REGISTER));
    cbn [ParseSse_loop]; unfold CHARS_PER_128_BIT_REGISTER;
    destruct (Z.geb_spec (remaining_len st) 16); (lia || reflexivity).
Qed.

Lemma ParseSse_short_input_untouched_witness :
  ParseSse false plain_config scenario_A 1 (initial_state 0 15)
  = Ok (initial_state 0 15).
Proof.
  apply (ParseSse_short_input_untouched false plain_config scenario_A 1
           (initial_state 0 15)).
  vm_compute. reflexivity.
Defined.

(** *** No access outside the buffer and the arrays *)

Lemma AddColumn_fault_capacity (process_escapes : bool) (cfg : Config)
    (column_len : Z) (st : State) (e : error) :
  AddColumn process_escapes cfg column_len st = Fault e ->
  ~ (0 <= num_fields st < Z.of_nat (length (field_locations st))).
Proof.
  unfold AddColumn. intros H Hcap.
  destruct (ReturnCurrentColumn cfg st); [|cbn [bind] in H; discriminate H].
  destruct ((0 <=? num_fields st)
            && (num_fields st <? Z.of_nat (length (field_locations st)))) eqn:Hc;
    [cbn [bind] in H; discriminate H|].
  apply andb_false_iff in Hc as [Hc | Hc];
    [apply Z.leb_gt in Hc | apply Z.ltb_ge in Hc]; lia.
Qed.

Lemma read_byte_fault_range (buf : list Z) (p : Z) (e : error) :
  read_byte buf p = Fault e -> ~ (0 <= p < Z.of_nat (length buf)).
Proof.
  unfold read_byte. intros H Hr.
  destruct ((0 <=? p) && (p <? Z.of_nat (length buf))) eqn:Hc; [discriminate H|].
  apply andb_false_iff in Hc as [Hc | Hc];
    [apply Z.leb_gt in Hc | apply Z.ltb_ge in Hc]; lia.
Qed.

Lemma load_window_fault_range (buf : list Z) (p : Z) (e : error) :
  load_window buf p = Fault e -> ~ (0 <= p /\ p + 16 <= Z.of_nat (length buf)).
Proof.
  unfold load_window, CHARS_PER_128_BIT_REGISTER. intros H Hr.
  destruct ((0 <=? p) && (p + 16 <=? Z.of_nat (length buf))) eqn:Hc; [discriminate H|].
  apply andb_false_iff in Hc as [Hc | Hc];
    [apply Z.leb_gt in Hc | apply Z.leb_gt in Hc]; lia.
Qed.

Lemma record_tuple_end_fault_range (cfg : Config) (p : Z) (st : State) (e : error) :
  record_tuple_end cfg p st = Fault e ->
  ~ (0 <= num_tuples st < Z.of_nat (length (row_end_locations st))).
Proof.
  unfold record_tuple_end. intros H Hr.
  destruct ((0 <=? num_tuples (end_tuple cfg p st))
            && (num_tuples (end_tuple cfg p st)
                <? Z.of_nat (length (row_end_locations (end_tuple cfg p st))))) eqn:Hc;
    [discriminate H|].
  apply andb_false_iff in Hc as [Hc | Hc].
  - apply Z.leb_gt in Hc. change (num_tuples st < 0) in Hc. lia.
  - apply Z.ltb_ge in Hc.
    change (Z.of_nat (length (row_end_locations st)) <= num_tuples st) in Hc. lia.
Qed.

Section InBounds.

Variable process_escapes : bool.
Variable cfg : Config.
Variable buf : list Z.
Variable max_tuples : Z.
Hypothesis Hesc : process_escapes = true -> escape_char_ cfg <> 0.

Lemma delim_step_safe (em n last : Z) (st : State) :
  0 <= n < 16 -> in_bounds buf max_tuples n st -> 16 <= remaining_len st ->
  exists r,
    delim_step process_escapes cfg buf max_tuples em n last st = Ok r
    /\ match r with
       | Next s' _ =>
           in_bounds buf max_tuples (n + 1) s'
           /\ remaining_len s' = remaining_len st
       | Return _ => True
       end.
Proof.
  intros Hn Hb Hrem. unfold delim_step.
  set (p := if process_escapes then (mark_escaped cfg em last n st, n) else (st, last)).
  assert (Hp : in_bounds buf max_tuples n (fst p)
               /\ remaining_len (fst p) = remaining_len st).
  { unfold p. destruct process_escapes; split; (exact Hb || reflexivity). }
  destruct p as [s0 l0]. cbn [fst] in Hp. destruct Hp as [Hb0 Hr0].
  destruct Hb0 as (B1 & B2 & B3 & B4 & B5 & B6).
  destruct (AddColumn process_escapes cfg _ s0) as [s1|e] eqn:E1; cbn [bind].
  2:{ apply AddColumn_fault_capacity in E1. lia. }
  pose proof (AddColumn_frame _ _ _ _ _ E1) as (Hptr & Hrem1 & _ & Hnt & Hrel).
  assert (Harr : num_fields s0 <= num_fields s1 <= num_fields s0 + 1
                 /\ length (field_locations s1) = length (field_locations s0)).
  { apply AddColumn_result in E1
      as (_ & _ & _ & [(_ & _ & Hf & Hnf) | (_ & _ & _ & Hf & Hnf)]);
      rewrite Hf, Hnf; [|rewrite length_insert]; split; (lia || reflexivity). }
  destruct Harr as [Hnf Hlen].
  destruct (read_byte buf _) as [b|e] eqn:E2; cbn [bind].
  2:{ apply read_byte_fault_range in E2. lia. }
  assert (Hs1 : in_bounds buf max_tuples (n + 1) s1).
  { unfold in_bounds. rewrite Hptr, Hrem1, Hnt, Hrel, Hlen. lia. }
  destruct (b =? tuple_delim_ cfg).
  2:{ eexists. split; [reflexivity|]. split; [exact Hs1 | lia]. }
  destruct (record_tuple_end cfg _ s1) as [s2|e] eqn:E3; cbn [bind].
  2:{ apply record_tuple_end_fault_range in E3. rewrite Hnt, Hrel in E3. lia. }
  pose proof (record_tuple_end_frame _ _ _ _ E3) as (Hptr2 & Hrem2 & _ & Hnt2 & _).
  apply record_tuple_end_arrays in E3 as (_ & Hrel2 & Hnf2 & Hfl2).
  destruct (num_tuples s2 =? max_tuples) eqn:Hk;
    (eexists; split; [reflexivity|]); [exact I|].
  apply Z.eqb_neq in Hk. split; [|lia].
  unfold in_bounds. rewrite Hptr2, Hrem2, Hnt2, Hrel2, Hnf2, Hfl2, length_insert.
  unfold in_bounds in Hs1. lia.
Qed.

Lemma walk_safe (em : Z) (k : nat) :
  forall (fuel : nat) (j dm last : Z) (st : State),
    j = 16 - Z.of_nat k -> (k <= 16)%nat -> (k <= fuel)%nat ->
    (forall i, 0 <= i -> Z.testbit dm i = true -> j <= i < 16) ->
    in_bounds buf max_tuples j st -> 16 <= remaining_len st ->
    exists r,
      walk process_escapes cfg buf fuel max_tuples em dm last st = Ok r
      /\ match r with
         | Next s' _ =>
             in_bounds buf max_tuples 16 s'
             /\ remaining_len s' = remaining_len st
         | Return _ => True
         end.
Proof.
  induction k as [|k IH]; intros fuel j dm last st Hjk Hk Hfuel Hbits Hb Hrem.
  - assert (Hz : dm = 0).
    { apply Z.bits_inj'. intros i Hi. rewrite Z.bits_0.
      destruct (Z.testbit dm i) eqn:Hbi; [|reflexivity].
      apply Hbits in Hbi; lia. }
    subst dm. replace j with 16 in Hb by lia.
    destruct fuel; cbn; eexists; (split; [reflexivity|]); split;
      (exact Hb || reflexivity).
  - destruct (Z.testbit dm j) eqn:Hbj.
    + assert (Hnz : (dm =? 0) = false).
      { apply Z.eqb_neq. intros ->. rewrite Z.bits_0 in Hbj. discriminate. }
      destruct fuel as [|fuel]; [lia|].
      cbn [walk]. rewrite Hnz.
      rewrite (ffs_lowest j dm); [|lia| |exact Hbj].
      2:{ intros t Ht. destruct (Z.testbit dm t) eqn:Hbt; [|reflexivity].
          apply Hbits in Hbt; lia. }
      destruct (delim_step_safe em j last st) as (r & Hd & Hr); [lia|exact Hb|exact Hrem|].
      rewrite Hd. cbn [bind]. destruct r as [s1 l1|s1].
      * destruct Hr as [Hb1 Hrem1].
        destruct (IH fuel (j + 1)
                    (uint16 (Z.land dm (Z.lnot (SSE_BITMASK j)))) l1 s1)
          as (r' & Hw & Hr'); [lia|lia|lia| |exact Hb1|lia|].
        { intros i Hi. rewrite clear_bit_testbit by lia. intros Hbi.
          apply andb_true_iff in Hbi as [Hbi Hlt].
          apply andb_true_iff in Hbi as [Hbi Hne].
          apply Hbits in Hbi; [|exact Hi].
          apply negb_true_iff, Z.eqb_neq in Hne. lia. }
        exists r'. split; [exact Hw|].
        destruct r'; [|exact I]. destruct Hr' as [? ?]. split; [assumption | lia].
      * eexists. split; [reflexivity | exact I].
    + apply (IH fuel (j + 1)); [lia|lia|lia| | |exact Hrem].
      * intros i Hi Hbi. destruct (Z.eq_dec i j) as [->|]; [congruence|].
        apply Hbits in Hbi; lia.
      * unfold in_bounds in *. lia.
Qed.

Lemma scan_window_safe (st : State) :
  in_bounds buf max_tuples 0 st -> 16 <= remaining_len st ->
  exists r,
    scan_window process_escapes cfg buf max_tuples st = Ok r
    /\ match r with
       | Next s' _ =>
           in_bounds buf max_tuples 0 s'
           /\ remaining_len s' = remaining_len st - 16
       | Return _ => True
       end.
Proof.
  intros Hb Hrem. unfold scan_window.
  destruct (load_window buf (byte_buffer_ptr st)) as [w|e] eqn:E; cbn [bind].
  2:{ apply load_window_fault_range in E. unfold in_bounds in Hb. lia. }
  assert (Hchk : check_escape_char process_escapes cfg = Ok tt).
  { unfold check_escape_char. destruct process_escapes; [|reflexivity].
    cbn [andb]. destruct (Z.eqb_spec (escape_char_ cfg) 0) as [Hz|]; [|reflexivity].
    exfalso. exact (Hesc eq_refl Hz). }
  rewrite Hchk. cbn [bind]. clear Hchk.
  destruct (window_masks process_escapes cfg w (last_char_is_escape_ st))
    as [[em dm] c'] eqn:Hm.
  apply window_masks_range in Hm.
  destruct (walk_safe em 16 16 0 dm 0
              (if process_escapes then set_last_char_is_escape_ c' st else st))
    as (r & Hw & Hr); [reflexivity|lia|lia| | | |].
  { intros i Hi Hbi. split; [lia|].
    destruct (Z.lt_ge_cases i 16); [assumption|].
    rewrite (testbit_high_small dm) in Hbi by lia. discriminate. }
  { destruct process_escapes; exact Hb. }
  { destruct process_escapes; exact Hrem. }
  rewrite Hw. cbn [bind]. destruct r as [s1 l1|s1].
  - eexists. split; [reflexivity|]. destruct Hr as [Hb1 Hrem1].
    assert (Hrem2 : remaining_len s1 = remaining_len st)
      by (rewrite Hrem1; destruct process_escapes; reflexivity).
    unfold in_bounds, advance_window, fold_tail, CHARS_PER_128_BIT_REGISTER in *.
    destruct process_escapes; st_norm; lia.
  - eexists. split; [reflexivity | exact I].
Qed.

Lemma ParseSse_loop_safe (fuel : nat) :
  forall st,
    remaining_len st < 16 * (Z.of_nat fuel + 1) ->
    in_bounds buf max_tuples 0 st ->
    exists st', ParseSse_loop process_escapes cfg buf fuel max_tuples st = Ok st'.
Proof.
  induction fuel as [|fuel IH]; intros st Hfuel Hb.
  - cbn. unfold CHARS_PER_128_BIT_REGISTER.
    destruct (Z.geb_spec (remaining_len st) 16); [lia|]. eexists. reflexivity.
  - cbn [ParseSse_loop]. unfold CHARS_PER_128_BIT_REGISTER.
    destruct (Z.geb_spec (remaining_len st) 16); [|eexists; reflexivity].
    destruct (scan_window_safe st Hb) as (r & Hs & Hr); [lia|].
    rewrite Hs. cbn [bind]. destruct r as [s1 l1|s1]; [|eexists; reflexivity].
    destruct Hr as [Hb1 Hrem1]. apply IH; [lia | exact Hb1].
Qed.

End InBounds.

(** X14.  A call of [ParseSse] returns, with no access outside the buffer or
    the two output arrays and no failed check, when the escape character is
    not NUL if escape processing is active (the check of line 111), the
    announced bytes are bytes of the buffer, the field array has a free slot
    for each of them, and the tuple counter starts below a bound that the
    tuple-end array can hold. *)
Theorem ParseSse_in_bounds_returns (process_escapes : bool) (cfg : Config)
    (buf : list Z) (max_tuples : Z) (st : State) :
  (process_escapes = true -> escape_char_ cfg <> 0) ->
  0 <= byte_buffer_ptr st ->
  byte_buffer_ptr st + remaining_len st <= Z.of_nat (length buf) ->
  0 <= num_fields st ->
  num_fields st + remaining_len st <= Z.of_nat (length (field_locations st)) ->
  0 <= num_tuples st < max_tuples ->
  max_tuples <= Z.of_nat (length (row_end_locations st)) ->
  exists st', ParseSse process_escapes cfg buf max_tuples st = Ok st'.
Proof.
  intros Hesc H1 H2 H3 H4 H5 H6. unfold ParseSse, CHARS_PER_128_BIT_REGISTER.
  apply ParseSse_loop_safe; [exact Hesc| |].
  - destruct (Z.lt_ge_cases (remaining_len st) 0).
    + lia.
    + rewrite Z2Nat.id by (apply Z.div_pos; lia).
      pose proof (Z.mul_succ_div_gt (remaining_len st) 16). lia.
  - unfold in_bounds. lia.
Qed.

Lemma ParseSse_in_bounds_returns_witness :
  exists st', ParseSse true escape_config scenario_B 4 (roomy_state 0 16) = Ok st'.
Proof.
  apply (ParseSse_in_bounds_returns true escape_config scenario_B 4 (roomy_state 0 16)).
  - intros _. discriminate.
  - vm_compute. discriminate.
  - vm_compute. discriminate.
  - vm_compute. discriminate.
  - vm_compute. discriminate.
  - vm_compute. split; [discriminate | reflexivity].
  - vm_compute. discriminate.
Defined.

(** *** The output arrays and the order of writing *)

Lemma fields_of_app (h1 h2 : list Event) :
  fields_of (h1 ++ h2) = fields_of h1 ++ fields_of h2.
Proof.
  induction h1 as [|[column loc|p] h1 IH]; cbn [app fields_of];
    [reflexivity | rewrite IH; reflexivity | exact IH].
Qed.

Lemma tuple_ptrs_of_app (h1 h2 : list Event) :
  tuple_ptrs_of (h1 ++ h2) = tuple_ptrs_of h1 ++ tuple_ptrs_of h2.
Proof.
  induction h1 as [|[column loc|p] h1 IH]; cbn [app tuple_ptrs_of];
    [reflexivity | exact IH | rewrite IH; reflexivity].
Qed.

Lemma take_write_next {A : Type} (l : list A) (n : Z) (x : A) (prefix : list A) :
  0 <= n < Z.of_nat (length l) ->
  take (Z.to_nat n) l = prefix ->
  take (Z.to_nat (n + 1)) (<[Z.to_nat n := x]> l) = prefix ++ [x].
Proof.
  intros Hn <-.
  replace (Z.to_nat (n + 1)) with (S (Z.to_nat n)) by lia.
  rewrite (take_S_r _ _ x) by (apply list_lookup_insert_eq; lia).
  rewrite take_insert_ge by lia. reflexivity.
Qed.

(** X15.  The two output arrays hold what a call of [ParseSse] wrote, in the
    order of writing: the field locations follow those that were there
    below [num_fields], the tuple ends those below [num_tuples], the two
    counters grow by the numbers written, and no array changes its size. *)
Theorem output_arrays_hold_writes_in_order (process_escapes : bool) (cfg : Config)
    (buf : list Z) (max_tuples : Z) (st st' : State) :
  ParseSse process_escapes cfg buf max_tuples st = Ok st' ->
  exists new,
    history st' = history st ++ new
    /\ num_fields st' = num_fields st + Z.of_nat (length (fields_of new))
    /\ take (Z.to_nat (num_fields st')) (field_locations st')
       = take (Z.to_nat (num_fields st)) (field_locations st) ++ fields_of new
    /\ length (field_locations st') = length (field_locations st)
    /\ num_tuples st' = num_tuples st + Z.of_nat (length (tuple_ptrs_of new))
    /\ take (Z.to_nat (num_tuples st')) (row_end_locations st')
       = take (Z.to_nat (num_tuples st)) (row_end_locations st) ++ tuple_ptrs_of new
    /\ length (row_end_locations st') = length (row_end_locations st).
Proof.
  apply ParseSse_inv with
    (Inv := fun s =>
       exists new,
         history s = history st ++ new
         /\ num_fields s = num_fields st + Z.of_nat (length (fields_of new))
         /\ take (Z.to_nat (num_fields s)) (field_locations s)
            = take (Z.to_nat (num_fields st)) (field_locations st) ++ fields_of new
         /\ length (field_locations s) = length (field_locations st)
         /\ num_tuples s = num_tuples st + Z.of_nat (length (tuple_ptrs_of new))
         /\ take (Z.to_nat (num_tuples s)) (row_end_locations s)
            = take (Z.to_nat (num_tuples st)) (row_end_locations st)
              ++ tuple_ptrs_of new
         /\ length (row_end_locations s) = length (row_end_locations st));
    try (intros v s Hs; exact Hs).
  - intros column_len s s' (new & Hh & Hnf & Hfl & Hlf & Hnt & Hrl & Hlr) Ha.
    pose proof (AddColumn_frame _ _ _ _ _ Ha) as (_ & _ & _ & Hn & Hr).
    apply AddColumn_result in Ha
      as (_ & _ & _ & [(_ & Hh' & Hf' & Hn') | (_ & Hcap & Hh' & Hf' & Hn')]).
    + exists new. rewrite Hh', Hf', Hn', Hn, Hr. repeat split; assumption.
    + eexists (new ++ [FieldWritten _ _]).
      rewrite Hh', Hf', Hn', Hn, Hr, fields_of_app, tuple_ptrs_of_app.
      cbn [fields_of tuple_ptrs_of]. rewrite app_nil_r, length_app, length_insert.
      cbn [length].
      split; [rewrite Hh, app_assoc; reflexivity|]. split; [lia|].
      split; [rewrite app_assoc; apply take_write_next; assumption|].
      repeat split; assumption.
  - intros p s s' (new & Hh & Hnf & Hfl & Hlf & Hnt & Hrl & Hlr) Ht.
    pose proof (record_tuple_end_frame _ _ _ _ Ht) as (_ & _ & _ & Hn & _ & Hh').
    apply record_tuple_end_arrays in Ht as (Hcap & Hr' & Hnf' & Hf').
    exists (new ++ [TupleEnd p]).
    rewrite Hh', Hf', Hnf', Hn, Hr', fields_of_app, tuple_ptrs_of_app.
    cbn [fields_of tuple_ptrs_of]. rewrite app_nil_r, length_app, length_insert.
    cbn [length].
    split; [rewrite Hh, app_assoc; reflexivity|]. split; [assumption|].
    split; [assumption|]. split; [assumption|]. split; [lia|].
    split; [rewrite app_assoc; apply take_write_next; assumption | assumption].
  - exists []. rewrite !app_nil_r. cbn [fields_of tuple_ptrs_of length].
    repeat split; lia.
Qed.

Lemma output_arrays_hold_writes_in_order_witness :
  exists st',
    ParseSse true escape_config two_tuples 2 (initial_state 0 32) = Ok st'
    /\ exists new,
         history st' = history (initial_state 0 32) ++ new
         /\ num_fields st'
            = num_fields (initial_state 0 32) + Z.of_nat (length (fields_of new))
         /\ take (Z.to_nat (num_fields st')) (field_locations st')
            = take (Z.to_nat (num_fields (initial_state 0 32)))
                (field_locations (initial_state 0 32)) ++ fields_of new
         /\ length (field_locations st')
            = length (field_locations (initial_state 0 32))
         /\ num_tuples st'
            = num_tuples (initial_state 0 32)
              + Z.of_nat (length (tuple_ptrs_of new))
         /\ take (Z.to_nat (num_tuples st')) (row_end_locations st')
            = take (Z.to_nat (num_tuples (initial_state 0 32)))
                (row_end_locations (initial_state 0 32)) ++ tuple_ptrs_of new
         /\ length (row_end_locations st')
            = length (row_end_locations (initial_state 0 32)).
Proof.
  eexists. split; [vm_compute; reflexivity|].
  apply (output_arrays_hold_writes_in_order true escape_config two_tuples 2).
  vm_compute. reflexivity.
Defined.

(** ** The call that reaches its bound *)

Section Stop.

Variable process_escapes : bool.
Variable cfg : Config.
Variable buf : list Z.
Variable max_tuples : Z.

Lemma delim_step_stop (em n last : Z) (st s : State) :
  delim_step process_escapes cfg buf max_tuples em n last st = Ok (Return s) ->
  (exists earlier, history s = earlier ++ [TupleEnd (byte_buffer_ptr s - 1)])
  /\ read_byte buf (byte_buffer_ptr s - 1) = Ok (tuple_delim_ cfg)
  /\ row_end_locations s !! Z.to_nat (max_tuples - 1) = Some (byte_buffer_ptr s - 1).
Proof.
  unfold delim_step. intros H.
  set (p := if process_escapes then (mark_escaped cfg em last n st, n) else (st, last))
    in H.
  destruct p as [s0 l0].
  inv_bind H. inv_bind H.
  destruct (a0 =? tuple_delim_ cfg) eqn:Hb; [|discriminate H].
  inv_bind H.
  destruct (num_tuples a1 =? max_tuples) eqn:Hk; [|discriminate H].
  injection H as <-. apply Z.eqb_eq in Hb. subst a0. apply Z.eqb_eq in Hk.
  pose proof (AddColumn_frame _ _ _ _ _ E) as (Hptr & _).
  pose proof (record_tuple_end_frame _ _ _ _ E1) as (Hptr2 & _ & _ & Hnt & _ & Hh).
  apply record_tuple_end_arrays in E1 as (Hcap & Hrel & _).
  assert (Hp : byte_buffer_ptr (early_exit process_escapes n a1) - 1
               = byte_buffer_ptr s0 + n).
  { unfold early_exit. destruct process_escapes; st_norm; lia. }
  assert (Hh' : history (early_exit process_escapes n a1) = history a1)
    by (unfold early_exit; destruct process_escapes; reflexivity).
  assert (Hr' : row_end_locations (early_exit process_escapes n a1)
                = row_end_locations a1)
    by (unfold early_exit; destruct process_escapes; reflexivity).
  rewrite Hp, Hh', Hr', Hh, Hrel.
  split; [eexists; reflexivity|]. split; [rewrite <- Hptr; exact E0|].
  replace (max_tuples - 1) with (num_tuples a) by lia.
  apply list_lookup_insert_eq. lia.
Qed.

Lemma walk_stop (fuel : nat) :
  forall (em dm last : Z) (st s : State),
    walk process_escapes cfg buf fuel max_tuples em dm last st = Ok (Return s) ->
    (exists earlier, history s = earlier ++ [TupleEnd (byte_buffer_ptr s - 1)])
    /\ read_byte buf (byte_buffer_ptr s - 1) = Ok (tuple_delim_ cfg)
    /\ row_end_locations s !! Z.to_nat (max_tuples - 1)
       = Some (byte_buffer_ptr s - 1).
Proof.
  induction fuel as [|fuel IH]; intros em dm last st s H.
  - cbn in H. destruct (dm =? 0); discriminate H.
  - cbn [walk] in H. destruct (dm =? 0); [discriminate H|].
    inv_bind H. destruct a as [s1 l1|s1].
    + eapply IH. exact H.
    + injection H as <-. eapply delim_step_stop. exact E.
Qed.

Lemma scan_window_stop (st s : State) :
  scan_window process_escapes cfg buf max_tuples st = Ok (Return s) ->
  (exists earlier, history s = earlier ++ [TupleEnd (byte_buffer_ptr s - 1)])
  /\ read_byte buf (byte_buffer_ptr s - 1) = Ok (tuple_delim_ cfg)
  /\ row_end_locations s !! Z.to_nat (max_tuples - 1) = Some (byte_buffer_ptr s - 1).
Proof.
  unfold scan_window. intros H. inv_bind H. inv_bind H. clear E0. destruct a0.
  destruct (window_masks process_escapes cfg a (last_char_is_escape_ st))
    as [[em dm] c'].
  inv_bind H. destruct a0 as [s1 l1|s1]; [discriminate H|].
  injection H as <-. eapply walk_stop. exact E0.
Qed.

Lemma ParseSse_loop_stop (fuel : nat) :
  forall st st',
    num_tuples st < max_tuples ->
    ParseSse_loop process_escapes cfg buf fuel max_tuples st = Ok st' ->
    num_tuples st' = max_tuples ->
    (exists earlier, history st' = earlier ++ [TupleEnd (byte_buffer_ptr st' - 1)])
    /\ read_byte buf (byte_buffer_ptr st' - 1) = Ok (tuple_delim_ cfg)
    /\ row_end_locations st' !! Z.to_nat (max_tuples - 1)
       = Some (byte_buffer_ptr st' - 1).
Proof.
  induction fuel as [|fuel IH]; intros st st' Hlt H Hk.
  - cbn in H. destruct (remaining_len st >=? _); [discriminate H|].
    injection H as <-. lia.
  - cbn [ParseSse_loop] in H.
    destruct (remaining_len st >=? _); [|injection H as <-; lia].
    inv_bind H.
    pose proof (scan_window_bound _ _ _ _ _ _ Hlt E) as Hn.
    destruct a as [s l|s].
    + eapply IH; eassumption.
    + injection H as <-. eapply scan_window_stop. exact E.
Qed.

End Stop.

(** X16.  A call of [ParseSse] that starts below the tuple bound and
    reaches it stops right behind the tuple delimiter that filled the bound:
    the byte before the cursor it leaves is the tuple delimiter, its offset
    is the last tuple end written, and it is in the last slot of the
    tuple-end array that the bound allows. *)
Theorem ParseSse_stops_behind_last_tuple (process_escapes : bool) (cfg : Config)
    (buf : list Z) (max_tuples : Z) (st st' : State) :
  num_tuples st < max_tuples ->
  ParseSse process_escapes cfg buf max_tuples st = Ok st' ->
  num_tuples st' = max_tuples ->
  (exists earlier, history st' = earlier ++ [TupleEnd (byte_buffer_ptr st' - 1)])
  /\ read_byte buf (byte_buffer_ptr st' - 1) = Ok (tuple_delim_ cfg)
  /\ row_end_locations st' !! Z.to_nat (max_tuples - 1)
     = Some (byte_buffer_ptr st' - 1).
Proof.
  unfold ParseSse. intros Hlt H Hk. eapply ParseSse_loop_stop; eassumption.
Qed.

Lemma ParseSse_stops_behind_last_tuple_witness :
  exists st',
    ParseSse true escape_config two_tuples 1 (initial_state 0 32) = Ok st'
    /\ (exists earlier, history st' = earlier ++ [TupleEnd (byte_buffer_ptr st' - 1)])
    /\ read_byte two_tuples (byte_buffer_ptr st' - 1) = Ok (tuple_delim_ escape_config)
    /\ row_end_locations st' !! Z.to_nat (1 - 1) = Some (byte_buffer_ptr st' - 1)
    /\ byte_buffer_ptr st' = 7.
Proof.
  eexists. split; [vm_compute; reflexivity|].
  match goal with
  | |- (exists earlier, history ?s = _) /\ _ =>
      destruct (ParseSse_stops_behind_last_tuple true escape_config two_tuples 1
                  (initial_state 0 32) s) as (H1 & H2 & H3)
  end.
  - vm_compute. reflexivity.
  - vm_compute. reflexivity.
  - reflexivity.
  - split; [exact H1|]. split; [exact H2|]. split; [exact H3 | reflexivity].
Defined.

(** ** The order of the fields in the buffer *)

Lemma fields_end_snoc (from : Z) (locs : list FieldLocation) (loc : FieldLocation) :
  fields_end from (locs ++ [loc]) = start loc + Z.abs (len loc) + 1.
Proof.
  revert from. induction locs as [|x locs IH]; intros from; cbn [app fields_end];
    [reflexivity | apply IH].
Qed.

Lemma fields_in_order_snoc (from : Z) (locs : list FieldLocation)
    (loc : FieldLocation) :
  fields_in_order from locs -> fields_end from locs <= start loc ->
  fields_in_order from (locs ++ [loc]).
Proof.
  revert from. induction locs as [|x locs IH]; intros from Ho He;
    cbn [app fields_in_order fields_end] in *.
  - split; [exact He | exact I].
  - destruct Ho as [H1 H2]. split; [exact H1|]. apply IH; assumption.
Qed.

(** X17.  When a call of [ParseSse] starts with next-column-start at or
    before the cursor and the end of the buffer less than [2^31] bytes behind
    next-column-start (no column is too long for the [int] of line 138), the
    field locations it writes follow one another in the buffer in the order
    of writing and do not overlap: each starts at or after the byte behind
    the delimiter that ends the one before, the first not before the
    next-column-start the call was given, and the last ends before the
    next-column-start the call leaves. *)
Theorem fields_written_in_buffer_order (process_escapes : bool) (cfg : Config)
    (buf : list Z) (max_tuples : Z) (st st' : State) :
  next_column_start st <= byte_buffer_ptr st ->
  Z.of_nat (length buf) - next_column_start st < 2147483648 ->
  ParseSse process_escapes cfg buf max_tuples st = Ok st' ->
  exists new,
    history st' = history st ++ new
    /\ fields_in_order (next_column_start st) (fields_of new)
    /\ fields_end (next_column_start st) (fields_of new) <= next_column_start st'.
Proof.
  intros Hstart Hint H.
  enough (Hpos : next_column_start st <= next_column_start st' <= byte_buffer_ptr st'
                 /\ exists new,
                      history st' = history st ++ new
                      /\ fields_in_order (next_column_start st) (fields_of new)
                      /\ fields_end (next_column_start st) (fields_of new)
                         <= next_column_start st')
    by apply Hpos.
  refine (ParseSse_pos process_escapes cfg buf max_tuples
            (fun lo s =>
               next_column_start st <= next_column_start s <= lo
               /\ exists new,
                    history s = history st ++ new
                    /\ fields_in_order (next_column_start st) (fields_of new)
                    /\ fields_end (next_column_start st) (fields_of new)
                       <= next_column_start s)
            _ _ _ _ _ _ st st' _ H); cbv beta.
  - intros lo lo' s Hlo [H1 H2]. split; [lia | exact H2].
  - intros _ lo v s Hs. exact Hs.
  - intros _ lo v s Hs. exact Hs.
  - intros lo v s Hs. exact Hs.
  - intros lo v s Hs. exact Hs.
  - intros lo q b s s1 (Hn & new & Hnew & Hord & Hend) Hq Hrd _ Ha.
    pose proof (read_byte_fault_free _ _ _ Hrd) as Hrange.
    rewrite int32_small in Ha by lia.
    apply AddColumn_result in Ha as (Hn1 & _ & _ & Hout).
    assert (Hs1 : next_column_start st <= next_column_start s1 <= q + 1
                  /\ exists new1,
                       history s1 = history st ++ new1
                       /\ fields_in_order (next_column_start st) (fields_of new1)
                       /\ fields_end (next_column_start st) (fields_of new1)
                          <= next_column_start s1).
    { split; [lia|].
      destruct Hout as [(_ & Hh & _) | (_ & _ & Hh & _)]; rewrite Hh, Hnew.
      - exists new. split; [reflexivity|]. split; [exact Hord | lia].
      - eexists (new ++ [FieldWritten _ _]).
        split; [rewrite app_assoc; reflexivity|].
        rewrite fields_of_app. cbn [fields_of]. split.
        + apply fields_in_order_snoc; [exact Hord | exact Hend].
        + rewrite fields_end_snoc. cbn [start len].
          destruct (process_escapes && current_column_has_escape_ s); lia. }
    destruct (b =? tuple_delim_ cfg); [|exact Hs1].
    intros s2 Ht. destruct Hs1 as (Hn2 & new1 & Hnew1 & Hord1 & Hend1).
    pose proof (record_tuple_end_start _ _ _ _ Ht) as Hst.
    apply record_tuple_end_frame in Ht as (_ & _ & _ & _ & _ & Hh).
    rewrite Hst. split; [exact Hn2|].
    exists (new1 ++ [TupleEnd q]).
    split; [rewrite Hh, Hnew1, app_assoc; reflexivity|].
    rewrite fields_of_app. cbn [fields_of]. rewrite app_nil_r.
    split; assumption.
  - split; [lia|]. exists []. rewrite app_nil_r.
    cbn [fields_of fields_in_order fields_end]. split; [reflexivity|].
    split; [exact I | lia].
Qed.

Lemma fields_written_in_buffer_order_witness :
  exists st',
    ParseSse true escape_config two_tuples 2 (initial_state 0 32) = Ok st'
    /\ exists new,
         history st' = history (initial_state 0 32) ++ new
         /\ fields_in_order (next_column_start (initial_state 0 32)) (fields_of new)
         /\ fields_end (next_column_start (initial_state 0 32)) (fields_of new)
            <= next_column_start st'.
Proof.
  eexists. split; [vm_compute; reflexivity|].
  apply (fields_written_in_buffer_order true escape_config two_tuples 2).
  - vm_compute. discriminate.
  - vm_compute. reflexivity.
  - vm_compute. reflexivity.
Defined.
